(** * apidoc-plugin-jsonschema: the schema-to-descriptor compiler

    A shallow embedding of [src/index.js]: the descriptor formatter
    [createDocParameter], the recursive walker [iterateObjectReqursive]
    and the entry point [extractArgumentsFromSchema], the loader and the
    parser hook, followed by the properties of the specification stated
    and settled against them.

    The program is dynamically typed, so the embedding works on a type
    of JavaScript values and writes out the coercions the source relies
    on (truthiness, [String(v)], [Number(v)], [JSON.stringify], [+] and
    [-]).  The exceptions the source can raise are results of the
    embedding.  The walker is embedded twice: on schema trees, with the
    accumulator as the state it passes on, and on a store of objects
    with addresses, where a [push] is a write. *)

From Stdlib Require Import ZArith List String Ascii Bool Arith Lia DecimalString Floats.
Import ListNotations.

Local Open Scope list_scope.
Local Open Scope string_scope.

(** ** JavaScript values *)

Module JS.

(** The values a dereferenced schema is made of.  [JUndefined] is what
    reading a missing property yields.

    - [JNum] holds the numbers, which are the double-precision floats,
      NaN and the infinities among them.
    - [JStr] holds strings of one-unit characters.
    - [JObj] lists the own enumerable properties of an object in the
      order [for..in] enumerates them; an object has each key once.  The
      properties hold data: no value is a function, so a property named
      as a method of [Object.prototype] hides the method behind a value
      that cannot be called. *)
Unset Elimination Schemes.
Inductive jsval : Type :=
| JUndefined
| JNull
| JBool (b : bool)
| JNum (n : float)
| JStr (s : string)
| JArr (l : list jsval)
| JObj (l : list (string * jsval)).
Set Elimination Schemes.

(** What a JavaScript operation can end in, besides a value. *)
Inductive exn : Type :=
| TypeError                  (* raised by the engine: property of null, call of a non-function *)
| Error (message : string).  (* [throw new Error(message)] *)

Inductive result (A : Type) : Type :=
| Ok (a : A)
| Raise (e : exn).
Arguments Ok {A} a.
Arguments Raise {A} e.

Definition bind {A B : Type} (r : result A) (k : A -> result B) : result B :=
  match r with
  | Ok a => k a
  | Raise e => Raise e
  end.

Notation "x <- r ;; k" := (bind r (fun x => k))
  (at level 61, r at next level, right associativity).

(** [f] on every member, from the first on, up to the first that
    raises. *)
Definition each {A B : Type} (f : A -> result B) : list A -> result (list B) :=
  fix go (l : list A) : result (list B) :=
    match l with
    | [] => Ok []
    | a :: t => b <- f a ;; bs <- go t ;; Ok (b :: bs)
    end.

(** The double quote character, and a string in double quotes. *)
Definition dquote : string := String "034" EmptyString.
Definition quoted (s : string) : string := dquote ++ s ++ dquote.

(** [ToBoolean]. *)
Definition truthy (v : jsval) : bool :=
  match v with
  | JUndefined | JNull => false
  | JBool b => b
  | JNum n => negb ((n =? 0)%float || is_nan n)
  | JStr s => negb (s =? EmptyString)
  | JArr _ | JObj _ => true
  end.

(** [a || b]. *)
Definition orElse (a b : jsval) : jsval := if truthy a then a else b.

(** *** Numbers as text, text as numbers *)

(** The decimal digits of an integer. *)
Definition decimal (n : Z) : string := NilZero.string_of_int (Z.to_int n).

(** The double nearest to [p / q], ties to the even one, for a [p] that
    is not negative and a positive [q]: correctly rounded division of
    the standard's specification of binary64. *)
Definition nearest (p q : Z) : float :=
  match p, q with
  | Zpos p', Zpos q' =>
      SF2Prim (SFdiv prec emax (S754_finite false p' 0) (S754_finite false q' 0))
  | _, _ => 0%float
  end.

(** [p / q] divided by [10 ^ n], as a fraction. *)
Definition shifted (p q n : Z) : Z * Z :=
  if (0 <=? n)%Z then (p, q * 10 ^ n)%Z else (p * 10 ^ (- n), q)%Z.

(** The [n] with [10 ^ (n - 1) <= p / q < 10 ^ n], looked for upwards
    from an estimate below it taken from the binary logarithms. *)
Fixpoint magnitudeFrom (fuel : nat) (p q n : Z) : Z :=
  match fuel with
  | O => n
  | S fuel' =>
      let '(p', q') := shifted p q n in
      if (p' <? q')%Z then n else magnitudeFrom fuel' p q (n + 1)%Z
  end.

Definition magnitude (p q : Z) : Z :=
  magnitudeFrom 8 p q (((Z.log2 p - Z.log2 q - 1) * 30103) / 100000 - 1)%Z.

(** [s * 10 ^ e] rounds to the double [x]. *)
Definition roundsTo (x : float) (s e : Z) : bool :=
  let '(p, q) := if (0 <=? e)%Z then (s * 10 ^ e, 1)%Z else (s, 10 ^ (- e))%Z in
  (nearest p q =? x)%float.

(** The digits [Number::toString] writes for the positive double [x],
    which is [p / q] and of magnitude [n]: the integer [s] of the fewest
    digits [k] such that [s * 10 ^ (n - k)] rounds to [x], the nearest
    to [x] when two have as few (the even one when they are as near);
    with it, the magnitude of what is written.  Seventeen digits always
    round back, so the search ends before its bound. *)
Fixpoint shortest (fuel : nat) (x : float) (p q n k : Z) : Z * Z :=
  match fuel with
  | O => (0%Z, n)
  | S fuel' =>
      let '(p', q') := shifted p q (n - k) in
      let below := (p' / q')%Z in
      let above := (below + 1)%Z in
      let r := (p' mod q')%Z in
      let nearerAbove := (q' <? 2 * r)%Z || ((q' =? 2 * r)%Z && Z.odd below) in
      if roundsTo x below (n - k)
         && negb (roundsTo x above (n - k) && nearerAbove) then (below, n)
      else if roundsTo x above (n - k) then
        if (above =? 10 ^ k)%Z then (1%Z, (n + 1)%Z) else (above, n)
      else shortest fuel' x p q n (k + 1)%Z
  end.

Fixpoint zeros (n : nat) : string :=
  match n with
  | O => EmptyString
  | S n' => String "0" (zeros n')
  end.

(** The digits [s] of a number of magnitude [n], laid out as
    [Number::toString] does: plain up to 21 digits before the point and
    6 zeros after it, with an exponent beyond. *)
Definition digitsText (s n : Z) : string :=
  let digits := decimal s in
  let k := Z.of_nat (String.length digits) in
  if (k <=? n)%Z && (n <=? 21)%Z then digits ++ zeros (Z.to_nat (n - k))
  else if (0 <? n)%Z && (n <=? 21)%Z then
    substring 0 (Z.to_nat n) digits ++ "."
      ++ substring (Z.to_nat n) (Z.to_nat (k - n)) digits
  else if (-6 <? n)%Z && (n <=? 0)%Z then "0." ++ zeros (Z.to_nat (- n)) ++ digits
  else
    let e := (n - 1)%Z in
    let exponent := (if (e <? 0)%Z then "-" else "+") ++ decimal (Z.abs e) in
    if (k =? 1)%Z then digits ++ "e" ++ exponent
    else substring 0 1 digits ++ "." ++ substring 1 (Z.to_nat (k - 1)) digits
           ++ "e" ++ exponent.

(** [String(x)] for a number. *)
Definition numberText (x : float) : string :=
  match Prim2SF x with
  | S754_nan => "NaN"
  | S754_zero _ => "0"
  | S754_infinity s => if s then "-Infinity" else "Infinity"
  | S754_finite s m e =>
      let '(p, q) := if (0 <=? e)%Z then (Z.pos m * 2 ^ e, 1)%Z
                     else (Z.pos m, 2 ^ (- e))%Z in
      let '(digits, n) := shortest 20 (abs x) p q (magnitude p q) 1 in
      (if s then "-" else "") ++ digitsText digits n
  end.

(** [String.prototype.trim] on one-unit characters. *)
Definition whitespace (c : ascii) : bool :=
  existsb (Nat.eqb (nat_of_ascii c)) [9; 10; 11; 12; 13; 32; 160]%nat.

Fixpoint trimStart (s : string) : string :=
  match s with
  | String c s' => if whitespace c then trimStart s' else s
  | EmptyString => EmptyString
  end.

Fixpoint trimEnd (s : string) : string :=
  match s with
  | EmptyString => EmptyString
  | String c s' =>
      match trimEnd s' with
      | EmptyString => if whitespace c then EmptyString else String c EmptyString
      | kept => String c kept
      end
  end.

Definition trim (s : string) : string := trimEnd (trimStart s).

(** The value of a digit in a base up to sixteen. *)
Definition digitValue (base : Z) (c : ascii) : option Z :=
  let n := Z.of_nat (nat_of_ascii c) in
  let v := if (48 <=? n)%Z && (n <=? 57)%Z then (n - 48)%Z
           else if (97 <=? n)%Z && (n <=? 102)%Z then (n - 87)%Z
           else if (65 <=? n)%Z && (n <=? 70)%Z then (n - 55)%Z
           else 16%Z in
  if (v <? base)%Z then Some v else None.

(** The digits at the head of [s]: the number they make after [value],
    how many they are, and what follows them. *)
Fixpoint digitsFrom (base : Z) (s : string) (value count : Z) : Z * Z * string :=
  match s with
  | String c s' =>
      match digitValue base c with
      | Some v => digitsFrom base s' (value * base + v)%Z (count + 1)%Z
      | None => (value, count, s)
      end
  | EmptyString => (value, count, s)
  end.

(** [m * 10 ^ e] as the nearest double. *)
Definition scaled (m e : Z) : float :=
  if (0 <=? e)%Z then nearest (m * 10 ^ e) 1 else nearest m (10 ^ (- e)).

(** An integer literal of base 2, 8 or 16, after its prefix. *)
Definition integerLiteral (base : Z) (s : string) : float :=
  match digitsFrom base s 0 0 with
  | (value, count, EmptyString) => if (count =? 0)%Z then nan else nearest value 1
  | _ => nan
  end.

(** The exponent part of a decimal literal, when there is one. *)
Definition exponentPart (s : string) : option Z :=
  match s with
  | EmptyString => Some 0%Z
  | String c s' =>
      if Ascii.eqb c "e" || Ascii.eqb c "E" then
        let '(negative, s'') := match s' with
                                | String "+" t => (false, t)
                                | String "-" t => (true, t)
                                | _ => (false, s')
                                end in
        match digitsFrom 10 s'' 0 0 with
        | (value, count, EmptyString) =>
            if (count =? 0)%Z then None
            else Some (if negative then (- value)%Z else value)
        | _ => None
        end
      else None
  end.

(** A decimal literal after its sign. *)
Definition decimalLiteral (s : string) : float :=
  if s =? "Infinity" then infinity
  else
    let '(whole, wholeCount, s1) := digitsFrom 10 s 0 0 in
    let '(mantissa, fractionCount, s2) :=
      match s1 with
      | String "." t => digitsFrom 10 t whole 0
      | _ => (whole, 0%Z, s1)
      end in
    if (wholeCount + fractionCount =? 0)%Z then nan
    else match exponentPart s2 with
         | Some e => scaled mantissa (e - fractionCount)
         | None => nan
         end.

(** [Number(s)] for a string: the number its trimmed text writes, zero
    for no text, NaN for any other text. *)
Definition stringToNumber (s : string) : float :=
  match trim s with
  | EmptyString => 0%float
  | String "0" (String "x" t) | String "0" (String "X" t) => integerLiteral 16 t
  | String "0" (String "o" t) | String "0" (String "O" t) => integerLiteral 8 t
  | String "0" (String "b" t) | String "0" (String "B" t) => integerLiteral 2 t
  | String "+" t => decimalLiteral t
  | String "-" t => (- decimalLiteral t)%float
  | t => decimalLiteral t
  end.

(** *** Conversion to text *)

(** [Array.prototype.join] on already rendered members. *)
Fixpoint join (sep : string) (l : list string) : string :=
  match l with
  | [] => EmptyString
  | [s] => s
  | s :: t => s ++ sep ++ join sep t
  end.

(** The object has an own property named [key]. *)
Definition owns (key : string) (l : list (string * jsval)) : bool :=
  existsb (fun p => fst p =? key) l.

(** [String(v)], the conversion of template literals, with the
    TypeError it raises.  An array renders as its members joined by
    commas, [null] and [undefined] members as nothing.  An object
    renders through its method [toString]: the one of
    [Object.prototype], unless a property of that name hides it, and
    then neither that property nor [valueOf] gives a primitive. *)
Fixpoint toText (v : jsval) : result string :=
  match v with
  | JUndefined => Ok "undefined"
  | JNull => Ok "null"
  | JBool true => Ok "true"
  | JBool false => Ok "false"
  | JNum n => Ok (numberText n)
  | JStr s => Ok s
  | JArr l =>
      members <- each (fun x => match x with
                                | JUndefined | JNull => Ok EmptyString
                                | _ => toText x
                                end) l ;;
      Ok (join "," members)
  | JObj l => if owns "toString" l then Raise TypeError else Ok "[object Object]"
  end.

(** The member conversion of [Array.prototype.join]. *)
Definition joinMember (v : jsval) : result string :=
  match v with
  | JUndefined | JNull => Ok EmptyString
  | _ => toText v
  end.

(** The text of [String(v)] where the conversion returns; where it
    throws there is no text, and [toString] is the empty string. *)
Definition toString (v : jsval) : string :=
  match toText v with
  | Ok s => s
  | Raise _ => EmptyString
  end.

(** [typeof v === 'string']. *)
Definition isString (v : jsval) : bool :=
  match v with
  | JStr _ => true
  | _ => false
  end.

(** [Number(v)]: arrays and objects convert through their text. *)
Definition toNumber (v : jsval) : result float :=
  match v with
  | JUndefined => Ok nan
  | JNull => Ok 0%float
  | JBool b => Ok (if b then 1 else 0)%float
  | JNum n => Ok n
  | JStr s => Ok (stringToNumber s)
  | JArr _ | JObj _ => s <- toText v ;; Ok (stringToNumber s)
  end.

(** *** JSON.stringify *)

Definition hexDigit (n : nat) : ascii :=
  nth n (list_ascii_of_string "0123456789abcdef") "0"%char.

(** The escape of one character inside a JSON string literal. *)
Definition escapeChar (c : ascii) : string :=
  let n := nat_of_ascii c in
  if (n =? 34)%nat then "\" ++ dquote
  else if (n =? 92)%nat then "\\"
  else if (n =? 8)%nat then "\b"
  else if (n =? 9)%nat then "\t"
  else if (n =? 10)%nat then "\n"
  else if (n =? 12)%nat then "\f"
  else if (n =? 13)%nat then "\r"
  else if (n <? 32)%nat then
    "\u00" ++ String (hexDigit (n / 16)) (String (hexDigit (n mod 16)) EmptyString)
  else String c EmptyString.

Definition quoteJSON (s : string) : string :=
  dquote ++ String.concat EmptyString (map escapeChar (list_ascii_of_string s)) ++ dquote.

(** [JSON.stringify(v)]; [None] stands for the [undefined] it returns
    on [undefined].  Inside an array [undefined] is written [null],
    inside an object the property is left out; a number that is not
    finite is written [null]. *)
Fixpoint stringify (v : jsval) : option string :=
  match v with
  | JUndefined => None
  | JNull => Some "null"
  | JBool true => Some "true"
  | JBool false => Some "false"
  | JNum n => Some (if is_nan n || is_infinity n then "null" else numberText n)
  | JStr s => Some (quoteJSON s)
  | JArr l =>
      Some ("[" ++ join "," (map (fun x => match stringify x with
                                           | Some s => s
                                           | None => "null"
                                           end) l) ++ "]")
  | JObj l =>
      Some ("{" ++ join ","
              (flat_map (fun p => match stringify (snd p) with
                                  | Some s => [quoteJSON (fst p) ++ ":" ++ s]
                                  | None => []
                                  end) l) ++ "}")
  end.

(** [`${JSON.stringify(v)}`]. *)
Definition stringifyText (v : jsval) : string :=
  match stringify v with
  | Some s => s
  | None => "undefined"
  end.

(** *** Property access *)

Fixpoint lookup (k : string) (l : list (string * jsval)) : jsval :=
  match l with
  | [] => JUndefined
  | (k', v) :: t => if k' =? k then v else lookup k t
  end.

(** [v.k] for a [v] that is neither [null] nor [undefined], and a key
    [k] that is a schema keyword: only objects carry such keys. *)
Definition get (v : jsval) (k : string) : jsval :=
  match v with
  | JObj l => lookup k l
  | _ => JUndefined
  end.

(** [v.k] with the TypeError of reading from [null] or [undefined]. *)
Definition read (v : jsval) (k : string) : result jsval :=
  match v with
  | JUndefined | JNull => Raise TypeError
  | _ => Ok (get v k)
  end.

(** The pairs [(name, obj[name])] a [for (name in obj)] loop goes through:
    the properties of an object, the indices of an array, the character
    positions of a string, nothing for the other values. *)
Fixpoint indexed (i : nat) (l : list jsval) : list (string * jsval) :=
  match l with
  | [] => []
  | v :: t => (decimal (Z.of_nat i), v) :: indexed (S i) t
  end.

Definition forIn (obj : jsval) : list (string * jsval) :=
  match obj with
  | JObj l => l
  | JArr l => indexed 0 l
  | JStr s => indexed 0 (map (fun c => JStr (String c EmptyString)) (list_ascii_of_string s))
  | _ => []
  end.

(** [obj.hasOwnProperty(name)], for a name [for..in] gave.  The method
    is the one of [Object.prototype] unless [obj] has a property of
    that name, which cannot be called. *)
Definition hasOwnProperty (obj : jsval) (name : string) : result bool :=
  match obj with
  | JObj l =>
      if owns "hasOwnProperty" l then Raise TypeError else Ok (owns name l)
  | _ => Ok (owns name (forIn obj))
  end.

(** A parameter default [p = d]: it stands in for [undefined] only. *)
Definition defaultTo (d v : jsval) : jsval :=
  match v with
  | JUndefined => d
  | _ => v
  end.

(** *** Arithmetic *)

(** [v + 1]: concatenation on strings and on what converts to a string,
    addition of doubles on the other values. *)
Definition plusOne (v : jsval) : result jsval :=
  match v with
  | JStr s => Ok (JStr (s ++ "1"))
  | JArr _ | JObj _ => s <- toText v ;; Ok (JStr (s ++ "1"))
  | _ => n <- toNumber v ;; Ok (JNum (n + 1))
  end.

(** [v - 1]: always the subtraction of doubles. *)
Definition minusOne (v : jsval) : result jsval :=
  n <- toNumber v ;; Ok (JNum (n - 1)).

(** [requiredItems.includes(name)]: membership in an array, occurrence
    in a string, a TypeError on the values without that method. *)
Definition includes (requiredItems : jsval) (name : string) : result bool :=
  match requiredItems with
  | JArr l =>
      Ok (existsb (fun v => match v with
                            | JStr s => s =? name
                            | _ => false
                            end) l)
  | JStr s =>
      Ok (match index 0 name s with
          | Some _ => true
          | None => false
          end)
  | _ => Raise TypeError
  end.

End JS.

Import JS.

(** ** lodash *)

Module Lodash.

Fixpoint spaces (n : nat) : string :=
  match n with
  | O => EmptyString
  | S n' => String " " (spaces n')
  end.

(** [ld.padStart(string, length)] as lodash documents it: the string is
    padded with spaces on the left side if it is shorter than [length],
    up to that length. *)
Definition padStart (s : string) (len : nat) : string :=
  if (String.length s <? len)%nat then spaces (len - String.length s) ++ s else s.

End Lodash.

Import Lodash.

(** ** The plugin *)

Module Plugin.

(** *** The descriptor formatter (index.js, lines 70-89) *)

(** Lines 72-74: what [type] gains from the size bounds. *)
Definition sizeSuffix (sizeMin sizeMax : jsval) : result string :=
  if truthy sizeMin || truthy sizeMax then
    lower <- toText (orElse sizeMin (JStr EmptyString)) ;;
    upper <- toText (orElse sizeMax (JStr EmptyString)) ;;
    Ok ("{" ++ lower ++ ".." ++ upper ++ "}")
  else Ok EmptyString.

(** Line 80: the callback handed to [filter], read as the truth value
    [filter] makes of what it returns. *)
Definition keepAllowed (value : jsval) : bool :=
  match value with
  | JStr s => truthy (JStr (quoted s))
  | _ => truthy value
  end.

(** Lines 76-83: what [type] gains from the allowed values.  [filter]
    exists on arrays only. *)
Definition allowedSuffix (allowedValues : jsval) : result string :=
  if truthy allowedValues then
    match allowedValues with
    | JStr s => Ok ("=" ++ quoted s)
    | JArr l =>
        let allowedValuesArr := filter keepAllowed l in
        members <- each joinMember allowedValuesArr ;;
        Ok ("=" ++ quoted (join "," members))
    | _ => Raise TypeError
    end
  else Ok EmptyString.

(** Lines 72-83: [type] as line 88 finds it. *)
Definition typeExpr (type : string) (sizeMin sizeMax allowedValues : jsval)
  : result string :=
  size <- sizeSuffix sizeMin sizeMax ;;
  let type := type ++ size in
  suffix <- allowedSuffix allowedValues ;;
  Ok (type ++ suffix).

(** Lines 85-86: [name] as line 88 finds it. *)
Definition nameExpr (name : string) (isRequired defaultValue : jsval) : string :=
  let name :=
    if truthy defaultValue then name ++ "=" ++ stringifyText defaultValue else name in
  if negb (truthy isRequired) then "[" ++ name ++ "]" else name.

Definition createDocParameter (name type : string)
    (sizeMin sizeMax allowedValues isRequired defaultValue description : jsval)
  : result string :=
  type <- typeExpr type sizeMin sizeMax allowedValues ;;
  let name := nameExpr name isRequired defaultValue in
  description <- toText (orElse description (JStr EmptyString)) ;;
  Ok ("{" ++ type ++ "} " ++ name ++ " " ++ description).

(** *** The walker (index.js, lines 91-159) *)

(** How a call of the walker ends. *)
Inductive completion : Type :=
| Normal
| Thrown (e : exn).

(** How one turn of the [for..in] body ends: by falling through to the
    next property ([break] out of the [switch]), by [return], or by an
    exception. *)
Inductive signal : Type :=
| Next
| Return
| Throw (e : exn).

(** The walker works on the accumulator in place: a call is given the
    accumulator as it stands and leaves it as the call made it, also
    when the call throws. *)
Definition walker : Type :=
  list string -> jsval -> nat -> jsval -> list string * completion.

(** Line 115. *)
Definition effectiveMinimum (item : jsval) : result jsval :=
  if truthy (get item "minimum") then
    if truthy (get item "exclusiveMinimum") then plusOne (get item "minimum")
    else Ok (get item "minimum")
  else Ok JNull.

(** Line 116. *)
Definition effectiveMaximum (item : jsval) : result jsval :=
  if truthy (get item "maximum") then
    if truthy (get item "exclusiveMaximum") then minusOne (get item "maximum")
    else Ok (get item "maximum")
  else Ok JNull.

(** Line 104: the type label of a string. *)
Definition stringLabel (item : jsval) : result string :=
  if truthy (orElse (get item "format") (get item "pattern")) then
    type <- toText (get item "type") ;;
    detail <- toText (orElse (get item "format") (get item "pattern")) ;;
    Ok (type ++ " / " ++ detail)
  else toText (get item "type").

(** [accumulator.push(doc)] for a [doc] whose evaluation may throw,
    ending the turn with [after]. *)
Definition push (accumulator : list string) (doc : result string) (after : signal)
  : list string * signal :=
  match doc with
  | Ok line => ((accumulator ++ [line])%list, after)
  | Raise e => (accumulator, Throw e)
  end.

Section Body.

(** The walker the body calls for the nested levels. *)
Variable recurse : walker.

(** Lines 153-155: [item.items.forEach(value => ...)]; the fourth
    argument of the call is left out. *)
Fixpoint forEach (accumulator : list string) (values : list jsval) (depth : nat)
  : list string * signal :=
  match values with
  | [] => (accumulator, Next)
  | value :: rest =>
      match recurse accumulator value (depth + 1) JUndefined with
      | (accumulator', Normal) => forEach accumulator' rest depth
      | (accumulator', Thrown e) => (accumulator', Throw e)
      end
  end.

(** Lines 95-157: one turn of the loop past its guard, for the property
    [name] whose value is [item]. *)
Definition body (accumulator : list string) (name : string) (item : jsval)
    (depth : nat) (requiredItems : jsval) : list string * signal :=
  let paddedName := padStart name depth in
  match read item "type" with
  | Raise e => (accumulator, Throw e)
  | Ok (JStr type) =>
      if type =? "object" then
        match recurse accumulator (get item "properties") (depth + 1)
                      (get item "required") with
        | (accumulator', Normal) => (accumulator', Next)
        | (accumulator', Thrown e) => (accumulator', Throw e)
        end
      else if type =? "string" then
        push accumulator
          (label <- stringLabel item ;;
           isRequired <- includes requiredItems name ;;
           createDocParameter paddedName label
             (get item "minLength") (get item "maxLength") (get item "enum")
             (JBool isRequired) (get item "default")
             (orElse (get item "title") (get item "description")))
          Next
      else if (type =? "number") || (type =? "integer") then
        push accumulator
          (minimum <- effectiveMinimum item ;;
           maximum <- effectiveMaximum item ;;
           isRequired <- includes requiredItems name ;;
           createDocParameter paddedName type
             minimum maximum (get item "enum")
             (JBool isRequired) (get item "default")
             (orElse (get item "title") (get item "description")))
          Next
      else if type =? "boolean" then
        push accumulator
          (isRequired <- includes requiredItems name ;;
           createDocParameter paddedName type
             JNull JNull JNull
             (JBool isRequired) (get item "default")
             (orElse (get item "title") (get item "description")))
          Next
      else if type =? "array" then
        if negb (truthy (get item "items")) then
          push accumulator
            (isRequired <- includes requiredItems name ;;
             createDocParameter paddedName type
               (get item "minItems") (get item "maxItems") JNull
               (JBool isRequired) (get item "default")
               (orElse (get item "title") (get item "description")))
            Return
        else
          match get item "items" with
          | JArr values => forEach accumulator values depth
          | _ => (accumulator, Throw TypeError)
          end
      else (accumulator, Next)
  | Ok _ => (accumulator, Next)
  end.

(** Lines 92-158: the loop over the properties of [obj], in enumeration
    order, each turn behind the guard of line 93. *)
Fixpoint loop (obj : jsval) (accumulator : list string)
    (properties : list (string * jsval)) (depth : nat) (requiredItems : jsval)
  : list string * completion :=
  match properties with
  | [] => (accumulator, Normal)
  | (name, item) :: rest =>
      match hasOwnProperty obj name with
      | Raise e => (accumulator, Thrown e)
      | Ok false => (accumulator, Normal)
      | Ok true =>
          match body accumulator name item depth requiredItems with
          | (accumulator', Next) => loop obj accumulator' rest depth requiredItems
          | (accumulator', Return) => (accumulator', Normal)
          | (accumulator', Throw e) => (accumulator', Thrown e)
          end
      end
  end.

End Body.

(** The nesting of a value: what bounds the depth of the recursion. *)
Fixpoint height (v : jsval) : nat :=
  match v with
  | JArr l => S (fold_right (fun x m => Nat.max (height x) m) 0 l)
  | JObj l => S (fold_right (fun p m => Nat.max (height (snd p)) m) 0 l)
  | _ => 0
  end.

(** The walker with a bound on the depth of its recursion.  Line 91
    gives [obj] and [requiredItems] their defaults. *)
Fixpoint iterateBounded (fuel : nat) : walker :=
  fun accumulator obj depth requiredItems =>
    match fuel with
    | O => (accumulator, Normal)
    | S fuel' =>
        let obj := defaultTo (JObj []) obj in
        let requiredItems := defaultTo (JArr []) requiredItems in
        loop (iterateBounded fuel') obj accumulator (forIn obj) depth requiredItems
    end.

(** [iterateObjectReqursive]: the recursion goes down the schema, so a
    bound above its nesting is never reached
    (see [iterateBounded_enough]). *)
Definition iterateObjectReqursive : walker :=
  fun accumulator obj depth requiredItems =>
    iterateBounded (S (height obj)) accumulator obj depth requiredItems.

(** *** The entry point (index.js, lines 164-173) *)

Definition unmerged : exn := Error "2DO: merge properties in recursive order".

(** The run of [extractArgumentsFromSchema]: [items] as the run leaves
    it, and how the run ends.  The walker is called with two arguments:
    [depth] and [requiredItems] take their defaults. *)
Definition extractArgumentsRun (schema : jsval) : list string * completion :=
  let items := [] in
  match read schema "allOf" with
  | Raise e => (items, Thrown e)
  | Ok allOf =>
      if truthy allOf then (items, Thrown unmerged)
      else iterateObjectReqursive items (get schema "properties") 0 JUndefined
  end.

(** What the caller of [extractArgumentsFromSchema] gets: [items] when
    the run returns, the exception when it throws. *)
Definition extractArgumentsFromSchema (schema : jsval) : result (list string) :=
  match extractArgumentsRun schema with
  | (items, Normal) => Ok items
  | (_, Thrown e) => Raise e
  end.

End Plugin.

Import Plugin.

(** ** The walker on a store of objects *)

Module Store.

(** Objects live in a store and are known by their address: a variable
    or a property holds a primitive value or the address of an object,
    and two holders of one address share the object, so what one writes
    the other reads.  Arrays and plain objects are the objects of a
    dereferenced schema; the one write of the plugin's core is the
    [push] of line 102 and its likes. *)
Definition address : Type := nat.

Inductive value : Type :=
| VUndefined
| VNull
| VBool (b : bool)
| VNum (n : float)
| VStr (s : string)
| VRef (a : address).

Inductive object : Type :=
| OArr (members : list value)
| OObj (properties : list (string * value)).

Definition store : Type := list object.

(** [f] on every member, when it answers on every one. *)
Definition all {A B : Type} (f : A -> option B) : list A -> option (list B) :=
  fix go (l : list A) : option (list B) :=
    match l with
    | [] => Some []
    | a :: t =>
        match f a, go t with
        | Some b, Some bs => Some (b :: bs)
        | _, _ => None
        end
    end.

(** The value [v] with all it refers to in the store [h], as a tree:
    what an operation that only reads finds.  There is none when [v]
    leads out of the store, or deeper than [fuel] (as in a cycle). *)
Fixpoint tree (fuel : nat) (h : store) (v : value) : option jsval :=
  match v with
  | VUndefined => Some JUndefined
  | VNull => Some JNull
  | VBool b => Some (JBool b)
  | VNum n => Some (JNum n)
  | VStr s => Some (JStr s)
  | VRef a =>
      match fuel with
      | O => None
      | S fuel' =>
          match nth_error h a with
          | Some (OArr members) => option_map JArr (all (tree fuel' h) members)
          | Some (OObj properties) =>
              option_map JObj
                (all (fun p => option_map (pair (fst p)) (tree fuel' h (snd p)))
                     properties)
          | None => None
          end
      end
  end.

(** [ToBoolean]: every object is truthy. *)
Definition truthy (v : value) : bool :=
  match v with
  | VUndefined | VNull => false
  | VBool b => b
  | VNum n => negb ((n =? 0)%float || is_nan n)
  | VStr s => negb (s =? EmptyString)
  | VRef _ => true
  end.

Fixpoint lookup (k : string) (l : list (string * value)) : value :=
  match l with
  | [] => VUndefined
  | (k', v) :: t => if k' =? k then v else lookup k t
  end.

(** [v.k] for a schema keyword [k], and with the TypeError of reading
    from [null] or [undefined]. *)
Definition get (h : store) (v : value) (k : string) : value :=
  match v with
  | VRef a =>
      match nth_error h a with
      | Some (OObj properties) => lookup k properties
      | _ => VUndefined
      end
  | _ => VUndefined
  end.

Definition read (h : store) (v : value) (k : string) : result value :=
  match v with
  | VUndefined | VNull => Raise TypeError
  | _ => Ok (get h v k)
  end.

(** The members of what is indexed by position: an array, and a string
    with its characters. *)
Definition sequence (h : store) (obj : value) : option (list value) :=
  match obj with
  | VRef a =>
      match nth_error h a with
      | Some (OArr members) => Some members
      | _ => None
      end
  | VStr s => Some (map (fun c => VStr (String c EmptyString)) (list_ascii_of_string s))
  | _ => None
  end.

(** The names [for (name in obj)] enumerates, each with its position;
    they are taken when the loop starts. *)
Definition names (h : store) (obj : value) : list (nat * string) :=
  match obj with
  | VRef a =>
      match nth_error h a with
      | Some (OObj properties) =>
          combine (seq 0 (List.length properties)) (map fst properties)
      | Some (OArr members) =>
          map (fun i => (i, decimal (Z.of_nat i))) (seq 0 (List.length members))
      | None => []
      end
  | _ =>
      match sequence h obj with
      | Some members =>
          map (fun i => (i, decimal (Z.of_nat i))) (seq 0 (List.length members))
      | None => []
      end
  end.

(** [obj[name]] for the name at position [i], read when its turn
    comes. *)
Definition element (h : store) (obj : value) (i : nat) (name : string) : value :=
  match sequence h obj with
  | Some members => nth i members VUndefined
  | None => get h obj name
  end.

(** [obj.hasOwnProperty(name)], for a name [for..in] gave. *)
Definition hasOwnProperty (h : store) (obj : value) (name : string) : result bool :=
  match obj with
  | VRef a =>
      match nth_error h a with
      | Some (OObj properties) =>
          if existsb (fun p => fst p =? "hasOwnProperty") properties
          then Raise TypeError
          else Ok (existsb (fun p => fst p =? name) properties)
      | _ => Ok (existsb (fun p => snd p =? name) (names h obj))
      end
  | _ => Ok (existsb (fun p => snd p =? name) (names h obj))
  end.

(** The store with the object [o] at the address [a]. *)
Definition put (a : address) (o : object) (h : store) : store :=
  (firstn a h ++ o :: skipn (S a) h)%list.

(** [accumulator.push(line)]: the array at that address gains a member;
    nothing else has a method [push]. *)
Definition push (h : store) (accumulator : value) (line : string) : result store :=
  match accumulator with
  | VRef a =>
      match nth_error h a with
      | Some (OArr members) => Ok (put a (OArr (members ++ [VStr line])%list) h)
      | _ => Raise TypeError
      end
  | _ => Raise TypeError
  end.

Fixpoint pushAll (h : store) (accumulator : value) (lines : list string)
  : result store :=
  match lines with
  | [] => Ok h
  | line :: rest => h' <- push h accumulator line ;; pushAll h' accumulator rest
  end.

(** [type === t]. *)
Definition isType (t : string) (type : value) : bool :=
  match type with
  | VStr s => s =? t
  | _ => false
  end.

(** A walker that is never called. *)
Definition idle : walker := fun accumulator _ _ _ => (accumulator, Normal).

Section Body.

(** The walker the body calls for the nested levels, and the bound on
    the trees it reads. *)
Variable recurse :
  store -> value -> value -> nat -> value -> option (store * completion).
Variable fuel : nat.

(** Lines 153-155: [forEach] goes through the positions the array has
    when it starts, and reads each member when its turn comes. *)
Fixpoint forEach (h : store) (accumulator : value) (items : address)
    (positions : list nat) (depth : nat) : option (store * signal) :=
  match positions with
  | [] => Some (h, Next)
  | i :: rest =>
      match recurse h accumulator (element h (VRef items) i EmptyString)
                    (depth + 1) VUndefined with
      | Some (h', Normal) => forEach h' accumulator items rest depth
      | Some (h', Thrown e) => Some (h', Throw e)
      | None => None
      end
  end.

(** Lines 95-157.  The turns that call the walker again hand it what
    the properties hold, addresses as they are.  Every other turn only
    reads the item and the required names, and pushes what the body of
    [Plugin] yields on the trees the store holds for them. *)
Definition body (h : store) (accumulator : value) (name : string) (item : value)
    (depth : nat) (requiredItems : value) : option (store * signal) :=
  match read h item "type" with
  | Raise e => Some (h, Throw e)
  | Ok type =>
      if isType "object" type then
        match recurse h accumulator (get h item "properties") (depth + 1)
                      (get h item "required") with
        | Some (h', Normal) => Some (h', Next)
        | Some (h', Thrown e) => Some (h', Throw e)
        | None => None
        end
      else if isType "array" type && truthy (get h item "items") then
        match get h item "items" with
        | VRef a =>
            match nth_error h a with
            | Some (OArr members) =>
                forEach h accumulator a (seq 0 (List.length members)) depth
            | _ => Some (h, Throw TypeError)
            end
        | _ => Some (h, Throw TypeError)
        end
      else
        match tree fuel h item, tree fuel h requiredItems with
        | Some itemTree, Some required =>
            let '(lines, after) :=
              Plugin.body idle [] name itemTree depth (defaultTo (JArr []) required) in
            match pushAll h accumulator lines with
            | Ok h' => Some (h', after)
            | Raise e => Some (h, Throw e)
            end
        | _, _ => None
        end
  end.

(** Lines 92-158. *)
Fixpoint loop (h : store) (accumulator obj : value) (todo : list (nat * string))
    (depth : nat) (requiredItems : value) : option (store * completion) :=
  match todo with
  | [] => Some (h, Normal)
  | (i, name) :: rest =>
      match hasOwnProperty h obj name with
      | Raise e => Some (h, Thrown e)
      | Ok false => Some (h, Normal)
      | Ok true =>
          match body h accumulator name (element h obj i name) depth requiredItems with
          | Some (h', Next) => loop h' accumulator obj rest depth requiredItems
          | Some (h', Return) => Some (h', Normal)
          | Some (h', Throw e) => Some (h', Thrown e)
          | None => None
          end
      end
  end.

End Body.

(** [iterateObjectReqursive] on the store, with a bound on the depth of
    the recursion: the store as the call leaves it and how the call
    ends, when the bound is not reached.  The objects the defaults of
    line 91 create are known to the call alone and are not in the store:
    an [obj] left out has no property, a [requiredItems] left out holds
    no name. *)
Fixpoint iterateObjectReqursive (fuel : nat) (h : store)
    (accumulator obj : value) (depth : nat) (requiredItems : value)
  : option (store * completion) :=
  match fuel with
  | O => None
  | S fuel' =>
      loop (iterateObjectReqursive fuel') fuel' h accumulator obj (names h obj)
           depth requiredItems
  end.

(** Lines 164-173: [items] is a new array, at the first free address;
    the call returns it or throws. *)
Definition extractArgumentsFromSchema (fuel : nat) (h : store) (schema : value)
  : option (store * result value) :=
  let items := VRef (List.length h) in
  let h := (h ++ [OArr []])%list in
  match read h schema "allOf" with
  | Raise e => Some (h, Raise e)
  | Ok allOf =>
      if truthy allOf then Some (h, Raise unmerged)
      else
        match iterateObjectReqursive fuel h items (get h schema "properties") 0
                                     VUndefined with
        | Some (h', Normal) => Some (h', Ok items)
        | Some (h', Thrown e) => Some (h', Raise e)
        | None => None
        end
  end.

(** A value that refers to an object of the first [n] of the store, if
    to any; a store whose objects refer to its objects only, and have
    each key once. *)
Definition within (n : nat) (v : value) : Prop :=
  match v with
  | VRef a => a < n
  | _ => True
  end.

Definition sound (n : nat) (o : object) : Prop :=
  match o with
  | OArr members => Forall (within n) members
  | OObj properties =>
      Forall (fun p => within n (snd p)) properties /\ NoDup (map fst properties)
  end.

Definition closed (h : store) : Prop := Forall (sound (List.length h)) h.

(** What the caller of [extractArgumentsFromSchema] gets from a run of
    the walker that ended in [c], [items] being at the address [a]. *)
Definition answer (a : address) (c : completion) : result value :=
  match c with
  | Normal => Ok (VRef a)
  | Thrown e => Raise e
  end.

End Store.

(** ** Regular expressions *)

Module Regex.

(** The fragment of the regular expressions of JavaScript the plugin
    writes: literal characters, [.], the greedy [+], sequence and
    capturing groups.  [+] is applied to expressions that consume a
    character, and no group stands under a [+]. *)
Inductive regex : Type :=
| Chr (c : ascii)
| Any
| Plus (r : regex)
| Seq (r1 r2 : regex)
| Group (r : regex).

(** The line terminators among the one-unit characters: [.] matches
    every character but these. *)
Definition lineTerminator (c : ascii) : bool :=
  (nat_of_ascii c =? 10)%nat || (nat_of_ascii c =? 13)%nat.

(** What [s] lost on the way to its suffix [s']. *)
Definition consumed (s s' : string) : string :=
  substring 0 (String.length s - String.length s') s.

(** Backtracking matching: [run r s caps k] matches [r] at the head of
    [s] and hands what is left, with the groups closed so far, to the
    continuation [k]; where [k] fails, the next way of matching [r] is
    tried, the longest repetition first. *)
Fixpoint run {R : Type} (r : regex) (s : string) (caps : list string)
    (k : string -> list string -> option R) : option R :=
  match r with
  | Chr c =>
      match s with
      | String c' s' => if Ascii.eqb c c' then k s' caps else None
      | EmptyString => None
      end
  | Any =>
      match s with
      | String c' s' => if lineTerminator c' then None else k s' caps
      | EmptyString => None
      end
  | Seq r1 r2 => run r1 s caps (fun s' caps' => run r2 s' caps' k)
  | Group r' => run r' s caps (fun s' caps' => k s' (caps' ++ [consumed s s'])%list)
  | Plus r' =>
      (fix more (fuel : nat) (s : string) (caps : list string) : option R :=
         match fuel with
         | O => None
         | S fuel' =>
             run r' s caps
                 (fun s' caps' =>
                    match more fuel' s' caps' with
                    | Some found => Some found
                    | None => k s' caps'
                    end)
         end) (String.length s) s caps
  end.

(** [r.exec(s)]: the groups of the leftmost match, [None] for [null]. *)
Fixpoint exec (r : regex) (s : string) : option (list string) :=
  match run r s [] (fun _ caps => Some caps) with
  | Some caps => Some caps
  | None =>
      match s with
      | String _ s' => exec r s'
      | EmptyString => None
      end
  end.

End Regex.

Import Regex.

(** ** The host: node, the loaders and the parser hook *)

Module Host.

(** What the calls into node and the libraries throw: an error of the
    engine or of the plugin, or one that carries a [code], as the
    errors of the file system do. *)
Inductive raised : Type :=
| Plain (e : exn)
| System (code message : string).

Inductive outcome (A : Type) : Type :=
| Returned (a : A)
| Failed (e : raised).
Arguments Returned {A} a.
Arguments Failed {A} e.

(** How a call of the hook ends. *)
Inductive ending : Type :=
| Done
| Broke (e : raised).

(** The world outside the plugin, as far as it reads it: the path
    module, the file system as it stands during one call, the loaders
    of YAML and of modules, the dereferencing library and the change of
    the working directory.  [dereference cwd source] gives what the
    callback of line 15 receives ([err], [data]) when the process is in
    [cwd], and the source as the library leaves it. *)
Record node : Type := {
  resolve : string -> string;
  extname : string -> string;
  dirname : string -> string;
  existsSync : string -> bool;
  readYaml : string -> outcome jsval;
  requireFile : string -> outcome jsval;
  dereference : string -> jsval -> option raised * jsval * jsval;
  chdir : string -> option raised
}.

(** Lines 8 and 10. *)
Definition TYPE_NAME : string := "schema".
Definition shouldDescribeElements : list string := ["apiParam"; "apiSuccess"].

(** Lines 13-23: the call returns once the callback has run, with its
    [data], or throws its [err]. *)
Definition loadSchemaReferences (env : node) (cwd : string) (sourceSchema : jsval)
  : outcome jsval * jsval :=
  let '(error, schema, sourceAfter) := dereference env cwd sourceSchema in
  match error with
  | Some err => (Failed err, sourceAfter)
  | None => (Returned schema, sourceAfter)
  end.

(** [err.code !== 'ENOENT'], negated. *)
Definition isENOENT (err : raised) : bool :=
  match err with
  | System code _ => code =? "ENOENT"
  | Plain _ => false
  end.

(** Lines 35-46: the source by the extension of its path; [None] is the
    [default] case. *)
Definition loadSource (env : node) (realPath : string) : option (outcome jsval) :=
  let ext := extname env realPath in
  if (ext =? ".yaml") || (ext =? ".yml") then Some (readYaml env realPath)
  else if (ext =? ".json") || (ext =? ".js") then Some (requireFile env realPath)
  else None.

(** Lines 50-62: the references resolved from the working directory,
    and from the directory of the schema when that fails with ENOENT. *)
Definition resolveReferences (env : node) (cwd realPath : string)
    (sourceSchema : jsval) : string * outcome jsval :=
  match loadSchemaReferences env cwd sourceSchema with
  | (Returned schema, _) => (cwd, Returned schema)
  | (Failed err, sourceAfter) =>
      if negb (isENOENT err) then (cwd, Failed err)
      else
        let curDir := cwd in
        let schemaDir := dirname env realPath in
        match chdir env schemaDir with
        | Some e => (cwd, Failed e)
        | None =>
            let second := fst (loadSchemaReferences env schemaDir sourceAfter) in
            match chdir env curDir with
            | Some e => (schemaDir, Failed e)
            | None => (curDir, second)
            end
        end
  end.

(** Lines 29-67.  The working directory is the state the call works
    on: the result is the directory the call leaves the process in, and
    what the call returns or throws. *)
Definition safeLoadSchema (env : node) (cwd schemaPath : string)
  : string * outcome jsval :=
  let realPath := resolve env (trim schemaPath) in
  if negb (existsSync env realPath) then
    (cwd, Failed (Plain (Error
       ("unable to load JSON schema - file not exists: " ++ realPath))))
  else
    match loadSource env realPath with
    | None =>
        (cwd, Failed (Plain (Error
           ("unable to load JSON schema - file type not supported: " ++ realPath))))
    | Some (Failed e) => (cwd, Failed e)
    | Some (Returned sourceSchema) =>
        match resolveReferences env cwd realPath sourceSchema with
        | (cwd', Failed e) => (cwd', Failed e)
        | (cwd', Returned schema) =>
            match read schema "type" with
            | Raise e => (cwd', Failed (Plain e))
            | Ok (JStr type) =>
                if type =? "object" then (cwd', Returned schema)
                else (cwd', Failed (Plain (Error "expecting object on top of schema")))
            | Ok _ =>
                (cwd', Failed (Plain (Error "expecting object on top of schema")))
            end
        end
    end.

(** Line 187: [/{(.+)}(.+)/]. *)
Definition typeAndPath : regex :=
  Seq (Chr "{") (Seq (Group (Plus Any)) (Seq (Chr "}") (Group (Plus Any)))).

(** Line 190: [/\((.+)\).+{/]. *)
Definition groupBefore : regex :=
  Seq (Chr "(") (Seq (Group (Plus Any)) (Seq (Chr ")") (Seq (Plus Any) (Chr "{")))).

(** [obj.key = value]: the property keeps its place when it exists and
    comes last when it does not. *)
Fixpoint setProperty (key : string) (value : jsval) (l : list (string * jsval))
  : list (string * jsval) :=
  match l with
  | [] => [(key, value)]
  | (k, v) :: t => if k =? key then (k, value) :: t else (k, v) :: setProperty key value t
  end.

(** [Object.assign({}, element)]: a new object with the own enumerable
    properties of [element]. *)
Definition assign (element : jsval) : list (string * jsval) := forIn element.

(** Lines 196-197: the element pushed for one descriptor. *)
Definition clonedElement (element groupName : jsval) (content : string) : jsval :=
  JObj (setProperty "content"
          (JStr (if truthy groupName
                 then "(" ++ toString groupName ++ ") " ++ content
                 else content))
          (assign element)).
(** Lines 184-209: the hook, on the array [elements] of the host and
    the working directory.  [exec] converts [content] to text.  What
    line 199 prints is left out. *)
Definition parserSchemaElements (env : node) (elements : list jsval) (cwd : string)
    (element : jsval) : list jsval * string * ending :=
  match read element "sourceName" with
  | Raise e => (elements, cwd, Broke (Plain e))
  | Ok sourceName =>
      let content := get element "content" in
      if existsb (fun known => match sourceName with
                               | JStr s => known =? s
                               | _ => false
                               end) shouldDescribeElements then
        match toText content with
        | Raise e => (elements, cwd, Broke (Plain e))
        | Ok text =>
            let elementParts := exec typeAndPath text in
            match elementParts with
            | Some [type; schemaPath] =>
                if negb (type =? TYPE_NAME) then (elements, cwd, Done)
                else
                  let regParts := exec groupBefore text in
                  let groupName := match regParts with
                                   | Some (group :: _) => JStr group
                                   | _ => JNull
                                   end in
                  let elements := removelast elements in
                  match safeLoadSchema env cwd schemaPath with
                  | (cwd', Failed e) => (elements, cwd', Broke e)
                  | (cwd', Returned schema) =>
                      match extractArgumentsFromSchema schema with
                      | Raise e => (elements, cwd', Broke (Plain e))
                      | Ok additionalItems =>
                          ((elements
                              ++ map (clonedElement element groupName) additionalItems)%list,
                           cwd', Done)
                      end
                  end
            | _ => (elements, cwd, Done)
            end
        end
      else (elements, cwd, Done)
  end.

End Host.

Import Host.

(** The pushed elements are those of a tag whose content has the
    prefix [prefix] before each descriptor. *)
Definition clonesOf (element : jsval) (prefix : string) (docs : list string)
    (added : list jsval) : Prop :=
  Forall2 (fun doc pushed =>
             get pushed "content" = JStr (prefix ++ doc)
             /\ forall key, key <> "content" -> get pushed key = get element key)
          docs added.

(** What the hook puts before each descriptor of a tag with the content
    [content]: the group in parentheses when line 190 finds one. *)
Definition groupPrefix (content : string) : string :=
  match exec groupBefore content with
  | Some (group :: _) =>
      if group =? EmptyString then EmptyString else "(" ++ group ++ ") "
  | _ => EmptyString
  end.

(** What [.+] amounts to before a continuation [k]: the longest run of
    characters of one line after which [k] succeeds. *)
Fixpoint greedy {R : Type} (s : string) (caps : list string)
    (k : string -> list string -> option R) : option R :=
  match s with
  | EmptyString => None
  | String c s' =>
      if lineTerminator c then None
      else match greedy s' caps k with
           | Some found => Some found
           | None => k s' caps
           end
  end.

(** A string without the character [c]; a string of one line. *)
Fixpoint lacks (c : ascii) (s : string) : bool :=
  match s with
  | EmptyString => true
  | String c' s' => negb (Ascii.eqb c c') && lacks c s'
  end.

Fixpoint oneLine (s : string) : bool :=
  match s with
  | EmptyString => true
  | String c s' => negb (lineTerminator c) && oneLine s'
  end.

(** A host with one schema file, in YAML, with no reference to resolve. *)
Definition oneFile (schema : jsval) : node :=
  {| resolve := fun p => "/plugin/" ++ p;
     extname := fun _ => ".yml";
     dirname := fun _ => "/plugin/schemas";
     existsSync := fun p => p =? "/plugin/schemas/user.yml";
     readYaml := fun _ => Returned schema;
     requireFile := fun _ => Failed (System "MODULE_NOT_FOUND" "no module");
     dereference := fun _ source => (None, source, source);
     chdir := fun _ => None |}.

(** A host whose schema refers to a file found from the directory of
    the schema only. *)
Definition relativeReference (schema : jsval) : node :=
  {| resolve := fun p => "/plugin/" ++ p;
     extname := fun _ => ".json";
     dirname := fun _ => "/plugin/schemas";
     existsSync := fun _ => true;
     readYaml := fun _ => Failed (System "EISDIR" "not a file");
     requireFile := fun _ => Returned (JObj [("$ref", JStr "address.json")]);
     dereference := fun cwd source =>
       if cwd =? "/plugin/schemas" then (None, schema, schema)
       else (Some (System "ENOENT" "no such file"), JUndefined, source);
     chdir := fun _ => None |}.
(** ** Notions of the statements *)

(** A walker that leaves what the accumulator held in place, and whose
    additions and ending do not depend on it. *)
Definition appends (w : walker) : Prop :=
  forall acc v d r,
    w acc v d r = ((acc ++ fst (w [] v d r))%list, snd (w [] v d r)).

(** A mapping none of whose properties is named [hasOwnProperty]: the
    guard of line 93 then calls the method of [Object.prototype]. *)
Definition plain (properties : list (string * jsval)) : Prop :=
  owns "hasOwnProperty" properties = false.

(** The turns of the loop one after the other, as they go when the
    guard of line 93 lets each of them through. *)
Fixpoint turns (w : walker) (accumulator : list string)
    (properties : list (string * jsval)) (depth : nat) (requiredItems : jsval)
  : list string * completion :=
  match properties with
  | [] => (accumulator, Normal)
  | (name, item) :: rest =>
      match body w accumulator name item depth requiredItems with
      | (accumulator', Next) => turns w accumulator' rest depth requiredItems
      | (accumulator', Return) => (accumulator', Normal)
      | (accumulator', Throw e) => (accumulator', Thrown e)
      end
  end.

(** The keywords [type] can hold for the walker to act. *)
Definition walkedTypes : list string :=
  ["object"; "string"; "number"; "integer"; "boolean"; "array"].

(** A bound as the size suffix writes it: nothing for a falsy one. *)
Definition bound (v : jsval) : string :=
  if truthy v then toString v else EmptyString.

(** The size suffix of the specification: none when neither bound is
    truthy, else both bounds between braces around two dots. *)
Definition sizeRange (lower upper : jsval) : string :=
  if truthy lower || truthy upper
  then "{" ++ bound lower ++ ".." ++ bound upper ++ "}"
  else EmptyString.

(** An [array] property without [items]: the case that ends in the
    [return] of line 142. *)
Definition arrayLeaf (item : jsval) : bool :=
  match get item "type" with
  | JStr type => (type =? "array") && negb (truthy (get item "items"))
  | _ => false
  end.

(** The types a descriptor is made for. *)
Definition leafTypes : list string :=
  ["string"; "number"; "integer"; "boolean"; "array"].

(** The types of the properties that always end their turn in [break]
    after one [push]. *)
Definition scalarTypes : list string :=
  ["string"; "number"; "integer"; "boolean"].

Definition scalar (item : jsval) : Prop :=
  exists type, In type scalarTypes /\ get item "type" = JStr type.

(** A leaf node of the type [type]: a scalar, or an [array] without
    [items]. *)
Definition leaf (item : jsval) (type : string) : Prop :=
  get item "type" = JStr type
  /\ (In type scalarTypes \/ (type = "array" /\ truthy (get item "items") = false)).

(** What the specification has the walker hand to the formatter for a
    leaf, by its type: the type label, the two size bounds and the
    allowed values. *)
Definition labelOf (type : string) (item : jsval) : result string :=
  if type =? "string" then stringLabel item else Ok type.

Definition boundsOf (type : string) (item : jsval) : result (jsval * jsval) :=
  if type =? "string" then Ok (get item "minLength", get item "maxLength")
  else if (type =? "number") || (type =? "integer") then
    minimum <- effectiveMinimum item ;;
    maximum <- effectiveMaximum item ;;
    Ok (minimum, maximum)
  else if type =? "array" then Ok (get item "minItems", get item "maxItems")
  else Ok (JNull, JNull).

Definition allowedOf (type : string) (item : jsval) : jsval :=
  if (type =? "string") || (type =? "number") || (type =? "integer")
  then get item "enum"
  else JNull.

(** The description the walker hands to the formatter, as line 88
    writes it: the title, else the description, else nothing. *)
Definition describedAs (item : jsval) : string :=
  toString (orElse (orElse (get item "title") (get item "description"))
                   (JStr EmptyString)).

(** The descriptor [doc] is the one of the property [p], visited at
    [depth] under the list [req] of required names. *)
Definition describes (depth : nat) (req : jsval) (p : string * jsval) (doc : string)
  : Prop :=
  exists type isRequired,
    includes req (fst p) = Ok isRequired
    /\ doc = "{" ++ type ++ "} "
               ++ nameExpr (padStart (fst p) depth) (JBool isRequired)
                           (get (snd p) "default")
               ++ " " ++ describedAs (snd p).

(** The name of the property [p] as its descriptor writes it at
    [depth]: with its default when that is truthy, and in brackets
    unless [required]. *)
Definition nameSegment (depth : nat) (required : bool) (p : string * jsval) : string :=
  let named :=
    if truthy (get (snd p) "default")
    then padStart (fst p) depth ++ "=" ++ stringifyText (get (snd p) "default")
    else padStart (fst p) depth in
  if required then named else "[" ++ named ++ "]".

(** The name [name] is in the list of required names. *)
Definition listed (name : string) (required : list jsval) : bool :=
  existsb (fun v => match v with
                    | JStr s => s =? name
                    | _ => false
                    end) required.

(** Where the walker goes: the properties of the mapping it is given,
    the properties of their [properties] when they are objects, and the
    properties of the members of their [items] when they are arrays. *)
Inductive reaches : jsval -> string -> jsval -> Prop :=
| reaches_property (obj : jsval) (name : string) (item : jsval) :
    In (name, item) (forIn obj) -> reaches obj name item
| reaches_nested (obj : jsval) (parent : string) (item : jsval)
    (name : string) (node : jsval) :
    In (parent, item) (forIn obj) ->
    get item "type" = JStr "object" ->
    reaches (get item "properties") name node ->
    reaches obj name node
| reaches_member (obj : jsval) (parent : string) (item : jsval)
    (values : list jsval) (value : jsval) (name : string) (node : jsval) :
    In (parent, item) (forIn obj) ->
    get item "type" = JStr "array" ->
    get item "items" = JArr values ->
    In value values ->
    reaches value name node ->
    reaches obj name node.

(** A descriptor of a leaf the walker reaches in [obj]: it opens with a
    brace and the type of the leaf, and has after the type expression
    the name of the leaf, padded, with its default and in brackets or
    not, and its description. *)
Definition typed (obj : jsval) (doc : string) : Prop :=
  exists name item type depth required rest,
    reaches obj name item
    /\ leaf item type
    /\ doc = "{" ++ type ++ rest ++ "} "
                 ++ nameExpr (padStart name depth) (JBool required)
                             (get item "default")
                 ++ " " ++ describedAs item.

(** A walker that leaves what the accumulator held in place and adds
    descriptors of leaves it reaches in what it is given. *)
Definition adds (w : walker) : Prop :=
  forall acc v d r,
    exists new, fst (w acc v d r) = (acc ++ new)%list /\ Forall (typed v) new.

(** What the formatter converts to text converts: each size bound that
    is written, each member of the allowed values that [filter] keeps,
    and the description. *)
Definition convertible (v : jsval) : bool :=
  match toText v with
  | Ok _ => true
  | Raise _ => false
  end.

Definition renders (sizeMin sizeMax allowedValues description : jsval) : bool :=
  (negb (truthy sizeMin || truthy sizeMax)
   || (convertible (orElse sizeMin (JStr EmptyString))
       && convertible (orElse sizeMax (JStr EmptyString))))
  && (negb (truthy allowedValues)
      || match allowedValues with
         | JStr _ => true
         | JArr members => forallb convertible (filter keepAllowed members)
         | _ => false
         end)
  && convertible (orElse description (JStr EmptyString)).

(** ** Notions of the store *)

(** The store [h0] followed by the array of the descriptors: the store
    of a walk whose accumulator was made after the objects of the
    schema. *)
Definition extended (h0 : Store.store) (lines : list Store.value) : Store.store :=
  (h0 ++ [Store.OArr lines])%list.

(** With the bound [g] the walker on the store does to the accumulator
    and ends as the walker on trees does, on every value of [h0] and
    its tree, and leaves the objects of [h0] as they are. *)
Definition simulates (h0 : Store.store) (g : nat) : Prop :=
  forall lines obj req depth t r bound,
    bound < g ->
    Store.within (List.length h0) obj ->
    Store.within (List.length h0) req ->
    Store.tree bound h0 obj = Some t ->
    Store.tree bound h0 req = Some r ->
    Store.iterateObjectReqursive g (extended h0 lines)
      (Store.VRef (List.length h0)) obj depth req
    = Some (extended h0 (lines ++ map Store.VStr
                                    (fst (iterateObjectReqursive [] t depth r)))%list,
            snd (iterateObjectReqursive [] t depth r)).

(** The name at a position of the loop on the store and the property
    of the loop on trees are one: the same name, the same answer of the
    guard, and the tree of what the store holds under the name. *)
Definition paired (h0 : Store.store) (g : nat) (obj : Store.value) (t : jsval)
    (p : nat * string) (q : string * jsval) : Prop :=
  snd p = fst q
  /\ forall lines,
       Store.hasOwnProperty (extended h0 lines) obj (snd p) = hasOwnProperty t (fst q)
       /\ Store.within (List.length h0)
                       (Store.element (extended h0 lines) obj (fst p) (snd p))
       /\ Store.tree g h0 (Store.element (extended h0 lines) obj (fst p) (snd p))
          = Some (snd q).

(** ** Schemas the statements are tried on *)

(** A schema with a nested object, an array of mappings and leaves. *)
Definition sampleProperties : jsval :=
  JObj [("id", JObj [("type", JStr "integer"); ("minimum", JNum 1)]);
        ("owner", JObj [("type", JStr "object");
                        ("properties",
                         JObj [("name", JObj [("type", JStr "string");
                                              ("maxLength", JNum 40)])]);
                        ("required", JArr [JStr "name"])]);
        ("tags", JObj [("type", JStr "array");
                       ("items", JArr [JObj [("label", JObj [("type", JStr "string")])]])])].

(** A number strictly between 5 and 10. *)
Definition between5and10 : jsval :=
  JObj [("type", JStr "integer");
        ("minimum", JNum 5); ("exclusiveMinimum", JBool true);
        ("maximum", JNum 10); ("exclusiveMaximum", JBool true)].

(** A store with a schema at the address 0: an integer and a nested
    object with a required string. *)
Definition sampleStore : Store.store :=
  [Store.OObj [("type", Store.VStr "object"); ("properties", Store.VRef 1)];
   Store.OObj [("id", Store.VRef 2); ("owner", Store.VRef 3)];
   Store.OObj [("type", Store.VStr "integer"); ("minimum", Store.VNum 1)];
   Store.OObj [("type", Store.VStr "object"); ("properties", Store.VRef 4);
               ("required", Store.VRef 5)];
   Store.OObj [("name", Store.VRef 6)];
   Store.OArr [Store.VStr "name"];
   Store.OObj [("type", Store.VStr "string")]]%list.

Definition sampleSchema : jsval :=
  JObj [("type", JStr "object");
        ("properties",
         JObj [("id", JObj [("type", JStr "integer"); ("minimum", JNum 1)]);
               ("owner",
                JObj [("type", JStr "object");
                      ("properties", JObj [("name", JObj [("type", JStr "string")])]);
                      ("required", JArr [JStr "name"])])])].

Definition sampleLines : list Store.value :=
  [Store.VStr "{integer{1..}} [id] "; Store.VStr "{string} name "]%list.

(** A store whose mapping at the address 0 holds, under [list], the
    array at the address 2. *)
Definition sharedStore : Store.store :=
  [Store.OObj [("a", Store.VRef 1); ("list", Store.VRef 2)];
   Store.OObj [("type", Store.VStr "string")];
   Store.OArr []]%list.

(** ** The embedding of the loop header and of the formatter's filter *)

(** The loop goes through the pairs of [forIn]; on an object, whose keys
    are distinct, these are the names [for..in] enumerates, each with
    the value [obj[name]] that line 96 reads. *)
Lemma forIn_reads_own (l : list (string * jsval)) :
  NoDup (map fst l) ->
  map (fun name => (name, get (JObj l) name)) (map fst l) = forIn (JObj l).
Proof.
  simpl. induction l as [|[k v] t IH]; simpl; intros Hnodup.
  - reflexivity.
  - inversion Hnodup as [|k' ks Hnotin Hrest]; subst.
    rewrite String.eqb_refl. f_equal.
    rewrite <- (IH Hrest) at 2.
    rewrite !map_map. apply map_ext_in. intros [k' v'] Hin. simpl.
    destruct (String.eqb_spec k k') as [->|_]; [|reflexivity].
    exfalso. apply Hnotin. apply in_map_iff. exists (k', v'). auto.
Qed.

(** The guard of line 93 asks about names the object owns. *)
Lemma owns_property (name : string) (item : jsval) (l : list (string * jsval)) :
  In (name, item) l -> owns name l = true.
Proof.
  intros Hin. apply existsb_exists. exists (name, item).
  split; [exact Hin | apply String.eqb_refl].
Qed.

Lemma owns_app (key : string) (a b : list (string * jsval)) :
  owns key (a ++ b) = owns key a || owns key b.
Proof. apply existsb_app. Qed.

Lemma owns_indexed (l : list jsval) (i : nat) (name : string) (item : jsval) :
  In (name, item) (indexed i l) -> owns name (indexed i l) = true.
Proof. apply owns_property. Qed.

(** [toText] joins the members of an array as [join] converts them. *)
Lemma toText_array (l : list jsval) :
  toText (JArr l) = (members <- each joinMember l ;; Ok (join "," members)).
Proof. reflexivity. Qed.

Lemma toString_text (v : jsval) (s : string) : toText v = Ok s -> toString v = s.
Proof. unfold toString. intros ->. reflexivity. Qed.

(** [filter] keeps every string, also the empty one, and of the other
    values the truthy ones. *)
Lemma keepAllowed_spec (value : jsval) :
  keepAllowed value = isString value || truthy value.
Proof.
  destruct value; reflexivity.
Qed.

Lemma each_strings (members : list string) :
  each joinMember (map JStr members) = Ok members.
Proof.
  induction members as [|s t IH]; simpl.
  - reflexivity.
  - fold (each joinMember (map JStr t)). rewrite IH. reflexivity.
Qed.

Lemma filter_all {A : Type} (f : A -> bool) (l : list A) :
  Forall (fun a => f a = true) l -> filter f l = l.
Proof.
  induction 1 as [|a t Ha _ IH]; simpl.
  - reflexivity.
  - rewrite Ha, IH. reflexivity.
Qed.

(** ** The recursion is well founded *)

Section Nesting.

Lemma height_lookup (k : string) (l : list (string * jsval)) :
  height (lookup k l) <= fold_right (fun p m => Nat.max (height (snd p)) m) 0 l.
Proof.
  induction l as [|[k' v] t IH]; simpl.
  - lia.
  - destruct (k' =? k); lia.
Qed.

Lemma height_get (v : jsval) (k : string) :
  height (get v k) <= Nat.pred (height v).
Proof.
  destruct v; simpl; try lia.
  apply height_lookup.
Qed.

Lemma height_member (v : jsval) (l : list jsval) :
  In v l -> height v < height (JArr l).
Proof.
  simpl. induction l as [|x t IH]; simpl; intros H.
  - contradiction.
  - destruct H as [->|H].
    + lia.
    + specialize (IH H). lia.
Qed.

Lemma height_indexed (i : nat) (l : list jsval) (name : string) (item : jsval) :
  In (name, item) (indexed i l) -> In item l.
Proof.
  revert i. induction l as [|x t IH]; simpl; intros i H.
  - contradiction.
  - destruct H as [H|H].
    + left. congruence.
    + right. eauto.
Qed.

Lemma height_forIn (obj : jsval) (name : string) (item : jsval) :
  In (name, item) (forIn obj) -> height item <= Nat.pred (height obj).
Proof.
  destruct obj as [| | b | n | s | l | l]; simpl; try contradiction.
  - intros H. apply height_indexed in H. apply in_map_iff in H.
    destruct H as [c [<- _]]. simpl. lia.
  - intros H. apply height_indexed in H.
    apply height_member in H. simpl in H. lia.
  - induction l as [|[k v] t IH]; simpl; intros H.
    + contradiction.
    + destruct H as [H|H].
      * inversion H; subst. simpl. lia.
      * specialize (IH H). lia.
Qed.

Lemma forIn_default (obj : jsval) :
  forIn (defaultTo (JObj []) obj) = forIn obj.
Proof. destruct obj; reflexivity. Qed.

Lemma height_default (obj : jsval) :
  height (defaultTo (JObj []) obj) <= S (height obj).
Proof. destruct obj; simpl; lia. Qed.

(** An item with a string under [type] is an object. *)
Lemma typed_is_object (item : jsval) (type : string) :
  get item "type" = JStr type -> 0 < height item.
Proof.
  destruct item; simpl; try discriminate. lia.
Qed.

End Nesting.

Lemma read_typed (item : jsval) (type : string) :
  get item "type" = JStr type -> read item "type" = Ok (JStr type).
Proof.
  destruct item; simpl; try discriminate.
  intros ->. reflexivity.
Qed.

Lemma typed_read (item : jsval) (type : string) :
  read item "type" = Ok (JStr type) -> get item "type" = JStr type.
Proof.
  destruct item; simpl; try discriminate; intros H; inversion H; reflexivity.
Qed.

(** The body and the loop depend on the walker they call only at the
    values nested in the items they visit. *)
Section Extensionality.

Variables w1 w2 : walker.

Lemma forEach_ext (values : list jsval) :
  (forall acc v d r, In v values -> w1 acc v d r = w2 acc v d r) ->
  forall acc depth, forEach w1 acc values depth = forEach w2 acc values depth.
Proof.
  induction values as [|value rest IH]; intros H acc depth; simpl.
  - reflexivity.
  - rewrite (H acc value (depth + 1) JUndefined) by (left; reflexivity).
    destruct (w2 acc value (depth + 1) JUndefined) as [acc' [|e]].
    + apply IH. intros; apply H. right; assumption.
    + reflexivity.
Qed.

Lemma body_ext (item : jsval) :
  (forall acc v d r, height v < height item -> w1 acc v d r = w2 acc v d r) ->
  forall acc name depth req,
    body w1 acc name item depth req = body w2 acc name item depth req.
Proof.
  intros H acc name depth req. unfold body.
  destruct (read item "type") as [[| | b | n | type | l | l]|e] eqn:Htype;
    try reflexivity.
  pose proof (typed_read _ _ Htype) as Hobj.
  pose proof (typed_is_object _ _ Hobj) as Hpos.
  destruct (type =? "object").
  { rewrite H; [reflexivity|].
    pose proof (height_get item "properties"). lia. }
  destruct (type =? "string"); [reflexivity|].
  destruct ((type =? "number") || (type =? "integer")); [reflexivity|].
  destruct (type =? "boolean"); [reflexivity|].
  destruct (type =? "array"); [|reflexivity].
  destruct (negb (truthy (get item "items"))); [reflexivity|].
  destruct (get item "items") as [| | b | n | s | values | l] eqn:Hitems;
    try reflexivity.
  apply forEach_ext. intros acc' v d r Hin. apply H.
  pose proof (height_member _ _ Hin).
  pose proof (height_get item "items") as Hle. rewrite Hitems in Hle. lia.
Qed.

Lemma loop_ext (obj : jsval) (properties : list (string * jsval)) :
  (forall name item acc v d r,
      In (name, item) properties -> height v < height item ->
      w1 acc v d r = w2 acc v d r) ->
  forall acc depth req,
    loop w1 obj acc properties depth req = loop w2 obj acc properties depth req.
Proof.
  induction properties as [|[name item] rest IH]; intros H acc depth req; simpl.
  - reflexivity.
  - destruct (hasOwnProperty obj name) as [[|]|e]; try reflexivity.
    rewrite (body_ext item) by (intros; eapply H; [left; reflexivity|assumption]).
    destruct (body w2 acc name item depth req) as [acc' [| |e]]; try reflexivity.
    apply IH. intros; eapply H; [right; eassumption|assumption].
Qed.

End Extensionality.

(** Any two bounds above the nesting of the schema give the same run. *)
Lemma iterateBounded_enough (n m : nat) :
  forall acc obj depth req,
    height obj < n -> height obj < m ->
    iterateBounded n acc obj depth req = iterateBounded m acc obj depth req.
Proof.
  revert m. induction n as [|n IH]; intros m acc obj depth req Hn Hm.
  - lia.
  - destruct m as [|m]; [lia|]. simpl.
    rewrite forIn_default.
    apply loop_ext. intros name item acc' v d r Hin Hv.
    pose proof (height_forIn _ _ _ Hin).
    apply IH; lia.
Qed.

(** The equation of the source: the walker is the loop of line 92 over
    the properties of [obj], with itself for the nested calls. *)
Lemma iterateObjectReqursive_eq (acc : list string) (obj : jsval) (depth : nat)
    (req : jsval) :
  iterateObjectReqursive acc obj depth req =
  loop iterateObjectReqursive (defaultTo (JObj []) obj) acc
       (forIn (defaultTo (JObj []) obj)) depth (defaultTo (JArr []) req).
Proof.
  unfold iterateObjectReqursive at 1. simpl.
  rewrite forIn_default.
  apply loop_ext. intros name item acc' v d r Hin Hv.
  pose proof (height_forIn _ _ _ Hin).
  unfold iterateObjectReqursive.
  apply iterateBounded_enough; lia.
Qed.

(** ** The accumulator is only appended to *)

Section Appending.

Variable w : walker.
Hypothesis w_appends : appends w.

Lemma push_appends (acc : list string) (doc : result string) (after : signal) :
  push acc doc after = ((acc ++ fst (push [] doc after))%list, snd (push [] doc after)).
Proof.
  destruct doc as [line|e]; simpl.
  - reflexivity.
  - rewrite app_nil_r. reflexivity.
Qed.

Lemma forEach_appends (values : list jsval) (depth : nat) (acc : list string) :
  forEach w acc values depth =
  ((acc ++ fst (forEach w [] values depth))%list, snd (forEach w [] values depth)).
Proof.
  revert acc. induction values as [|value rest IH]; intros acc; simpl.
  - rewrite app_nil_r. reflexivity.
  - rewrite (w_appends acc).
    destruct (w [] value (depth + 1) JUndefined) as [out [|e]]; simpl.
    + rewrite IH. rewrite (IH out). simpl. rewrite app_assoc. reflexivity.
    + reflexivity.
Qed.

Lemma body_appends (acc : list string) (name : string) (item : jsval)
    (depth : nat) (req : jsval) :
  body w acc name item depth req =
  ((acc ++ fst (body w [] name item depth req))%list,
   snd (body w [] name item depth req)).
Proof.
  unfold body.
  destruct (read item "type") as [[| | b | n | type | l | l]|e];
    simpl; rewrite ?app_nil_r; try reflexivity.
  destruct (type =? "object").
  { rewrite (w_appends acc).
    destruct (w [] (get item "properties") (depth + 1) (get item "required"))
      as [out [|e]]; reflexivity. }
  destruct (type =? "string"); [apply push_appends|].
  destruct ((type =? "number") || (type =? "integer")); [apply push_appends|].
  destruct (type =? "boolean"); [apply push_appends|].
  destruct (type =? "array"); [|simpl; rewrite app_nil_r; reflexivity].
  destruct (negb (truthy (get item "items"))); [apply push_appends|].
  destruct (get item "items"); simpl; rewrite ?app_nil_r; try reflexivity.
  apply forEach_appends.
Qed.

Lemma loop_appends (obj : jsval) (properties : list (string * jsval)) (depth : nat)
    (req : jsval) (acc : list string) :
  loop w obj acc properties depth req =
  ((acc ++ fst (loop w obj [] properties depth req))%list,
   snd (loop w obj [] properties depth req)).
Proof.
  revert acc. induction properties as [|[name item] rest IH]; intros acc; simpl.
  - rewrite app_nil_r. reflexivity.
  - destruct (hasOwnProperty obj name) as [[|]|e]; simpl;
      rewrite ?app_nil_r; try reflexivity.
    rewrite (body_appends acc).
    destruct (body w [] name item depth req) as [out [| |e]]; simpl;
      try reflexivity.
    rewrite IH. rewrite (IH out). simpl. rewrite app_assoc. reflexivity.
Qed.

Lemma turns_appends (properties : list (string * jsval)) (depth : nat)
    (req : jsval) (acc : list string) :
  turns w acc properties depth req =
  ((acc ++ fst (turns w [] properties depth req))%list,
   snd (turns w [] properties depth req)).
Proof.
  revert acc. induction properties as [|[name item] rest IH]; intros acc; simpl.
  - rewrite app_nil_r. reflexivity.
  - rewrite (body_appends acc).
    destruct (body w [] name item depth req) as [out [| |e]]; simpl;
      try reflexivity.
    rewrite IH. rewrite (IH out). simpl. rewrite app_assoc. reflexivity.
Qed.

End Appending.

Lemma iterateBounded_appends (fuel : nat) : appends (iterateBounded fuel).
Proof.
  induction fuel as [|fuel IH]; intros acc v d r; simpl.
  - rewrite app_nil_r. reflexivity.
  - apply loop_appends. exact IH.
Qed.

Lemma iterateObjectReqursive_appends : appends iterateObjectReqursive.
Proof.
  intros acc v d r. unfold iterateObjectReqursive.
  apply iterateBounded_appends.
Qed.

(** Leaving the fourth argument out is passing the empty list. *)
Lemma iterateObjectReqursive_default (acc : list string) (obj : jsval) (depth : nat) :
  iterateObjectReqursive acc obj depth JUndefined =
  iterateObjectReqursive acc obj depth (JArr []).
Proof. reflexivity. Qed.

(** ** Strings *)

Lemma append_assoc (a b c : string) : (a ++ b) ++ c = a ++ b ++ c.
Proof. induction a as [|x a IH]; simpl; [reflexivity | now rewrite IH]. Qed.

Lemma append_empty_r (a : string) : a ++ EmptyString = a.
Proof. induction a as [|x a IH]; simpl; [reflexivity | now rewrite IH]. Qed.

Lemma length_append (a b : string) :
  String.length (a ++ b) = String.length a + String.length b.
Proof. induction a as [|x a IH]; simpl; [reflexivity | now rewrite IH]. Qed.

Lemma length_spaces (n : nat) : String.length (spaces n) = n.
Proof. induction n as [|n IH]; simpl; [reflexivity | now rewrite IH]. Qed.

(** ** The guard of line 93 *)

(** In a mapping without a property named [hasOwnProperty] the guard
    lets every turn through. *)
Lemma loop_plain (w : walker) (l properties : list (string * jsval)) (depth : nat)
    (req : jsval) :
  plain l -> incl properties l ->
  forall acc,
    loop w (JObj l) acc properties depth req = turns w acc properties depth req.
Proof.
  intros Hplain. induction properties as [|[name item] rest IH]; intros Hincl acc;
    simpl.
  - reflexivity.
  - unfold plain in Hplain. rewrite Hplain.
    rewrite (owns_property name item l) by (apply Hincl; left; reflexivity).
    destruct (body w acc name item depth req) as [acc' [| |e]]; try reflexivity.
    apply IH. intros p Hp. apply Hincl. right. exact Hp.
Qed.

Lemma walk_plain (l : list (string * jsval)) (depth : nat) (req : jsval)
    (acc : list string) :
  plain l ->
  iterateObjectReqursive acc (JObj l) depth req =
  turns iterateObjectReqursive acc l depth (defaultTo (JArr []) req).
Proof.
  intros Hplain. rewrite iterateObjectReqursive_eq. simpl.
  apply loop_plain; [exact Hplain | apply incl_refl].
Qed.

(** In a mapping with such a property the first turn throws. *)
Lemma walk_shadowed (l : list (string * jsval)) (depth : nat) (req : jsval)
    (acc : list string) :
  owns "hasOwnProperty" l = true ->
  iterateObjectReqursive acc (JObj l) depth req = (acc, Thrown TypeError).
Proof.
  intros Howns. rewrite iterateObjectReqursive_eq. simpl.
  destruct l as [|[name item] rest]; [discriminate|].
  cbn [loop]. unfold hasOwnProperty. rewrite Howns. reflexivity.
Qed.

Lemma plain_or_shadowed (l : list (string * jsval)) :
  plain l \/ owns "hasOwnProperty" l = true.
Proof. unfold plain. destruct (owns "hasOwnProperty" l); auto. Qed.

Lemma plain_cons (name : string) (item : jsval) (rest : list (string * jsval)) :
  plain ((name, item) :: rest) -> plain rest.
Proof.
  unfold plain. simpl. intros H. apply orb_false_iff in H. tauto.
Qed.

Lemma plain_app (a b : list (string * jsval)) :
  plain (a ++ b) <-> plain a /\ plain b.
Proof. unfold plain. rewrite owns_app. apply orb_false_iff. Qed.

(** ** One property at a time *)

(** The walk of a mapping is the turn of its first property, then the
    walk of the others unless that turn returned or threw. *)
Lemma walk_first (acc : list string) (name : string) (item : jsval)
    (rest : list (string * jsval)) (depth : nat) (req : jsval) :
  plain ((name, item) :: rest) ->
  iterateObjectReqursive acc (JObj ((name, item) :: rest)) depth req =
  match body iterateObjectReqursive acc name item depth (defaultTo (JArr []) req) with
  | (acc', Next) => iterateObjectReqursive acc' (JObj rest) depth req
  | (acc', Return) => (acc', Normal)
  | (acc', Throw e) => (acc', Thrown e)
  end.
Proof.
  intros Hplain. rewrite (walk_plain _ _ _ _ Hplain). simpl.
  destruct (body iterateObjectReqursive acc name item depth (defaultTo (JArr []) req))
    as [acc' [| |e]]; try reflexivity.
  rewrite (walk_plain rest) by (eapply plain_cons; exact Hplain). reflexivity.
Qed.

Lemma turns_without (w : walker) (before after : list (string * jsval))
    (name : string) (item : jsval) (depth : nat) (req : jsval) :
  (forall acc, body w acc name item depth req = (acc, Next)) ->
  forall acc,
    turns w acc (before ++ (name, item) :: after) depth req =
    turns w acc (before ++ after) depth req.
Proof.
  intros Hskip. induction before as [|[name' item'] before IH]; intros acc; simpl.
  - rewrite Hskip. reflexivity.
  - destruct (body w acc name' item' depth req) as [acc' [| |e]]; try reflexivity.
    apply IH.
Qed.

Lemma unwalked_type_skipped (w : walker) (acc : list string) (name : string)
    (item type : jsval) (depth : nat) (req : jsval) :
  read item "type" = Ok type ->
  (forall t, In t walkedTypes -> type <> JStr t) ->
  body w acc name item depth req = (acc, Next).
Proof.
  intros Hread Hnot. unfold body. rewrite Hread.
  destruct type as [| | b | n | t | l | l]; try reflexivity.
  assert (Hneq : forall k, In k walkedTypes -> (t =? k) = false).
  { intros k Hk. destruct (String.eqb_spec t k) as [->|]; [|reflexivity].
    exfalso. exact (Hnot k Hk eq_refl). }
  rewrite !Hneq by (simpl; tauto). reflexivity.
Qed.

(** ** The turn of a leaf *)

Lemma push_pushed (acc : list string) (doc : result string) (after sig : signal)
    (line : string) :
  push acc doc after = ((acc ++ [line])%list, sig) -> doc = Ok line /\ sig = after.
Proof.
  destruct doc as [line'|e]; simpl; intros H; inversion H as [[Hacc Hsig]].
  - apply app_inv_head in Hacc. inversion Hacc. auto.
  - exfalso. apply (f_equal (@List.length string)) in Hacc.
    rewrite length_app in Hacc. simpl in Hacc. lia.
Qed.

(** The walker hands the formatter, for a leaf of each type, what the
    specification lists for that type. *)
Lemma leaf_turn (w : walker) (acc : list string) (name : string) (item : jsval)
    (type : string) (depth : nat) (req : jsval) :
  leaf item type ->
  body w acc name item depth req =
  push acc
    (label <- labelOf type item ;;
     bounds <- boundsOf type item ;;
     isRequired <- includes req name ;;
     createDocParameter (padStart name depth) label (fst bounds) (snd bounds)
       (allowedOf type item) (JBool isRequired) (get item "default")
       (orElse (get item "title") (get item "description")))
    (if type =? "array" then Return else Next).
Proof.
  intros [Htype Hkind]. unfold body. rewrite (read_typed _ _ Htype).
  destruct Hkind as [Hin|[-> Hitems]].
  - simpl in Hin. destruct Hin as [<-|[<-|[<-|[<-|[]]]]]; simpl.
    + unfold labelOf. simpl. destruct (stringLabel item); reflexivity.
    + unfold labelOf, boundsOf. simpl.
      destruct (effectiveMinimum item); [|reflexivity].
      destruct (effectiveMaximum item); reflexivity.
    + unfold labelOf, boundsOf. simpl.
      destruct (effectiveMinimum item); [|reflexivity].
      destruct (effectiveMaximum item); reflexivity.
    + reflexivity.
  - simpl. rewrite Hitems. reflexivity.
Qed.

Lemma sizeSuffix_range (lower upper : jsval) (size : string) :
  sizeSuffix lower upper = Ok size -> size = sizeRange lower upper.
Proof.
  unfold sizeSuffix, sizeRange, bound, orElse.
  destruct (truthy lower) eqn:Hl, (truthy upper) eqn:Hu; simpl;
    try (intros H; inversion H; reflexivity).
  - destruct (toText lower) as [a|e] eqn:Ha; simpl; [|discriminate].
    destruct (toText upper) as [b|e] eqn:Hb; simpl; [|discriminate].
    intros H. inversion H.
    rewrite (toString_text _ _ Ha), (toString_text _ _ Hb). reflexivity.
  - destruct (toText lower) as [a|e] eqn:Ha; simpl; [|discriminate].
    intros H. inversion H. rewrite (toString_text _ _ Ha). reflexivity.
  - destruct (toText upper) as [b|e] eqn:Hb; simpl; [|discriminate].
    intros H. inversion H. rewrite (toString_text _ _ Hb). reflexivity.
Qed.

(** What the formatter returns, part by part. *)
Lemma createDocParameter_parts (name type : string)
    (sizeMin sizeMax allowedValues isRequired defaultValue description : jsval)
    (doc : string) :
  createDocParameter name type sizeMin sizeMax allowedValues isRequired
                     defaultValue description = Ok doc ->
  exists allowed,
    allowedSuffix allowedValues = Ok allowed
    /\ doc = "{" ++ type ++ sizeRange sizeMin sizeMax ++ allowed ++ "} "
                 ++ nameExpr name isRequired defaultValue ++ " "
                 ++ toString (orElse description (JStr EmptyString)).
Proof.
  unfold createDocParameter, typeExpr, bind.
  destruct (sizeSuffix sizeMin sizeMax) as [size|e] eqn:Hsize; [|discriminate].
  destruct (allowedSuffix allowedValues) as [allowed|e]; [|discriminate].
  destruct (toText (orElse description (JStr EmptyString))) as [text|e] eqn:Htext;
    [|discriminate].
  intros H. inversion H. exists allowed. split; [reflexivity|].
  rewrite (sizeSuffix_range _ _ _ Hsize), (toString_text _ _ Htext).
  rewrite !append_assoc. reflexivity.
Qed.

(** The descriptor a leaf gets, part by part. *)
Lemma leaf_descriptor (w : walker) (acc : list string) (name : string)
    (item : jsval) (type : string) (depth : nat) (req : jsval) (doc : string)
    (sig : signal) :
  leaf item type ->
  body w acc name item depth req = ((acc ++ [doc])%list, sig) ->
  exists label lower upper allowed isRequired,
    labelOf type item = Ok label
    /\ boundsOf type item = Ok (lower, upper)
    /\ allowedSuffix (allowedOf type item) = Ok allowed
    /\ includes req name = Ok isRequired
    /\ doc = "{" ++ label ++ sizeRange lower upper ++ allowed ++ "} "
                 ++ nameExpr (padStart name depth) (JBool isRequired)
                             (get item "default")
                 ++ " " ++ describedAs item.
Proof.
  intros Hleaf Hbody. rewrite (leaf_turn _ _ _ _ _ _ _ Hleaf) in Hbody.
  apply push_pushed in Hbody. destruct Hbody as [Hdoc _].
  unfold bind in Hdoc.
  destruct (labelOf type item) as [label|e]; [|discriminate].
  destruct (boundsOf type item) as [[lower upper]|e]; [|discriminate].
  destruct (includes req name) as [isRequired|e]; [|discriminate].
  simpl in Hdoc. apply createDocParameter_parts in Hdoc.
  destruct Hdoc as [allowed [Hallowed Hdoc]].
  exists label, lower, upper, allowed, isRequired.
  repeat split; try reflexivity; assumption.
Qed.

(** The type label opens with the type. *)
Lemma label_opens (item : jsval) (type label : string) :
  get item "type" = JStr type ->
  labelOf type item = Ok label ->
  exists rest, label = type ++ rest.
Proof.
  intros Htype. unfold labelOf.
  destruct (type =? "string").
  - unfold stringLabel. rewrite Htype. simpl.
    destruct (truthy (orElse (get item "format") (get item "pattern"))).
    + unfold bind.
      destruct (toText (orElse (get item "format") (get item "pattern")));
        [|discriminate].
      intros H. inversion H. eexists. reflexivity.
    + intros H. inversion H. exists EmptyString. rewrite append_empty_r. reflexivity.
  - intros H. inversion H. exists EmptyString. rewrite append_empty_r. reflexivity.
Qed.

Lemma scalar_leaf (item : jsval) :
  scalar item -> exists type, leaf item type /\ (type =? "array") = false.
Proof.
  intros [type [Hin Htype]]. exists type. split.
  - split; [exact Htype | left; exact Hin].
  - simpl in Hin. destruct Hin as [<-|[<-|[<-|[<-|[]]]]]; reflexivity.
Qed.

Lemma includes_listed (required : list jsval) (name : string) :
  includes (JArr required) name = Ok (listed name required).
Proof. reflexivity. Qed.

Lemma includes_member (required : list jsval) (name : string) :
  listed name required = true <-> In (JStr name) required.
Proof.
  unfold listed. split.
  - intros Hex. apply existsb_exists in Hex.
    destruct Hex as [v [Hin Hv]]. destruct v; try discriminate.
    apply String.eqb_eq in Hv. subst. exact Hin.
  - intros Hin. apply existsb_exists.
    exists (JStr name). split; [exact Hin | apply String.eqb_refl].
Qed.

Lemma nameExpr_segment (depth : nat) (required : bool) (name : string) (item : jsval) :
  nameExpr (padStart name depth) (JBool required) (get item "default")
  = nameSegment depth required (name, item).
Proof.
  unfold nameExpr, nameSegment. simpl. destruct required; reflexivity.
Qed.

(** * The statements of the specification *)

(** C8. A schema that holds [allOf] at its root (a truthy value under
    that key, as every array and every object is) makes the
    transformation throw the error of the unimplemented composition,
    with [items] still empty when it is thrown. *)
Theorem allOf_rejected (schema : jsval) :
  truthy (get schema "allOf") = true ->
  extractArgumentsFromSchema schema = Raise unmerged
  /\ extractArgumentsRun schema = ([], Thrown unmerged).
Proof.
  intros Hall.
  assert (Hrun : extractArgumentsRun schema = ([], Thrown unmerged)).
  { unfold extractArgumentsRun.
    destruct schema; simpl in Hall; try discriminate.
    simpl. rewrite Hall. reflexivity. }
  split; [|exact Hrun].
  unfold extractArgumentsFromSchema. rewrite Hrun. reflexivity.
Qed.

Lemma allOf_rejected_witness :
  extractArgumentsFromSchema
    (JObj [("type", JStr "object");
           ("allOf", JArr [JObj [("properties", JObj [])]]);
           ("properties", JObj [("a", JObj [("type", JStr "string")])])])
  = Raise unmerged.
Proof.
  apply (allOf_rejected
           (JObj [("type", JStr "object");
                  ("allOf", JArr [JObj [("properties", JObj [])]]);
                  ("properties", JObj [("a", JObj [("type", JStr "string")])])])).
  reflexivity.
Defined.

(** The formatter on a field with every part present. *)
Example descriptor_with_every_part :
  createDocParameter "size" "integer" (JNum 1) (JNum 9)
    (JArr [JNum 1; JNum 3; JNum 9]) (JBool false) (JNum 3) (JStr "Size of it")
  = Ok ("{integer{1..9}=" ++ quoted "1,3,9" ++ "} [size=3] Size of it").
Proof. reflexivity. Qed.

(** ** Where the code departs from the specification *)

(** C1, at the input where the code fails it.  Line 154 hands each
    member of [items] to the walker as the mapping to go through, where
    line 99 hands it the [properties] of an object: the names the walker
    visits in a member schema are its keywords ([type], [properties]),
    whose values carry no [type] of their own, and the fields [x] and
    [y] of the two member schemas get no descriptor.  The same schema
    met as an [object] property yields the descriptor of its field. *)
Example member_schemas_yield_nothing :
  iterateObjectReqursive []
    (JObj [("pair",
            JObj [("type", JStr "array");
                  ("items",
                   JArr [JObj [("type", JStr "object");
                               ("properties",
                                JObj [("x", JObj [("type", JStr "string")])])];
                         JObj [("type", JStr "object");
                               ("properties",
                                JObj [("y", JObj [("type", JStr "boolean")])])]])])])
    0 JUndefined
  = ([], Normal)
  /\ iterateObjectReqursive []
       (JObj [("one",
               JObj [("type", JStr "object");
                     ("properties", JObj [("x", JObj [("type", JStr "string")])])])])
       0 JUndefined
     = (["{string} [x] "], Normal).
Proof. split; reflexivity. Qed.

(** The [return] of line 142 leaves the walker: what follows an [array]
    property without [items] in its mapping is never visited. *)
Lemma array_leaf_turn (w : walker) (acc : list string) (name : string) (item : jsval)
    (depth : nat) (req : jsval) :
  get item "type" = JStr "array" ->
  truthy (get item "items") = false ->
  exists acc', body w acc name item depth req = (acc', Return)
               \/ exists e, body w acc name item depth req = (acc', Throw e).
Proof.
  intros Htype Hitems.
  rewrite (leaf_turn w acc name item "array" depth req)
    by (split; [exact Htype | right; split; [reflexivity | exact Hitems]]).
  simpl.
  match goal with |- context [push acc ?d Return] => destruct d as [line|e] end; simpl.
  - eexists. left. reflexivity.
  - eexists. right. eexists. reflexivity.
Qed.

Lemma turns_end_at_array_leaf (w : walker) (before after : list (string * jsval))
    (name : string) (item : jsval) (depth : nat) (req : jsval) :
  get item "type" = JStr "array" ->
  truthy (get item "items") = false ->
  forall acc,
    turns w acc (before ++ (name, item) :: after) depth req =
    turns w acc (before ++ [(name, item)]) depth req.
Proof.
  intros Htype Hitems.
  induction before as [|[name' item'] before IH]; intros acc; simpl.
  - destruct (array_leaf_turn w acc name item depth req Htype Hitems)
      as [acc' [H|[e H]]]; rewrite H; reflexivity.
  - destruct (body w acc name' item' depth req) as [acc' [| |e]]; try reflexivity.
    apply IH.
Qed.

(** C2, at the input where the code fails it: the property [b] follows
    an [array] property without [items] and gets no descriptor. *)
Example sibling_after_array_leaf_lost :
  extractArgumentsFromSchema
    (JObj [("type", JStr "object");
           ("properties", JObj [("a", JObj [("type", JStr "array")]);
                                ("b", JObj [("type", JStr "string")])])])
  = Ok ["{array} [a] "].
Proof. reflexivity. Qed.

(** [padStart] pads up to a length, not by a length: a name as long as
    the depth or longer is left as it is. *)
Lemma padStart_length (name : string) (depth : nat) :
  String.length (padStart name depth) = Nat.max (String.length name) depth.
Proof.
  unfold padStart. destruct (Nat.ltb_spec (String.length name) depth).
  - rewrite length_append, length_spaces. lia.
  - lia.
Qed.

Lemma padStart_long_name (name : string) (depth : nat) :
  depth <= String.length name -> padStart name depth = name.
Proof.
  intros H. unfold padStart.
  destruct (Nat.ltb_spec (String.length name) depth); [lia|reflexivity].
Qed.

(** C3, at the example of the specification: [b] is visited at depth 1
    and its name comes out with no padding. *)
Example nested_name_not_padded :
  iterateObjectReqursive []
    (JObj [("a", JObj [("type", JStr "object");
                       ("properties", JObj [("b", JObj [("type", JStr "string")])]);
                       ("required", JArr [JStr "b"])])]) 0 JUndefined
  = (["{string} b "], Normal).
Proof. reflexivity. Qed.

(** C6, at the input where the code fails it: [filter] drops the falsy
    member [0] of the enumeration. *)
Example falsy_enum_member_lost :
  iterateObjectReqursive []
    (JObj [("n", JObj [("type", JStr "integer");
                       ("enum", JArr [JNum 0; JNum 1])])]) 0 JUndefined
  = (["{integer=" ++ quoted "1" ++ "} [n] "], Normal).
Proof. reflexivity. Qed.

(** A property whose [type] is absent, or is none of the six the
    [switch] knows, is passed over wherever it stands in its mapping,
    unless it is the property named [hasOwnProperty]. *)
Lemma unknown_type_passed_over (before after : list (string * jsval))
    (name : string) (item type : jsval) (acc : list string) (depth : nat)
    (req : jsval) :
  name <> "hasOwnProperty" ->
  read item "type" = Ok type ->
  (forall t, In t walkedTypes -> type <> JStr t) ->
  iterateObjectReqursive acc (JObj (before ++ (name, item) :: after)) depth req =
  iterateObjectReqursive acc (JObj (before ++ after)) depth req.
Proof.
  intros Hname Hread Hnot.
  assert (Hsame : owns "hasOwnProperty" (before ++ (name, item) :: after)
                  = owns "hasOwnProperty" (before ++ after)).
  { rewrite !owns_app. simpl.
    destruct (String.eqb_spec name "hasOwnProperty"); [contradiction|reflexivity]. }
  destruct (plain_or_shadowed (before ++ after)) as [Hplain|Hshadow].
  - rewrite !walk_plain; [|exact Hplain|unfold plain; rewrite Hsame; exact Hplain].
    apply turns_without. intros acc'.
    eapply unwalked_type_skipped; eassumption.
  - rewrite !walk_shadowed; [reflexivity | exact Hshadow | rewrite Hsame; exact Hshadow].
Qed.

(** C10, at the input where the code fails it.  The property named
    [hasOwnProperty] has a type the walker does not know and is to be
    passed over; the guard of line 93 calls [obj.hasOwnProperty], which
    is that property, and the walk throws on its first turn, before the
    property [a] gets its descriptor.  Without the property the walk
    yields the descriptor of [a]. *)
Example unknown_type_named_as_guard_throws :
  iterateObjectReqursive []
    (JObj [("a", JObj [("type", JStr "string")]);
           ("hasOwnProperty", JObj [("type", JStr "null")])]) 0 JUndefined
  = ([], Thrown TypeError)
  /\ iterateObjectReqursive []
       (JObj [("a", JObj [("type", JStr "string")])]) 0 JUndefined
     = (["{string} [a] "], Normal).
Proof. split; reflexivity. Qed.

(** ** Presence is truthiness *)

(** C4, as stated, fails where the minimum is zero: the node asks for
    numbers above 0, the effective lower bound is [null] and not 1, and
    the descriptor has no size suffix.  It fails again where the
    effective bound is zero: above -1 the bound is 0, which the size
    suffix leaves out. *)
Lemma exclusive_zero_minimum_no_bound :
  let item := JObj [("type", JStr "integer"); ("minimum", JNum 0);
                    ("exclusiveMinimum", JBool true)] in
  let below := JObj [("type", JStr "integer"); ("minimum", JNum (-1));
                     ("exclusiveMinimum", JBool true); ("maximum", JNum 9)] in
  truthy (get item "exclusiveMinimum") = true
  /\ get item "minimum" = JNum 0
  /\ effectiveMinimum item = Ok JNull
  /\ iterateObjectReqursive [] (JObj [("n", item)]) 0 JUndefined
     = (["{integer} [n] "], Normal)
  /\ effectiveMinimum below = Ok (JNum 0)
  /\ iterateObjectReqursive [] (JObj [("n", below)]) 0 JUndefined
     = (["{integer{..9}} [n] "], Normal).
Proof.
  simpl. repeat split; reflexivity.
Qed.

(** C4, amended.  The descriptor of a [number] or [integer] leaf has
    the type, then the size suffix of the two effective bounds.  With a
    truthy [exclusiveMinimum] and a truthy minimum (present and not
    zero), the effective lower bound is [minimum + 1], the sum of
    doubles when the minimum is a number; with a truthy
    [exclusiveMaximum] and a truthy maximum, the effective upper bound
    is [maximum - 1]; without the exclusive flag the bound is the
    keyword itself, and a minimum or maximum that is zero or absent
    gives no bound.  The size suffix writes each effective bound unless
    it is zero.  So minimum 5 gives the lower bound 6 and maximum 10 the
    upper bound 9. *)
Theorem exclusive_bounds_shifted (acc : list string) (name : string) (item : jsval)
    (type : string) (depth : nat) (req : jsval) (doc : string) (sig : signal) :
  get item "type" = JStr type ->
  type = "number" \/ type = "integer" ->
  body iterateObjectReqursive acc name item depth req = ((acc ++ [doc])%list, sig) ->
  exists lower upper allowed rest,
    effectiveMinimum item = Ok lower
    /\ effectiveMaximum item = Ok upper
    /\ doc = "{" ++ type ++ sizeRange lower upper ++ allowed ++ "} " ++ rest
    /\ (forall m, get item "minimum" = JNum m -> truthy (JNum m) = true ->
                  truthy (get item "exclusiveMinimum") = true ->
                  lower = JNum (m + 1))
    /\ (forall M, get item "maximum" = JNum M -> truthy (JNum M) = true ->
                  truthy (get item "exclusiveMaximum") = true ->
                  upper = JNum (M - 1))
    /\ (truthy (get item "minimum") = true ->
        truthy (get item "exclusiveMinimum") = true ->
        plusOne (get item "minimum") = Ok lower)
    /\ (truthy (get item "maximum") = true ->
        truthy (get item "exclusiveMaximum") = true ->
        minusOne (get item "maximum") = Ok upper)
    /\ (truthy (get item "minimum") = true ->
        truthy (get item "exclusiveMinimum") = false ->
        lower = get item "minimum")
    /\ (truthy (get item "maximum") = true ->
        truthy (get item "exclusiveMaximum") = false ->
        upper = get item "maximum")
    /\ (truthy (get item "minimum") = false -> lower = JNull)
    /\ (truthy (get item "maximum") = false -> upper = JNull).
Proof.
  intros Htype Hnumber Hbody.
  assert (Hleaf : leaf item type).
  { split; [exact Htype|]. left. simpl. destruct Hnumber as [-> | ->]; tauto. }
  destruct (leaf_descriptor _ _ _ _ _ _ _ _ _ Hleaf Hbody)
    as [label [lower [upper [allowed [isRequired
          [Hlabel [Hbounds [_ [_ Hdoc]]]]]]]]].
  assert (Hl : label = type).
  { unfold labelOf in Hlabel. destruct Hnumber as [-> | ->]; simpl in Hlabel;
      inversion Hlabel; reflexivity. }
  assert (Hb : (minimum <- effectiveMinimum item ;;
                maximum <- effectiveMaximum item ;;
                Ok (minimum, maximum)) = Ok (lower, upper)).
  { unfold boundsOf in Hbounds. destruct Hnumber as [-> | ->]; exact Hbounds. }
  unfold bind in Hb.
  destruct (effectiveMinimum item) as [lo|e] eqn:Hlo; [|discriminate].
  destruct (effectiveMaximum item) as [hi|e] eqn:Hhi; [|discriminate].
  inversion Hb; subst lo hi label.
  exists lower, upper, allowed. eexists.
  split; [reflexivity|]. split; [reflexivity|]. split; [exact Hdoc|].
  unfold effectiveMinimum in Hlo. unfold effectiveMaximum in Hhi.
  repeat split.
  - intros m Hm Htruthy Hexcl. rewrite Hm, Htruthy, Hexcl in Hlo.
    inversion Hlo. reflexivity.
  - intros M HM Htruthy Hexcl. rewrite HM, Htruthy, Hexcl in Hhi.
    inversion Hhi. reflexivity.
  - intros Htruthy Hexcl. rewrite Htruthy, Hexcl in Hlo. exact Hlo.
  - intros Htruthy Hexcl. rewrite Htruthy, Hexcl in Hhi. exact Hhi.
  - intros Htruthy Hexcl. rewrite Htruthy, Hexcl in Hlo.
    inversion Hlo. reflexivity.
  - intros Htruthy Hexcl. rewrite Htruthy, Hexcl in Hhi.
    inversion Hhi. reflexivity.
  - intros Hfalsy. rewrite Hfalsy in Hlo. inversion Hlo. reflexivity.
  - intros Hfalsy. rewrite Hfalsy in Hhi. inversion Hhi. reflexivity.
Qed.

Lemma exclusive_bounds_shifted_witness :
  exists lower upper allowed rest,
    effectiveMinimum between5and10 = Ok lower
    /\ effectiveMaximum between5and10 = Ok upper
    /\ "{integer{6..9}} [n] "
       = "{" ++ "integer" ++ sizeRange lower upper ++ allowed ++ "} " ++ rest
    /\ (forall m, get between5and10 "minimum" = JNum m -> truthy (JNum m) = true ->
                  truthy (get between5and10 "exclusiveMinimum") = true ->
                  lower = JNum (m + 1))
    /\ (forall M, get between5and10 "maximum" = JNum M -> truthy (JNum M) = true ->
                  truthy (get between5and10 "exclusiveMaximum") = true ->
                  upper = JNum (M - 1))
    /\ (truthy (get between5and10 "minimum") = true ->
        truthy (get between5and10 "exclusiveMinimum") = true ->
        plusOne (get between5and10 "minimum") = Ok lower)
    /\ (truthy (get between5and10 "maximum") = true ->
        truthy (get between5and10 "exclusiveMaximum") = true ->
        minusOne (get between5and10 "maximum") = Ok upper)
    /\ (truthy (get between5and10 "minimum") = true ->
        truthy (get between5and10 "exclusiveMinimum") = false ->
        lower = get between5and10 "minimum")
    /\ (truthy (get between5and10 "maximum") = true ->
        truthy (get between5and10 "exclusiveMaximum") = false ->
        upper = get between5and10 "maximum")
    /\ (truthy (get between5and10 "minimum") = false -> lower = JNull)
    /\ (truthy (get between5and10 "maximum") = false -> upper = JNull).
Proof.
  apply (exclusive_bounds_shifted [] "n" between5and10 "integer" 0 (JArr [])
           "{integer{6..9}} [n] " Next).
  - reflexivity.
  - right. reflexivity.
  - reflexivity.
Defined.

(** The numbers of the specification, and numbers beyond the
    integers: half above a half is one and a half, and above [2 ^ 53]
    the sum is the nearest double. *)
Example exclusive_bounds_rendered :
  iterateObjectReqursive [] (JObj [("n", between5and10)]) 0 JUndefined
  = (["{integer{6..9}} [n] "], Normal)
  /\ iterateObjectReqursive []
       (JObj [("x", JObj [("type", JStr "number"); ("minimum", JNum 0.5);
                          ("exclusiveMinimum", JBool true)])]) 0 JUndefined
     = (["{number{1.5..}} [x] "], Normal)
  /\ iterateObjectReqursive []
       (JObj [("x", JObj [("type", JStr "number");
                          ("minimum", JNum 18446744073709551616);
                          ("exclusiveMinimum", JBool true)])]) 0 JUndefined
     = (["{number{18446744073709552000..}} [x] "], Normal).
Proof. repeat split; reflexivity. Qed.

(** C7, as stated, fails where the one bound present is zero: the
    string may not be shorter than 0 and its descriptor has no size
    suffix; with an upper bound beside it the zero is left out of the
    suffix. *)
Lemma zero_bound_no_suffix :
  let item := JObj [("type", JStr "string"); ("minLength", JNum 0)] in
  let both := JObj [("type", JStr "string"); ("minLength", JNum 0);
                    ("maxLength", JNum 5)] in
  get item "minLength" = JNum 0
  /\ iterateObjectReqursive [] (JObj [("s", item)]) 0 JUndefined
     = (["{string} [s] "], Normal)
  /\ iterateObjectReqursive [] (JObj [("s", both)]) 0 JUndefined
     = (["{string{..5}} [s] "], Normal).
Proof. simpl. repeat split; reflexivity. Qed.

(** C7, amended.  The descriptor of a leaf has the type label, then the
    size suffix, then the suffix of the allowed values, the size bounds
    being those of its type: [minLength] and [maxLength] for a string,
    the effective minimum and maximum for a number, [minItems] and
    [maxItems] for an array without [items], none for a boolean.  With
    neither bound truthy (each absent or zero) there is no size suffix;
    with at least one truthy the suffix is [{min..max}], a falsy bound
    written as nothing inside the braces.  An [array] without [items],
    with [minItems] 1 and [maxItems] 3, gets the suffix [{1..3}]. *)
Theorem size_suffix_by_truthiness (acc : list string) (name : string) (item : jsval)
    (type : string) (depth : nat) (req : jsval) (doc : string) (sig : signal) :
  leaf item type ->
  body iterateObjectReqursive acc name item depth req = ((acc ++ [doc])%list, sig) ->
  exists label lower upper allowed rest,
    labelOf type item = Ok label
    /\ boundsOf type item = Ok (lower, upper)
    /\ allowedSuffix (allowedOf type item) = Ok allowed
    /\ (truthy lower = false -> truthy upper = false ->
        doc = "{" ++ label ++ allowed ++ "} " ++ rest)
    /\ (truthy lower = true \/ truthy upper = true ->
        doc = "{" ++ label ++ "{" ++ bound lower ++ ".." ++ bound upper ++ "}"
                  ++ allowed ++ "} " ++ rest)
    /\ (truthy lower = false -> bound lower = EmptyString)
    /\ (truthy upper = false -> bound upper = EmptyString).
Proof.
  intros Hleaf Hbody.
  destruct (leaf_descriptor _ _ _ _ _ _ _ _ _ Hleaf Hbody)
    as [label [lower [upper [allowed [isRequired
          [Hlabel [Hbounds [Hallowed [_ Hdoc]]]]]]]]].
  exists label, lower, upper, allowed. eexists.
  split; [exact Hlabel|]. split; [exact Hbounds|]. split; [exact Hallowed|].
  unfold sizeRange in Hdoc. repeat split.
  - intros Hl Hu. rewrite Hl, Hu in Hdoc. exact Hdoc.
  - intros Hsome.
    assert (Hor : truthy lower || truthy upper = true).
    { destruct Hsome as [-> | ->]; [reflexivity | apply orb_true_r]. }
    rewrite Hor in Hdoc. rewrite Hdoc. rewrite !append_assoc. reflexivity.
  - intros Hl. unfold bound. rewrite Hl. reflexivity.
  - intros Hu. unfold bound. rewrite Hu. reflexivity.
Qed.

Lemma size_suffix_by_truthiness_witness :
  let item := JObj [("type", JStr "array"); ("minItems", JNum 1);
                    ("maxItems", JNum 3)] in
  exists label lower upper allowed rest,
    labelOf "array" item = Ok label
    /\ boundsOf "array" item = Ok (lower, upper)
    /\ allowedSuffix (allowedOf "array" item) = Ok allowed
    /\ (truthy lower = false -> truthy upper = false ->
        "{array{1..3}} [l] " = "{" ++ label ++ allowed ++ "} " ++ rest)
    /\ (truthy lower = true \/ truthy upper = true ->
        "{array{1..3}} [l] "
        = "{" ++ label ++ "{" ++ bound lower ++ ".." ++ bound upper ++ "}"
              ++ allowed ++ "} " ++ rest)
    /\ (truthy lower = false -> bound lower = EmptyString)
    /\ (truthy upper = false -> bound upper = EmptyString).
Proof.
  apply (size_suffix_by_truthiness [] "l"
           (JObj [("type", JStr "array"); ("minItems", JNum 1); ("maxItems", JNum 3)])
           "array" 0 (JArr []) "{array{1..3}} [l] " Return).
  - split; [reflexivity | right; split; reflexivity].
  - reflexivity.
Defined.

(** ** One descriptor for each scalar property *)

Lemma leaf_describes (w : walker) (acc : list string) (name : string) (item : jsval)
    (type : string) (depth : nat) (req : jsval) (doc : string) (sig : signal) :
  leaf item type ->
  body w acc name item depth req = ((acc ++ [doc])%list, sig) ->
  describes depth req (name, item) doc.
Proof.
  intros Hleaf Hbody.
  destruct (leaf_descriptor _ _ _ _ _ _ _ _ _ Hleaf Hbody)
    as [label [lower [upper [allowed [isRequired [_ [_ [_ [Hreq Hdoc]]]]]]]]].
  exists (label ++ sizeRange lower upper ++ allowed), isRequired.
  split; [exact Hreq|]. rewrite Hdoc. simpl. rewrite !append_assoc. reflexivity.
Qed.

(** The turn of a scalar property is one [push] of its descriptor. *)
Lemma scalar_turn (w : walker) (acc : list string) (name : string) (item : jsval)
    (depth : nat) (req : jsval) :
  scalar item ->
  exists doc,
    body w acc name item depth req = push acc doc Next
    /\ forall line, doc = Ok line -> describes depth req (name, item) line.
Proof.
  intros Hscalar. destruct (scalar_leaf item Hscalar) as [type [Hleaf Hnot]].
  pose proof (leaf_turn w acc name item type depth req Hleaf) as Hturn.
  rewrite Hnot in Hturn. eexists. split; [exact Hturn|].
  intros line Hline. rewrite Hline in Hturn. simpl in Hturn.
  eapply leaf_describes; [exact Hleaf | exact Hturn].
Qed.

Lemma turns_scalars (w : walker) (properties : list (string * jsval)) (depth : nat)
    (req : jsval) :
  Forall (fun p => scalar (snd p)) properties ->
  forall acc out,
    turns w acc properties depth req = (out, Normal) ->
    exists docs,
      out = (acc ++ docs)%list
      /\ Forall2 (describes depth req) properties docs.
Proof.
  induction 1 as [|[name item] rest Hitem _ IH]; intros acc out Hwalk.
  - simpl in Hwalk. inversion Hwalk. exists []. rewrite app_nil_r. split; constructor.
  - simpl in Hwalk.
    destruct (scalar_turn w acc name item depth req Hitem) as [doc [Hbody Hdoc]].
    rewrite Hbody in Hwalk. destruct doc as [line|e]; simpl in Hwalk.
    + destruct (IH _ _ Hwalk) as [docs [-> Hdocs]].
      exists (line :: docs). split.
      * rewrite <- app_assoc. reflexivity.
      * constructor; [apply Hdoc; reflexivity | exact Hdocs].
    + discriminate.
Qed.

Lemma walk_returned_plain (l : list (string * jsval)) (depth : nat) (req : jsval)
    (acc out : list string) :
  iterateObjectReqursive acc (JObj l) depth req = (out, Normal) -> plain l.
Proof.
  intros Hwalk. destruct (plain_or_shadowed l) as [H|H]; [exact H|].
  rewrite (walk_shadowed _ _ _ _ H) in Hwalk. discriminate.
Qed.

Lemma scalars_one_each (properties : list (string * jsval)) (depth : nat)
    (req : jsval) :
  Forall (fun p => scalar (snd p)) properties ->
  forall acc out,
    iterateObjectReqursive acc (JObj properties) depth req = (out, Normal) ->
    exists docs,
      out = (acc ++ docs)%list
      /\ Forall2 (describes depth (defaultTo (JArr []) req)) properties docs.
Proof.
  intros Hscalar acc out Hwalk.
  pose proof (walk_returned_plain _ _ _ _ _ Hwalk) as Hplain.
  rewrite (walk_plain _ _ _ _ Hplain) in Hwalk.
  eapply turns_scalars; eassumption.
Qed.

(** C5, as stated, fails where the default is falsy: the default
    [false] of a boolean is present, has the JSON literal [false], and
    is not written after the name.  It fails again at the root of the
    schema, whose list of required names line 171 does not hand to the
    walker: the property [a] is in the list of its parent and its name
    is in brackets. *)
Lemma falsy_default_and_root_required :
  let item := JObj [("type", JStr "boolean"); ("default", JBool false)] in
  get item "default" = JBool false
  /\ stringify (get item "default") = Some "false"
  /\ iterateObjectReqursive [] (JObj [("flag", item)]) 0 JUndefined
     = (["{boolean} [flag] "], Normal)
  /\ extractArgumentsFromSchema
       (JObj [("type", JStr "object");
              ("required", JArr [JStr "a"]);
              ("properties", JObj [("a", JObj [("type", JStr "string")])])])
     = Ok ["{string} [a] "].
Proof.
  simpl. repeat split; reflexivity.
Qed.

(** C5, amended.  The descriptor of a leaf visited under a list of
    required names has, for its name segment, the padded name followed
    by [=] and the JSON literal of the default when the default is
    truthy, the whole in brackets when and only when the name is not in
    the list.  The formatter writes the segment so for whatever it is
    given: the suffix of the default first, the brackets around it.  And
    the properties of a nested object are visited under the list
    [required] of that object, whatever list its parent is visited
    under: each of its scalar properties has its name out of brackets
    exactly when that list holds it. *)
Theorem name_segment_rules (acc : list string) (name : string) (item : jsval)
    (type : string) (depth : nat) (required : list jsval) (doc : string)
    (sig : signal) :
  leaf item type ->
  body iterateObjectReqursive acc name item depth (JArr required)
    = ((acc ++ [doc])%list, sig) ->
  (exists typeE,
      doc = "{" ++ typeE ++ "} "
                ++ nameSegment depth (listed name required) (name, item)
                ++ " " ++ describedAs item)
  /\ (listed name required = true <-> In (JStr name) required)
  /\ (forall field label sizeMin sizeMax allowedValues isRequired defaultValue
             description line,
         createDocParameter field label sizeMin sizeMax allowedValues isRequired
                            defaultValue description = Ok line ->
         exists typeE text,
           line = "{" ++ typeE ++ "} "
                    ++ (if truthy isRequired then
                          if truthy defaultValue
                          then field ++ "=" ++ stringifyText defaultValue
                          else field
                        else
                          if truthy defaultValue
                          then "[" ++ field ++ "=" ++ stringifyText defaultValue ++ "]"
                          else "[" ++ field ++ "]")
                    ++ " " ++ text)
  /\ (forall parent object properties own above acc0 acc1,
         get object "type" = JStr "object" ->
         get object "properties" = JObj properties ->
         get object "required" = JArr own ->
         Forall (fun p => scalar (snd p)) properties ->
         body iterateObjectReqursive acc0 parent object depth above = (acc1, Next) ->
         exists docs,
           acc1 = (acc0 ++ docs)%list
           /\ Forall2 (fun p line =>
                         exists typeE,
                           line = "{" ++ typeE ++ "} "
                                    ++ nameSegment (depth + 1) (listed (fst p) own) p
                                    ++ " " ++ describedAs (snd p))
                      properties docs).
Proof.
  intros Hleaf Hbody. split; [|split; [|split]].
  - destruct (leaf_descriptor _ _ _ _ _ _ _ _ _ Hleaf Hbody)
      as [label [lower [upper [allowed [isRequired [_ [_ [_ [Hreq Hdoc]]]]]]]]].
    rewrite includes_listed in Hreq. inversion Hreq; subst isRequired.
    exists (label ++ sizeRange lower upper ++ allowed).
    rewrite Hdoc, nameExpr_segment. rewrite !append_assoc. reflexivity.
  - apply includes_member.
  - intros field label sizeMin sizeMax allowedValues isRequired defaultValue
           description line Hline.
    apply createDocParameter_parts in Hline. destruct Hline as [allowed [_ Hline]].
    exists (label ++ sizeRange sizeMin sizeMax ++ allowed),
           (toString (orElse description (JStr EmptyString))).
    rewrite Hline. unfold nameExpr.
    destruct (truthy isRequired), (truthy defaultValue); cbn [negb];
      rewrite !append_assoc; reflexivity.
  - intros parent object properties own above acc0 acc1 Hobject Hprops Hown Hscalar
           Hturn.
    unfold body in Hturn. rewrite (read_typed _ _ Hobject) in Hturn.
    simpl in Hturn. rewrite Hprops, Hown in Hturn.
    destruct (iterateObjectReqursive acc0 (JObj properties) (depth + 1) (JArr own))
      as [out [|e]] eqn:Hwalk; [|discriminate].
    inversion Hturn; subst out.
    destruct (scalars_one_each _ _ _ Hscalar _ _ Hwalk) as [docs [-> Hdocs]].
    exists docs. split; [reflexivity|].
    simpl in Hdocs. clear Hwalk Hturn Hscalar Hprops.
    induction Hdocs as [|p line rest docs [typeE [isRequired [Hreq Hline]]] _ IH];
      [constructor|].
    constructor; [|exact IH].
    rewrite includes_listed in Hreq. inversion Hreq; subst isRequired.
    exists typeE. rewrite Hline. destruct p as [field node].
    simpl fst. simpl snd. rewrite nameExpr_segment. reflexivity.
Qed.

Lemma name_segment_rules_witness :
  let item := JObj [("type", JStr "string"); ("default", JStr "x")] in
  (exists typeE,
      "{string} [name=" ++ quoted "x" ++ "] "
      = "{" ++ typeE ++ "} " ++ nameSegment 0 (listed "name" []) ("name", item)
            ++ " " ++ describedAs item)
  /\ nameSegment 0 (listed "name" []) ("name", item) = "[name=" ++ quoted "x" ++ "]"
  /\ iterateObjectReqursive []
       (JObj [("a", JObj [("type", JStr "object");
                          ("properties",
                           JObj [("b", JObj [("type", JStr "string")]);
                                 ("c", JObj [("type", JStr "string");
                                             ("default", JStr "x")])]);
                          ("required", JArr [JStr "b"])])]) 0 JUndefined
     = (["{string} b "; "{string} [c=" ++ quoted "x" ++ "] "], Normal).
Proof.
  split; [|split].
  - apply (name_segment_rules [] "name"
             (JObj [("type", JStr "string"); ("default", JStr "x")])
             "string" 0 [] ("{string} [name=" ++ quoted "x" ++ "] ") Next).
    + split; [reflexivity | left; simpl; tauto].
    + reflexivity.
  - reflexivity.
  - reflexivity.
Defined.

(** * Further properties of the walker and the formatter *)

Lemma forEach_never_returns (w : walker) (values : list jsval) (depth : nat)
    (acc acc' : list string) :
  forEach w acc values depth <> (acc', Return).
Proof.
  revert acc. induction values as [|value rest IH]; intros acc; simpl.
  - discriminate.
  - destruct (w acc value (depth + 1) JUndefined) as [acc1 [|e]].
    + apply IH.
    + discriminate.
Qed.

Lemma push_next_never_returns (acc acc' : list string) (doc : result string) :
  push acc doc Next <> (acc', Return).
Proof. destruct doc; discriminate. Qed.

(** Only the [array] without [items] leaves the walker by [return]. *)
Lemma body_returns_on_array_leaf (w : walker) (acc acc' : list string)
    (name : string) (item : jsval) (depth : nat) (req : jsval) :
  body w acc name item depth req = (acc', Return) -> arrayLeaf item = true.
Proof.
  unfold body, arrayLeaf.
  destruct (read item "type") as [[| | b | n | type | l | l]|e] eqn:Hread;
    try discriminate.
  rewrite (typed_read _ _ Hread).
  destruct (type =? "object").
  { destruct (w acc (get item "properties") (depth + 1) (get item "required"))
      as [acc1 [|e]]; discriminate. }
  destruct (type =? "string").
  { intros H. exfalso. exact (push_next_never_returns _ _ _ H). }
  destruct ((type =? "number") || (type =? "integer")).
  { intros H. exfalso. exact (push_next_never_returns _ _ _ H). }
  destruct (type =? "boolean").
  { intros H. exfalso. exact (push_next_never_returns _ _ _ H). }
  destruct (type =? "array"); [|discriminate].
  destruct (negb (truthy (get item "items"))); [reflexivity|].
  destruct (get item "items"); try discriminate.
  intros H. exfalso. exact (forEach_never_returns _ _ _ _ _ H).
Qed.

(** The turns of two runs of properties are the turns of the first,
    then of the second, when nothing in the first returns. *)
Lemma turns_app (w : walker) (first second : list (string * jsval)) (depth : nat)
    (req : jsval) :
  Forall (fun p => arrayLeaf (snd p) = false) first ->
  forall acc,
    turns w acc (first ++ second) depth req =
    match turns w acc first depth req with
    | (acc', Normal) => turns w acc' second depth req
    | (acc', Thrown e) => (acc', Thrown e)
    end.
Proof.
  induction 1 as [|[name item] first Hitem _ IH]; intros acc; simpl.
  - reflexivity.
  - destruct (body w acc name item depth req) as [acc1 [| |e]] eqn:Hbody.
    + apply IH.
    + apply body_returns_on_array_leaf in Hbody. simpl in Hitem. congruence.
    + reflexivity.
Qed.

Lemma walk_app (first second : list (string * jsval)) (depth : nat) (req : jsval)
    (acc : list string) :
  plain (first ++ second) ->
  Forall (fun p => arrayLeaf (snd p) = false) first ->
  iterateObjectReqursive acc (JObj (first ++ second)) depth req =
  match iterateObjectReqursive [] (JObj first) depth req with
  | (out, Normal) => iterateObjectReqursive (acc ++ out)%list (JObj second) depth req
  | (out, Thrown e) => ((acc ++ out)%list, Thrown e)
  end.
Proof.
  intros Hplain Hfirst.
  pose proof (proj1 (plain_app _ _) Hplain) as [Hp1 Hp2].
  rewrite !walk_plain by assumption.
  rewrite (turns_app _ _ _ _ _ Hfirst).
  rewrite (turns_appends _ iterateObjectReqursive_appends first _ _ acc).
  destruct (turns iterateObjectReqursive [] first depth (defaultTo (JArr []) req))
    as [out [|e]]; simpl; [|reflexivity].
  rewrite (walk_plain second) by assumption. reflexivity.
Qed.

Lemma walk_throwing_property (before after : list (string * jsval)) (name : string)
    (item : jsval) (depth : nat) (req : jsval) (out : list string) (e : exn) :
  plain (before ++ (name, item) :: after) ->
  Forall (fun p => arrayLeaf (snd p) = false) before ->
  iterateObjectReqursive [] (JObj before) depth req = (out, Normal) ->
  (forall acc, body iterateObjectReqursive acc name item depth
                    (defaultTo (JArr []) req) = (acc, Throw e)) ->
  forall acc,
    iterateObjectReqursive acc (JObj (before ++ (name, item) :: after)) depth req =
    ((acc ++ out)%list, Thrown e).
Proof.
  intros Hplain Hbefore Hout Hthrow acc.
  rewrite (walk_app _ _ _ _ _ Hplain Hbefore), Hout.
  rewrite walk_first by (apply (proj1 (plain_app _ _) Hplain)).
  rewrite Hthrow. reflexivity.
Qed.

(** X1. In a mapping without a property named [hasOwnProperty], an
    [object] property gets no descriptor of its own: its [properties]
    are walked at [depth + 1] under its own [required] list, whatever
    list the walk of its parent runs under, and the walk goes on with
    the properties after it, also when the nested walk ended in a
    [return]; an exception of the nested walk ends the walk there. *)
Theorem object_property_walked_nested (acc : list string) (name : string)
    (item : jsval) (rest : list (string * jsval)) (depth : nat) (req : jsval) :
  plain ((name, item) :: rest) ->
  get item "type" = JStr "object" ->
  iterateObjectReqursive acc (JObj ((name, item) :: rest)) depth req =
  match iterateObjectReqursive [] (get item "properties") (depth + 1)
                               (get item "required") with
  | (out, Normal) => iterateObjectReqursive (acc ++ out)%list (JObj rest) depth req
  | (out, Thrown e) => ((acc ++ out)%list, Thrown e)
  end.
Proof.
  intros Hplain Htype. rewrite (walk_first _ _ _ _ _ _ Hplain). unfold body.
  rewrite (read_typed _ _ Htype). simpl.
  rewrite (iterateObjectReqursive_appends acc).
  destruct (iterateObjectReqursive [] (get item "properties") (depth + 1)
              (get item "required")) as [out [|e]]; reflexivity.
Qed.

Lemma object_property_walked_nested_witness :
  iterateObjectReqursive ["{string} [first] "]
    (JObj [("o", JObj [("type", JStr "object");
                       ("properties", JObj [("l", JObj [("type", JStr "array")]);
                                            ("z", JObj [("type", JStr "string")])]);
                       ("required", JArr [JStr "l"])]);
           ("l", JObj [("type", JStr "boolean")])]) 0 (JArr [JStr "o"])
  = (["{string} [first] "; "{array} l "; "{boolean} [l] "], Normal).
Proof.
  rewrite (object_property_walked_nested ["{string} [first] "] "o"
             (JObj [("type", JStr "object");
                    ("properties", JObj [("l", JObj [("type", JStr "array")]);
                                         ("z", JObj [("type", JStr "string")])]);
                    ("required", JArr [JStr "l"])])
             [("l", JObj [("type", JStr "boolean")])] 0 (JArr [JStr "o"])
             eq_refl eq_refl).
  reflexivity.
Defined.

(** X2. In a mapping without a property named [hasOwnProperty], an
    [array] property whose [items] is truthy and not a sequence (a
    single schema, as JSON Schema mostly writes it) makes the walker
    throw a TypeError: the descriptors of the properties before it stay
    in the accumulator, nothing is added for it, and the properties
    after it are not visited. *)
Theorem items_not_a_sequence_throws (before after : list (string * jsval))
    (name : string) (item : jsval) (depth : nat) (req : jsval)
    (out acc : list string) :
  plain (before ++ (name, item) :: after) ->
  Forall (fun p => arrayLeaf (snd p) = false) before ->
  iterateObjectReqursive [] (JObj before) depth req = (out, Normal) ->
  get item "type" = JStr "array" ->
  truthy (get item "items") = true ->
  (forall values, get item "items" <> JArr values) ->
  iterateObjectReqursive acc (JObj (before ++ (name, item) :: after)) depth req =
  ((acc ++ out)%list, Thrown TypeError).
Proof.
  intros Hplain Hbefore Hout Htype Htruthy Hnoseq.
  apply walk_throwing_property; try assumption.
  intros acc'. unfold body. rewrite (read_typed _ _ Htype). simpl.
  rewrite Htruthy. simpl.
  destruct (get item "items") as [| | b | n | s | values | l]; try reflexivity.
  exfalso. exact (Hnoseq values eq_refl).
Qed.

Lemma items_not_a_sequence_throws_witness :
  iterateObjectReqursive []
    (JObj ([("id", JObj [("type", JStr "integer")])]
           ++ ("tags", JObj [("type", JStr "array");
                             ("items", JObj [("type", JStr "string")])])
           :: [("name", JObj [("type", JStr "string")])])) 0 JUndefined
  = (["{integer} [id] "], Thrown TypeError).
Proof.
  apply (items_not_a_sequence_throws
           [("id", JObj [("type", JStr "integer")])]
           [("name", JObj [("type", JStr "string")])]
           "tags" (JObj [("type", JStr "array");
                         ("items", JObj [("type", JStr "string")])])
           0 JUndefined ["{integer} [id] "] []).
  - reflexivity.
  - repeat constructor.
  - reflexivity.
  - reflexivity.
  - reflexivity.
  - intros values H. discriminate H.
Defined.

(** X3. In a mapping without a property named [hasOwnProperty], a
    property whose value is [null] makes the walker throw a TypeError at
    line 97, with the descriptors of the properties before it in the
    accumulator and the properties after it not visited. *)
Theorem null_property_throws (before after : list (string * jsval))
    (name : string) (depth : nat) (req : jsval) (out acc : list string) :
  plain (before ++ (name, JNull) :: after) ->
  Forall (fun p => arrayLeaf (snd p) = false) before ->
  iterateObjectReqursive [] (JObj before) depth req = (out, Normal) ->
  iterateObjectReqursive acc (JObj (before ++ (name, JNull) :: after)) depth req =
  ((acc ++ out)%list, Thrown TypeError).
Proof.
  intros Hplain Hbefore Hout.
  apply walk_throwing_property; try assumption.
  intros acc'. reflexivity.
Qed.

Lemma null_property_throws_witness :
  iterateObjectReqursive []
    (JObj ([("a", JObj [("type", JStr "string")])]
           ++ ("b", JNull) :: [("c", JObj [("type", JStr "string")])])) 0 JUndefined
  = (["{string} [a] "], Thrown TypeError).
Proof.
  apply (null_property_throws [("a", JObj [("type", JStr "string")])]
           [("c", JObj [("type", JStr "string")])] "b" 0 JUndefined
           ["{string} [a] "] []).
  - reflexivity.
  - repeat constructor.
  - reflexivity.
Defined.

(** X4. Descriptors come in the order of the mapping: in a mapping
    without a property named [hasOwnProperty], the walk of the mapping
    cut in two is the walk of the first part, then, unless that threw,
    the walk of the second part on the accumulator the first left,
    provided no property of the first part is an [array] without
    [items]. *)
Theorem walk_in_document_order (first second : list (string * jsval))
    (depth : nat) (req : jsval) (acc : list string) :
  plain (first ++ second) ->
  Forall (fun p => arrayLeaf (snd p) = false) first ->
  iterateObjectReqursive acc (JObj (first ++ second)) depth req =
  match iterateObjectReqursive [] (JObj first) depth req with
  | (out, Normal) => iterateObjectReqursive (acc ++ out)%list (JObj second) depth req
  | (out, Thrown e) => ((acc ++ out)%list, Thrown e)
  end.
Proof. apply walk_app. Qed.

Lemma walk_in_document_order_witness :
  iterateObjectReqursive ["{boolean} [z] "]
    (JObj ([("a", JObj [("type", JStr "string")]);
            ("b", JObj [("type", JStr "object");
                        ("properties", JObj [("c", JObj [("type", JStr "number")])])])]
           ++ [("d", JObj [("type", JStr "boolean")])])) 0 JUndefined
  = (["{boolean} [z] "; "{string} [a] "; "{number} [c] "; "{boolean} [d] "], Normal).
Proof.
  rewrite (walk_in_document_order
             [("a", JObj [("type", JStr "string")]);
              ("b", JObj [("type", JStr "object");
                          ("properties", JObj [("c", JObj [("type", JStr "number")])])])]
             [("d", JObj [("type", JStr "boolean")])] 0 JUndefined
             ["{boolean} [z] "]).
  - reflexivity.
  - reflexivity.
  - repeat constructor.
Defined.

(** X5. In a mapping without a property named [hasOwnProperty], an
    [array] property without [items] ends the walk of its mapping
    wherever it stands: the properties after it make no difference to
    the outcome. *)
Theorem array_without_items_ends_walk (before after : list (string * jsval))
    (name : string) (item : jsval) (depth : nat) (req : jsval) (acc : list string) :
  plain (before ++ (name, item) :: after) ->
  get item "type" = JStr "array" ->
  truthy (get item "items") = false ->
  iterateObjectReqursive acc (JObj (before ++ (name, item) :: after)) depth req =
  iterateObjectReqursive acc (JObj (before ++ [(name, item)])) depth req.
Proof.
  intros Hplain Htype Hitems.
  assert (Hshort : plain (before ++ [(name, item)])).
  { apply plain_app in Hplain. destruct Hplain as [Hb Ha].
    apply plain_app. split; [exact Hb|].
    unfold plain in *. simpl in *. apply orb_false_iff in Ha.
    destruct Ha as [-> _]. reflexivity. }
  rewrite !walk_plain by assumption.
  apply turns_end_at_array_leaf; assumption.
Qed.

Lemma array_without_items_ends_walk_witness :
  iterateObjectReqursive []
    (JObj ([("a", JObj [("type", JStr "string")])]
           ++ ("l", JObj [("type", JStr "array"); ("maxItems", JNum 2)])
           :: [("b", JObj [("type", JStr "string")]); ("c", JNull)])) 0 JUndefined
  = (["{string} [a] "; "{array{..2}} [l] "], Normal).
Proof.
  rewrite (array_without_items_ends_walk
             [("a", JObj [("type", JStr "string")])]
             [("b", JObj [("type", JStr "string")]); ("c", JNull)]
             "l" (JObj [("type", JStr "array"); ("maxItems", JNum 2)])
             0 JUndefined [] eq_refl eq_refl eq_refl).
  reflexivity.
Defined.

(** X6. A mapping of scalar properties ([string], [number], [integer],
    [boolean]) whose walk returns yields exactly one descriptor for each
    property, in the order of the mapping: the descriptor carries the
    padded name of its property, wrapped by its membership in the
    required list of the call, its default, and its title or else its
    description. *)
Theorem scalar_properties_one_descriptor_each (properties : list (string * jsval))
    (depth : nat) (req : jsval) (acc out : list string) :
  Forall (fun p => scalar (snd p)) properties ->
  iterateObjectReqursive acc (JObj properties) depth req = (out, Normal) ->
  exists docs,
    out = (acc ++ docs)%list
    /\ List.length docs = List.length properties
    /\ Forall2 (describes depth (defaultTo (JArr []) req)) properties docs.
Proof.
  intros Hscalar Hwalk.
  destruct (scalars_one_each _ _ _ Hscalar _ _ Hwalk) as [docs [Hout Hdocs]].
  exists docs. repeat split; try assumption.
  symmetry. eapply Forall2_length. exact Hdocs.
Qed.

Lemma scalar_properties_one_descriptor_each_witness :
  exists docs,
    ["{string{..9}} code Short code"; "{integer} [n=3] "] = ([] ++ docs)%list
    /\ List.length docs = 2
    /\ Forall2 (describes 0 (JArr [JStr "code"]))
         [("code", JObj [("type", JStr "string"); ("maxLength", JNum 9);
                         ("title", JStr "Short code");
                         ("description", JStr "unused")]);
          ("n", JObj [("type", JStr "integer"); ("default", JNum 3)])]
         docs.
Proof.
  apply (scalar_properties_one_descriptor_each
           [("code", JObj [("type", JStr "string"); ("maxLength", JNum 9);
                           ("title", JStr "Short code");
                           ("description", JStr "unused")]);
            ("n", JObj [("type", JStr "integer"); ("default", JNum 3)])]
           0 (JArr [JStr "code"]) []).
  - repeat constructor.
    + exists "string". split; [simpl; tauto | reflexivity].
    + exists "integer". split; [simpl; tauto | reflexivity].
  - reflexivity.
Defined.

Lemma padStart_zero (name : string) : padStart name 0 = name.
Proof. reflexivity. Qed.

(** X7. The entry point never passes the schema's own [required] list
    on: in the descriptors of a schema of scalar properties every name
    is in brackets, whatever that list holds. *)
Theorem top_level_properties_never_required (schema : jsval)
    (properties : list (string * jsval)) (out : list string) :
  get schema "properties" = JObj properties ->
  Forall (fun p => scalar (snd p)) properties ->
  extractArgumentsFromSchema schema = Ok out ->
  Forall2 (fun p doc =>
             exists type suffix,
               doc = "{" ++ type ++ "} [" ++ fst p ++ suffix ++ "] "
                         ++ describedAs (snd p))
          properties out.
Proof.
  intros Hprops Hscalar Hout.
  unfold extractArgumentsFromSchema, extractArgumentsRun in Hout.
  destruct schema as [| | b | n | s | l | fields]; simpl in Hprops; try discriminate.
  simpl in Hout.
  destruct (truthy (lookup "allOf" fields)); [discriminate|].
  rewrite Hprops in Hout.
  destruct (iterateObjectReqursive [] (JObj properties) 0 JUndefined)
    as [items [|e]] eqn:Hwalk; [|discriminate].
  inversion Hout; subst items.
  destruct (scalars_one_each _ _ _ Hscalar _ _ Hwalk) as [docs [-> Hdocs]].
  simpl. clear Hwalk Hout Hscalar Hprops.
  induction Hdocs as [|p doc rest docs [type [isRequired [Hreq Hdoc]]] _ IH];
    [constructor|].
  constructor; [|exact IH].
  simpl in Hreq. inversion Hreq; subst isRequired.
  rewrite padStart_zero in Hdoc. unfold nameExpr in Hdoc. simpl in Hdoc.
  destruct (truthy (get (snd p) "default")).
  - exists type, ("=" ++ stringifyText (get (snd p) "default")).
    rewrite Hdoc. simpl. rewrite !append_assoc. reflexivity.
  - exists type, EmptyString.
    rewrite Hdoc. simpl. rewrite !append_assoc. reflexivity.
Qed.

Lemma top_level_properties_never_required_witness :
  Forall2 (fun p doc =>
             exists type suffix,
               doc = "{" ++ type ++ "} [" ++ fst p ++ suffix ++ "] "
                         ++ describedAs (snd p))
          [("id", JObj [("type", JStr "integer"); ("default", JNum 1)])]
          ["{integer} [id=1] "].
Proof.
  apply (top_level_properties_never_required
           (JObj [("type", JStr "object");
                  ("required", JArr [JStr "id"]);
                  ("properties",
                   JObj [("id", JObj [("type", JStr "integer");
                                      ("default", JNum 1)])])])).
  - reflexivity.
  - repeat constructor. exists "integer". split; [simpl; tauto | reflexivity].
  - reflexivity.
Defined.

(** ** The shape of every descriptor *)

Lemma reaches_default (obj : jsval) (name : string) (item : jsval) :
  reaches (defaultTo (JObj []) obj) name item -> reaches obj name item.
Proof.
  destruct obj; simpl; auto.
  intros H. inversion H; simpl in *; contradiction.
Qed.

Lemma typed_within (obj inner : jsval) (doc : string) :
  (forall name item, reaches inner name item -> reaches obj name item) ->
  typed inner doc -> typed obj doc.
Proof.
  intros Hsub [name [item [type [depth [required [rest [Hreach H]]]]]]].
  exists name, item, type, depth, required, rest. split; [auto | exact H].
Qed.

Section Shape.

Variable w : walker.
Hypothesis w_adds : adds w.

Lemma forEach_adds (values : list jsval) (depth : nat) (acc : list string) :
  exists new,
    fst (forEach w acc values depth) = (acc ++ new)%list
    /\ Forall (fun doc => exists value, In value values /\ typed value doc) new.
Proof.
  revert acc. induction values as [|value rest IH]; intros acc; simpl.
  - exists []. rewrite app_nil_r. split; constructor.
  - destruct (w_adds acc value (depth + 1) JUndefined) as [new [Hnew Htyped]].
    destruct (w acc value (depth + 1) JUndefined) as [acc' [|e]]; simpl in Hnew;
      subst acc'.
    + destruct (IH (acc ++ new)%list) as [more [Hmore Hrest]].
      exists (new ++ more)%list. rewrite Hmore, app_assoc. split; [reflexivity|].
      apply Forall_app. split.
      * eapply Forall_impl; [|exact Htyped]. intros doc Hdoc.
        exists value. split; [left; reflexivity | exact Hdoc].
      * eapply Forall_impl; [|exact Hrest]. intros doc [v [Hin Hdoc]].
        exists v. split; [right; exact Hin | exact Hdoc].
    + exists new. split; [reflexivity|].
      eapply Forall_impl; [|exact Htyped]. intros doc Hdoc.
      exists value. split; [left; reflexivity | exact Hdoc].
Qed.

Lemma push_adds (obj : jsval) (acc : list string) (name : string) (item : jsval)
    (type : string) (depth : nat) (req : jsval) :
  In (name, item) (forIn obj) ->
  leaf item type ->
  exists new,
    fst (body w acc name item depth req) = (acc ++ new)%list
    /\ Forall (typed obj) new.
Proof.
  intros Hin Hleaf.
  pose proof (leaf_turn w acc name item type depth req Hleaf) as Hturn.
  match type of Hturn with
  | _ = push acc ?d ?s => destruct d as [line|e]
  end; simpl in Hturn; rewrite Hturn; simpl.
  - exists [line]. split; [reflexivity|]. constructor; [|constructor].
    destruct (leaf_descriptor _ _ _ _ _ _ _ _ _ Hleaf Hturn)
      as [label [lower [upper [allowed [isRequired
            [Hlabel [_ [_ [_ Hdoc]]]]]]]]].
    destruct Hleaf as [Htype Hkind].
    destruct (label_opens _ _ _ Htype Hlabel) as [rest ->].
    exists name, item, type, depth, isRequired,
           (rest ++ sizeRange lower upper ++ allowed).
    split; [apply reaches_property; exact Hin|].
    split; [split; assumption|].
    rewrite Hdoc. rewrite !append_assoc. reflexivity.
  - exists []. rewrite app_nil_r. split; constructor.
Qed.

Lemma body_adds (obj : jsval) (acc : list string) (name : string) (item : jsval)
    (depth : nat) (req : jsval) :
  In (name, item) (forIn obj) ->
  exists new,
    fst (body w acc name item depth req) = (acc ++ new)%list
    /\ Forall (typed obj) new.
Proof.
  intros Hin.
  assert (Hnothing : exists new : list string,
             acc = (acc ++ new)%list /\ Forall (typed obj) new).
  { exists []. rewrite app_nil_r. split; constructor. }
  destruct (read item "type") as [[| | b | n | type | l | l]|e] eqn:Hread;
    try (unfold body; rewrite Hread; exact Hnothing).
  pose proof (typed_read _ _ Hread) as Htype.
  destruct (String.eqb_spec type "object") as [->|Hobject].
  { unfold body. rewrite Hread. simpl.
    destruct (w_adds acc (get item "properties") (depth + 1) (get item "required"))
      as [new [Hnew Htyped]].
    destruct (w acc (get item "properties") (depth + 1) (get item "required"))
      as [acc' [|e]]; simpl in *; subst acc'; exists new;
      (split; [reflexivity|]);
      (eapply Forall_impl; [|exact Htyped]); intros doc Hdoc;
      (eapply typed_within; [|exact Hdoc]); intros n' i' Hreach;
      eapply reaches_nested; eassumption. }
  destruct (in_dec string_dec type scalarTypes) as [Hscalar|Hnot].
  { apply (push_adds obj acc name item type); [exact Hin|].
    split; [exact Htype | left; exact Hscalar]. }
  assert (Hs : (type =? "string") = false
               /\ (type =? "number") = false
               /\ (type =? "integer") = false
               /\ (type =? "boolean") = false).
  { repeat split; apply String.eqb_neq; intros ->; apply Hnot; simpl; tauto. }
  destruct Hs as [Hs1 [Hs2 [Hs3 Hs4]]].
  destruct (String.eqb_spec type "array") as [->|Harray].
  - destruct (truthy (get item "items")) eqn:Hitems.
    + unfold body. rewrite Hread. simpl. rewrite Hitems. simpl.
      destruct (get item "items") as [| | b | n | s | values | l] eqn:Hvalues;
        try exact Hnothing.
      destruct (forEach_adds values depth acc) as [new [Hnew Htyped]].
      exists new. split; [exact Hnew|].
      eapply Forall_impl; [|exact Htyped]. intros doc [value [Hvalue Hdoc]].
      eapply typed_within; [|exact Hdoc]. intros n' i' Hreach.
      eapply reaches_member; eassumption.
    + apply (push_adds obj acc name item "array"); [exact Hin|].
      split; [exact Htype | right; split; [reflexivity | exact Hitems]].
  - unfold body. rewrite Hread.
    apply String.eqb_neq in Hobject. apply String.eqb_neq in Harray.
    rewrite Hobject, Hs1, Hs2, Hs3, Hs4, Harray. exact Hnothing.
Qed.

Lemma loop_adds (obj : jsval) (properties : list (string * jsval)) (depth : nat)
    (req : jsval) :
  incl properties (forIn obj) ->
  forall acc,
    exists new,
      fst (loop w obj acc properties depth req) = (acc ++ new)%list
      /\ Forall (typed obj) new.
Proof.
  induction properties as [|[name item] rest IH]; intros Hincl acc; simpl.
  - exists []. rewrite app_nil_r. split; constructor.
  - destruct (hasOwnProperty obj name) as [[|]|e];
      try (exists []; rewrite app_nil_r; split; constructor).
    destruct (body_adds obj acc name item depth req) as [new [Hnew Htyped]];
      [apply Hincl; left; reflexivity|].
    destruct (body w acc name item depth req) as [acc' [| |e]]; simpl in Hnew;
      subst acc'; try (exists new; split; [reflexivity | exact Htyped]).
    destruct (IH (fun p Hp => Hincl p (or_intror Hp)) (acc ++ new)%list)
      as [more [Hmore Hrest]].
    exists (new ++ more)%list. rewrite Hmore, app_assoc. split; [reflexivity|].
    apply Forall_app. split; assumption.
Qed.

End Shape.

Lemma iterateBounded_adds (fuel : nat) : adds (iterateBounded fuel).
Proof.
  induction fuel as [|fuel IH]; intros acc obj depth req; simpl.
  - exists []. rewrite app_nil_r. split; constructor.
  - destruct (loop_adds _ IH (defaultTo (JObj []) obj)
                (forIn (defaultTo (JObj []) obj)) depth (defaultTo (JArr []) req)
                (incl_refl _) acc) as [new [Hnew Htyped]].
    exists new. split; [exact Hnew|].
    eapply Forall_impl; [|exact Htyped]. intros doc Hdoc.
    eapply typed_within; [|exact Hdoc]. apply reaches_default.
Qed.

(** X8. Every descriptor the transformation returns is the descriptor
    of a leaf the walker reaches in the properties of the schema (a
    property, at any nesting, of type [string], [number], [integer] or
    [boolean], or an [array] without [items]): it opens with a brace and
    the type of that leaf, and goes on after the type expression with
    the name of that leaf, its default and its description.  The walker
    adds nothing else to any accumulator it is started on, at any depth
    and nesting. *)
Theorem descriptors_open_with_type (schema : jsval) (out : list string) :
  extractArgumentsFromSchema schema = Ok out ->
  Forall (typed (get schema "properties")) out
  /\ adds iterateObjectReqursive.
Proof.
  intros Hout.
  assert (Hwalk : adds iterateObjectReqursive).
  { intros acc obj depth req. unfold iterateObjectReqursive.
    apply iterateBounded_adds. }
  split; [|exact Hwalk].
  unfold extractArgumentsFromSchema, extractArgumentsRun in Hout.
  destruct (read schema "allOf") as [allOf|e]; [|discriminate].
  destruct (truthy allOf); [discriminate|].
  destruct (Hwalk [] (get schema "properties") 0 JUndefined) as [new [Hnew Htyped]].
  destruct (iterateObjectReqursive [] (get schema "properties") 0 JUndefined)
    as [items [|e]]; [|discriminate].
  inversion Hout; subst. simpl in Hnew. subst. exact Htyped.
Qed.

Lemma descriptors_open_with_type_witness :
  Forall (typed sampleProperties)
    ["{integer{1..}} [id] "; "{string{..40}} name "; "{string} [label] "]
  /\ adds iterateObjectReqursive.
Proof.
  apply (descriptors_open_with_type
           (JObj [("type", JStr "object"); ("properties", sampleProperties)])).
  reflexivity.
Defined.

(** ** Where the formatter throws *)

Lemma each_raises {A B : Type} (f : A -> result B) (l : list A) (e : exn) :
  each f l = Raise e -> exists a, In a l /\ f a = Raise e.
Proof.
  induction l as [|a t IH]; simpl; [discriminate|].
  destruct (f a) as [b|e'] eqn:Ha; simpl.
  - fold (each f t). destruct (each f t) as [bs|e''] eqn:Ht; simpl; [discriminate|].
    intros H. inversion H; subst e''.
    destruct (IH eq_refl) as [x [Hin Hx]]. exists x. split; [right; exact Hin | exact Hx].
  - intros H. inversion H; subst e'. exists a. split; [left; reflexivity | exact Ha].
Qed.

(** The conversion to text throws nothing but a TypeError. *)
Lemma toText_raises (n : nat) :
  forall v e, height v < n -> toText v = Raise e -> e = TypeError.
Proof.
  induction n as [|n IH]; intros v e Hn; [lia|].
  destruct v as [| | [|] | x | s | l | l]; simpl; try discriminate.
  - intros H. unfold bind in H.
    match type of H with
    | match ?r with _ => _ end = _ => destruct r as [members|e'] eqn:Heach
    end; [discriminate|].
    inversion H; subst e'.
    apply each_raises in Heach. destruct Heach as [x [Hin Hx]].
    pose proof (height_member _ _ Hin) as Hlt.
    apply (IH x e); [lia|].
    destruct x; try discriminate; exact Hx.
  - destruct (owns "toString" l); [|discriminate].
    intros H. inversion H. reflexivity.
Qed.

Lemma toText_cases (v : jsval) :
  (convertible v = true /\ exists s, toText v = Ok s)
  \/ (convertible v = false /\ toText v = Raise TypeError).
Proof.
  unfold convertible. destruct (toText v) as [s|e] eqn:H.
  - left. split; [reflexivity | exists s; reflexivity].
  - right. split; [reflexivity|].
    rewrite (toText_raises (S (height v)) v e); [reflexivity | lia | exact H].
Qed.

Lemma joinMember_cases (v : jsval) :
  (convertible v = true /\ exists s, joinMember v = Ok s)
  \/ (convertible v = false /\ joinMember v = Raise TypeError).
Proof.
  destruct (toText_cases v) as [[Hc [s Hs]]|[Hc Hr]].
  - left. split; [exact Hc|]. destruct v; simpl; eauto.
  - right. split; [exact Hc|]. destruct v; try discriminate; exact Hr.
Qed.

Lemma each_joinMember_cases (l : list jsval) :
  (forallb convertible l = true /\ exists members, each joinMember l = Ok members)
  \/ (forallb convertible l = false /\ each joinMember l = Raise TypeError).
Proof.
  induction l as [|v t IH]; simpl.
  - left. split; [reflexivity | exists []; reflexivity].
  - fold (each joinMember t).
    destruct (joinMember_cases v) as [[Hc [s Hs]]|[Hc Hr]]; rewrite Hc; simpl.
    + rewrite Hs. simpl.
      destruct IH as [[Hall [members Hm]]|[Hall Hm]]; rewrite Hall, Hm; simpl.
      * left. split; [reflexivity | eexists; reflexivity].
      * right. split; reflexivity.
    + right. split; [reflexivity|]. rewrite Hr. reflexivity.
Qed.

Lemma sizeSuffix_cases (sizeMin sizeMax : jsval) :
  (negb (truthy sizeMin || truthy sizeMax)
   || (convertible (orElse sizeMin (JStr EmptyString))
       && convertible (orElse sizeMax (JStr EmptyString))) = true
   /\ exists s, sizeSuffix sizeMin sizeMax = Ok s)
  \/ (negb (truthy sizeMin || truthy sizeMax)
      || (convertible (orElse sizeMin (JStr EmptyString))
          && convertible (orElse sizeMax (JStr EmptyString))) = false
      /\ sizeSuffix sizeMin sizeMax = Raise TypeError).
Proof.
  unfold sizeSuffix. destruct (truthy sizeMin || truthy sizeMax); simpl.
  - destruct (toText_cases (orElse sizeMin (JStr EmptyString)))
      as [[-> [a ->]]|[-> ->]]; simpl; [|right; split; reflexivity].
    destruct (toText_cases (orElse sizeMax (JStr EmptyString)))
      as [[-> [b ->]]|[-> ->]]; simpl; [|right; split; reflexivity].
    left. split; [reflexivity | eexists; reflexivity].
  - left. split; [reflexivity | eexists; reflexivity].
Qed.

Lemma allowedSuffix_cases (allowedValues : jsval) :
  (negb (truthy allowedValues)
   || match allowedValues with
      | JStr _ => true
      | JArr members => forallb convertible (filter keepAllowed members)
      | _ => false
      end = true
   /\ exists s, allowedSuffix allowedValues = Ok s)
  \/ (negb (truthy allowedValues)
      || match allowedValues with
         | JStr _ => true
         | JArr members => forallb convertible (filter keepAllowed members)
         | _ => false
         end = false
      /\ allowedSuffix allowedValues = Raise TypeError).
Proof.
  unfold allowedSuffix. destruct (truthy allowedValues) eqn:Htruthy; simpl.
  - destruct allowedValues as [| | b | n | s | l | l];
      try (right; split; reflexivity).
    + left. split; [reflexivity | eexists; reflexivity].
    + destruct (each_joinMember_cases (filter keepAllowed l))
        as [[-> [members ->]]|[-> ->]]; simpl.
      * left. split; [reflexivity | eexists; reflexivity].
      * right. split; reflexivity.
  - left. split; [reflexivity | eexists; reflexivity].
Qed.

Lemma createDocParameter_renders (name type : string)
    (sizeMin sizeMax allowedValues isRequired defaultValue description : jsval) :
  (renders sizeMin sizeMax allowedValues description = true
   /\ exists doc, createDocParameter name type sizeMin sizeMax allowedValues
                    isRequired defaultValue description = Ok doc)
  \/ (renders sizeMin sizeMax allowedValues description = false
      /\ createDocParameter name type sizeMin sizeMax allowedValues
           isRequired defaultValue description = Raise TypeError).
Proof.
  unfold renders, createDocParameter, typeExpr.
  destruct (sizeSuffix_cases sizeMin sizeMax) as [[-> [size ->]]|[-> ->]]; simpl;
    [|right; split; reflexivity].
  destruct (allowedSuffix_cases allowedValues) as [[-> [suffix ->]]|[-> ->]]; simpl;
    [|right; split; reflexivity].
  destruct (toText_cases (orElse description (JStr EmptyString)))
    as [[-> [text ->]]|[-> ->]]; simpl.
  - left. split; [reflexivity | eexists; reflexivity].
  - right. split; reflexivity.
Qed.

(** X9. The formatter throws nothing but a TypeError, and throws it
    exactly when the allowed values are a truthy value that is neither a
    string nor an array (a number other than zero, [true], an object),
    or when a value it writes as text does not convert: a truthy size
    bound, a member of the allowed values that [filter] keeps, or the
    description, that is or holds an object with a property named
    [toString].  On every other input it returns a descriptor. *)
Theorem createDocParameter_throws_iff (name type : string)
    (sizeMin sizeMax allowedValues isRequired defaultValue description : jsval)
    (e : exn) :
  (createDocParameter name type sizeMin sizeMax allowedValues isRequired
                      defaultValue description = Raise e
   <-> e = TypeError
       /\ renders sizeMin sizeMax allowedValues description = false)
  /\ ((exists doc, createDocParameter name type sizeMin sizeMax allowedValues
                     isRequired defaultValue description = Ok doc)
      <-> renders sizeMin sizeMax allowedValues description = true).
Proof.
  destruct (createDocParameter_renders name type sizeMin sizeMax allowedValues
              isRequired defaultValue description) as [[Hr [doc Hdoc]]|[Hr Hraise]].
  - rewrite Hdoc, Hr. split; split.
    + discriminate.
    + intros [_ H]. discriminate H.
    + reflexivity.
    + intros _. exists doc. reflexivity.
  - rewrite Hraise, Hr. split; split.
    + intros H. inversion H. split; reflexivity.
    + intros [-> _]. reflexivity.
    + intros [doc H]. discriminate H.
    + discriminate.
Qed.

(** An enumeration with an object that hides [toString] makes the
    formatter throw; without it the formatter writes the members. *)
Example enum_member_without_text :
  createDocParameter "n" "integer" JNull JNull
    (JArr [JNum 1; JObj [("toString", JNum 1)]]) (JBool true) JNull JNull
  = Raise TypeError
  /\ createDocParameter "n" "integer" JNull JNull
       (JArr [JNum 1; JObj [("text", JNum 1)]]) (JBool true) JNull JNull
     = Ok ("{integer=" ++ quoted "1,[object Object]" ++ "} n ").
Proof. split; reflexivity. Qed.

(** X10. An enumeration of strings is written with every member, in
    order, joined by commas inside one pair of quotes: [filter] keeps
    each string, the empty one too, and the quotes its callback puts
    around a member are not written. *)
Theorem string_enum_joined (members : list string) :
  allowedSuffix (JArr (map JStr members)) = Ok ("=" ++ quoted (join "," members)).
Proof.
  unfold allowedSuffix. cbn [truthy].
  rewrite filter_all.
  - rewrite each_strings. reflexivity.
  - apply Forall_forall. intros value Hin. apply in_map_iff in Hin.
    destruct Hin as [s [<- _]]. reflexivity.
Qed.

(** * Properties of the loader and of the hook *)

Lemma resolveReferences_cwd (env : node) (cwd realPath : string) (source : jsval) :
  chdir env cwd = None ->
  fst (resolveReferences env cwd realPath source) = cwd.
Proof.
  intros Hback. unfold resolveReferences.
  destruct (loadSchemaReferences env cwd source) as [[schema|err] after];
    [reflexivity|].
  destruct (negb (isENOENT err)); [reflexivity|].
  destruct (chdir env (dirname env realPath)); [reflexivity|].
  rewrite Hback. reflexivity.
Qed.

(** X11. Loading a schema leaves the process in the working directory
    it started in, whether the load returns or throws and whether or not
    the references were resolved a second time from the directory of
    the schema, as long as the process can enter that starting directory
    again. *)
Theorem safeLoadSchema_restores_cwd (env : node) (cwd schemaPath : string) :
  chdir env cwd = None ->
  fst (safeLoadSchema env cwd schemaPath) = cwd.
Proof.
  intros Hback. unfold safeLoadSchema.
  destruct (negb (existsSync env (resolve env (trim schemaPath)))); [reflexivity|].
  destruct (loadSource env (resolve env (trim schemaPath))) as [[source|e]|];
    try reflexivity.
  pose proof (resolveReferences_cwd env cwd (resolve env (trim schemaPath)) source
                Hback) as Hcwd.
  destruct (resolveReferences env cwd (resolve env (trim schemaPath)) source)
    as [cwd' [schema|e]]; simpl in Hcwd; subst cwd'; [|reflexivity].
  destruct (read schema "type") as [[| | b | n | type | l | l]|e]; try reflexivity.
  destruct (type =? "object"); reflexivity.
Qed.

Lemma safeLoadSchema_restores_cwd_witness :
  safeLoadSchema (relativeReference (JObj [("type", JStr "object")]))
                 "/work" " schemas/user.json"
  = ("/work", Returned (JObj [("type", JStr "object")]))
  /\ fst (safeLoadSchema (relativeReference (JObj [("type", JStr "array")]))
                         "/work" " schemas/user.json") = "/work".
Proof.
  split.
  - reflexivity.
  - apply (safeLoadSchema_restores_cwd
             (relativeReference (JObj [("type", JStr "array")]))).
    reflexivity.
Defined.

(** X12. What the loader returns is a schema whose root has the type
    [object], read from a file that exists and whose extension is one of
    [.yaml], [.yml], [.json] and [.js]. *)
Theorem safeLoadSchema_returns_object (env : node) (cwd schemaPath : string)
    (schema : jsval) :
  snd (safeLoadSchema env cwd schemaPath) = Returned schema ->
  get schema "type" = JStr "object"
  /\ existsSync env (resolve env (trim schemaPath)) = true
  /\ In (extname env (resolve env (trim schemaPath)))
        [".yaml"; ".yml"; ".json"; ".js"].
Proof.
  unfold safeLoadSchema.
  destruct (existsSync env (resolve env (trim schemaPath))) eqn:Hexists; simpl;
    [|discriminate].
  unfold loadSource.
  set (ext := extname env (resolve env (trim schemaPath))).
  assert (Hext : forall known, (ext =? known) = true -> ext = known).
  { intros known. apply String.eqb_eq. }
  intros Hload.
  assert (Hin : In ext [".yaml"; ".yml"; ".json"; ".js"]).
  { simpl.
    destruct (ext =? ".yaml") eqn:H1; [left; symmetry; auto|].
    destruct (ext =? ".yml") eqn:H2; [right; left; symmetry; auto|].
    destruct (ext =? ".json") eqn:H3; [right; right; left; symmetry; auto|].
    destruct (ext =? ".js") eqn:H4; [right; right; right; left; symmetry; auto|].
    simpl in Hload. discriminate. }
  split; [|split; [reflexivity | exact Hin]].
  destruct (if (ext =? ".yaml") || (ext =? ".yml")
            then Some (readYaml env (resolve env (trim schemaPath)))
            else if (ext =? ".json") || (ext =? ".js")
                 then Some (requireFile env (resolve env (trim schemaPath)))
                 else None) as [[source|e]|]; try discriminate.
  destruct (resolveReferences env cwd (resolve env (trim schemaPath)) source)
    as [cwd' [loaded|e]]; [|discriminate].
  destruct (read loaded "type") as [[| | b | n | type | l | l]|e] eqn:Hread;
    try discriminate.
  destruct (String.eqb_spec type "object") as [->|_]; [|discriminate].
  simpl in Hload. inversion Hload; subst loaded.
  apply typed_read. exact Hread.
Qed.

Lemma safeLoadSchema_returns_object_witness :
  get (JObj [("type", JStr "object"); ("title", JStr "User")]) "type" = JStr "object"
  /\ existsSync (oneFile (JObj [("type", JStr "object"); ("title", JStr "User")]))
       (resolve (oneFile (JObj [("type", JStr "object"); ("title", JStr "User")]))
                (trim " schemas/user.yml ")) = true
  /\ In (extname (oneFile (JObj [("type", JStr "object"); ("title", JStr "User")]))
           (resolve (oneFile (JObj [("type", JStr "object"); ("title", JStr "User")]))
                    (trim " schemas/user.yml ")))
        [".yaml"; ".yml"; ".json"; ".js"].
Proof.
  apply (safeLoadSchema_returns_object
           (oneFile (JObj [("type", JStr "object"); ("title", JStr "User")]))
           "/work" " schemas/user.yml ").
  reflexivity.
Defined.

(** X13. The references are resolved a second time, from the directory
    of the schema file, exactly when the first resolution fails with the
    code ENOENT: any other error of the first resolution is the error
    the loader throws, and after an ENOENT a schema the second
    resolution finds is the schema the loader returns, the working
    directory being the starting one again. *)
Theorem references_retried_on_ENOENT (env : node) (cwd schemaPath : string)
    (source data after : jsval) (err : raised) :
  existsSync env (resolve env (trim schemaPath)) = true ->
  loadSource env (resolve env (trim schemaPath)) = Some (Returned source) ->
  dereference env cwd source = (Some err, data, after) ->
  (isENOENT err = false ->
   safeLoadSchema env cwd schemaPath = (cwd, Failed err))
  /\ (isENOENT err = true ->
      chdir env (dirname env (resolve env (trim schemaPath))) = None ->
      chdir env cwd = None ->
      forall schema after',
        dereference env (dirname env (resolve env (trim schemaPath))) after
        = (None, schema, after') ->
        get schema "type" = JStr "object" ->
        safeLoadSchema env cwd schemaPath = (cwd, Returned schema)).
Proof.
  intros Hexists Hsource Hfirst.
  unfold safeLoadSchema, resolveReferences, loadSchemaReferences.
  rewrite Hexists, Hsource, Hfirst. simpl. split.
  - intros ->. reflexivity.
  - intros -> Hthere Hback schema after' Hsecond Htype. simpl.
    rewrite Hthere, Hsecond, Hback. simpl.
    rewrite (read_typed _ _ Htype). reflexivity.
Qed.

Lemma references_retried_on_ENOENT_witness :
  safeLoadSchema (relativeReference (JObj [("type", JStr "object")]))
                 "/work" "schemas/user.json"
  = ("/work", Returned (JObj [("type", JStr "object")])).
Proof.
  destruct (references_retried_on_ENOENT
              (relativeReference (JObj [("type", JStr "object")]))
              "/work" "schemas/user.json"
              (JObj [("$ref", JStr "address.json")]) JUndefined
              (JObj [("$ref", JStr "address.json")])
              (System "ENOENT" "no such file") eq_refl eq_refl eq_refl)
    as [_ Hretry].
  apply (Hretry eq_refl eq_refl eq_refl (JObj [("type", JStr "object")])
                (JObj [("type", JStr "object")])); reflexivity.
Defined.

(** ** The hook *)

Lemma lookup_setProperty (key : string) (value : jsval)
    (l : list (string * jsval)) :
  lookup key (setProperty key value l) = value.
Proof.
  induction l as [|[k v] t IH]; simpl.
  - rewrite String.eqb_refl. reflexivity.
  - destruct (k =? key) eqn:Hk; simpl; rewrite Hk; [reflexivity | exact IH].
Qed.

Lemma lookup_setProperty_other (key other : string) (value : jsval)
    (l : list (string * jsval)) :
  other <> key ->
  lookup other (setProperty key value l) = lookup other l.
Proof.
  intros Hother. induction l as [|[k v] t IH]; simpl.
  - destruct (String.eqb_spec key other) as [->|_]; [contradiction|reflexivity].
  - destruct (String.eqb_spec k key) as [->|Hk]; simpl.
    + destruct (String.eqb_spec key other) as [->|_]; [contradiction|reflexivity].
    + destruct (k =? other); [reflexivity | exact IH].
Qed.

Lemma clonedElement_content (fields : list (string * jsval)) (groupName : jsval)
    (doc : string) :
  get (clonedElement (JObj fields) groupName doc) "content"
  = JStr (if truthy groupName then "(" ++ toString groupName ++ ") " ++ doc else doc)
  /\ forall key, key <> "content" ->
       get (clonedElement (JObj fields) groupName doc) key = get (JObj fields) key.
Proof.
  unfold clonedElement, assign. simpl. split.
  - apply lookup_setProperty.
  - intros key Hkey. apply lookup_setProperty_other. exact Hkey.
Qed.

Lemma groupName_prefix (content doc : string) :
  let groupName := match exec groupBefore content with
                   | Some (group :: _) => JStr group
                   | _ => JNull
                   end in
  (if truthy groupName then "(" ++ toString groupName ++ ") " ++ doc else doc)
  = groupPrefix content ++ doc.
Proof.
  unfold groupPrefix.
  destruct (exec groupBefore content) as [[|group rest]|]; simpl; try reflexivity.
  destruct (group =? EmptyString); simpl; [reflexivity|].
  rewrite !append_assoc. reflexivity.
Qed.

(** X14. For a tag of an element [apiParam] or [apiSuccess] whose
    braces hold [schema], whose schema loads and whose descriptors are
    extracted, the hook takes the last element off [elements] and puts
    one element per descriptor in its place, in order: each is the tag's
    element with the descriptor for content, after the group of the tag
    in parentheses when it has one, and every other property as the
    tag's element has it. *)
Theorem hook_replaces_tag_by_descriptors (env : node) (elements : list jsval)
    (cwd cwd' : string) (element schema : jsval) (sourceName schemaPath : string)
    (docs : list string) :
  get element "sourceName" = JStr sourceName ->
  In sourceName shouldDescribeElements ->
  exec typeAndPath (toString (get element "content")) = Some [TYPE_NAME; schemaPath] ->
  safeLoadSchema env cwd schemaPath = (cwd', Returned schema) ->
  extractArgumentsFromSchema schema = Ok docs ->
  exists added,
    parserSchemaElements env elements cwd element
    = ((removelast elements ++ added)%list, cwd', Done)
    /\ clonesOf element (groupPrefix (toString (get element "content"))) docs added.
Proof.
  intros Hname Hknown Hparts Hload Hdocs.
  destruct element as [| | b | n | s | l | fields]; try discriminate Hname.
  assert (Htext : toText (get (JObj fields) "content")
                  = Ok (toString (get (JObj fields) "content"))).
  { unfold toString in *.
    destruct (toText (get (JObj fields) "content")) as [text|e]; [reflexivity|].
    discriminate Hparts. }
  exists (map (clonedElement (JObj fields)
                 (match exec groupBefore (toString (get (JObj fields) "content")) with
                  | Some (group :: _) => JStr group
                  | _ => JNull
                  end)) docs).
  split.
  - unfold parserSchemaElements.
    change (read (JObj fields) "sourceName")
      with (Ok (get (JObj fields) "sourceName")).
    rewrite Hname.
    assert (Hin : existsb (fun known => known =? sourceName) shouldDescribeElements
                  = true).
    { apply existsb_exists. exists sourceName. split;
        [exact Hknown | apply String.eqb_refl]. }
    rewrite Hin, Htext, Hparts. rewrite String.eqb_refl. simpl negb. cbv iota.
    rewrite Hload, Hdocs. reflexivity.
  - unfold clonesOf. clear Hdocs.
    induction docs as [|doc docs IH]; cbn [map]; constructor; [|exact IH].
    destruct (clonedElement_content fields
                (match exec groupBefore (toString (get (JObj fields) "content")) with
                 | Some (group :: _) => JStr group
                 | _ => JNull
                 end) doc) as [Hcontent Hother].
    split; [|exact Hother].
    rewrite Hcontent, (groupName_prefix (toString (get (JObj fields) "content")) doc).
    reflexivity.
Qed.

Lemma hook_replaces_tag_by_descriptors_witness :
  let element :=
    JObj [("source", JStr "@apiParam (Users) {schema} schemas/user.yml");
          ("name", JStr "apiparam"); ("sourceName", JStr "apiParam");
          ("content", JStr "(Users) {schema} schemas/user.yml")] in
  exists added,
    parserSchemaElements
      (oneFile (JObj [("type", JStr "object"); ("properties", sampleProperties)]))
      [JNull; element] "/work" element
    = ((removelast [JNull; element] ++ added)%list, "/work", Done)
    /\ clonesOf element "(Users) "
         ["{integer{1..}} [id] "; "{string{..40}} name "; "{string} [label] "]
         added.
Proof.
  apply (hook_replaces_tag_by_descriptors
           (oneFile (JObj [("type", JStr "object"); ("properties", sampleProperties)]))
           [JNull;
            JObj [("source", JStr "@apiParam (Users) {schema} schemas/user.yml");
                  ("name", JStr "apiparam"); ("sourceName", JStr "apiParam");
                  ("content", JStr "(Users) {schema} schemas/user.yml")]]
           "/work" "/work"
           (JObj [("source", JStr "@apiParam (Users) {schema} schemas/user.yml");
                  ("name", JStr "apiparam"); ("sourceName", JStr "apiParam");
                  ("content", JStr "(Users) {schema} schemas/user.yml")])
           (JObj [("type", JStr "object"); ("properties", sampleProperties)])
           "apiParam" " schemas/user.yml"
           ["{integer{1..}} [id] "; "{string{..40}} name "; "{string} [label] "]).
  - reflexivity.
  - simpl. tauto.
  - reflexivity.
  - reflexivity.
  - reflexivity.
Defined.

Lemma removelast_prefix (elements : list jsval) :
  exists added, elements = (removelast elements ++ added)%list.
Proof.
  destruct elements as [|first rest].
  - exists []. reflexivity.
  - exists [last (first :: rest) JNull].
    apply app_removelast_last. discriminate.
Qed.

(** X15. The hook never touches an element of [elements] but the last:
    whatever the element it is called for, what it leaves is [elements]
    without its last element, followed by what it added.  When it
    throws, it has added nothing: [elements] is as it was, or has lost
    its last element to the [pop] of line 192. *)
Theorem hook_touches_last_element_only (env : node) (elements : list jsval)
    (cwd : string) (element : jsval) :
  (exists added,
      fst (fst (parserSchemaElements env elements cwd element))
      = (removelast elements ++ added)%list)
  /\ (forall e,
         snd (parserSchemaElements env elements cwd element) = Broke e ->
         fst (fst (parserSchemaElements env elements cwd element)) = elements
         \/ fst (fst (parserSchemaElements env elements cwd element))
            = removelast elements).
Proof.
  unfold parserSchemaElements.
  destruct (read element "sourceName") as [sourceName|e0].
  2:{ split; [apply removelast_prefix | intros; left; reflexivity]. }
  destruct (existsb _ shouldDescribeElements).
  2:{ split; [apply removelast_prefix | intros; left; reflexivity]. }
  destruct (toText (get element "content")) as [text|e0].
  2:{ split; [apply removelast_prefix | intros; left; reflexivity]. }
  destruct (exec typeAndPath text)
    as [[|type [|schemaPath [|more parts]]]|];
    try (split; [apply removelast_prefix | intros; left; reflexivity]).
  destruct (negb (type =? TYPE_NAME)).
  { split; [apply removelast_prefix | intros; left; reflexivity]. }
  destruct (safeLoadSchema env cwd schemaPath) as [cwd' [schema|e1]].
  2:{ split; [exists []; simpl; rewrite app_nil_r; reflexivity
             | intros; right; reflexivity]. }
  destruct (extractArgumentsFromSchema schema) as [docs|e2].
  - split; [eexists; reflexivity | intros e H; discriminate H].
  - split; [exists []; simpl; rewrite app_nil_r; reflexivity
           | intros; right; reflexivity].
Qed.

(** ** The tags the hook reads *)

Section Matching.

Context {R : Type}.
Variable k : string -> list string -> option R.

Lemma run_plus_any (s : string) (caps : list string) :
  run (Plus Any) s caps k = greedy s caps k.
Proof.
  cbn [run].
  generalize (Nat.le_refl (String.length s)).
  generalize (String.length s) at 2 3 as fuel.
  intros fuel. revert fuel caps.
  induction s as [|c s IH]; intros fuel caps Hfuel.
  - destruct fuel; reflexivity.
  - destruct fuel as [|fuel]; [simpl in Hfuel; lia|].
    cbn [greedy]. destruct (lineTerminator c) eqn:Hc.
    + reflexivity.
    + rewrite IH by (simpl in Hfuel; lia). reflexivity.
Qed.

Lemma run_chr_lacking (c : ascii) (r : regex) (s : string) (caps : list string) :
  lacks c s = true -> run (Seq (Chr c) r) s caps k = None.
Proof.
  destruct s as [|c' s]; [reflexivity|]. cbn.
  destruct (Ascii.eqb c c'); [discriminate | reflexivity].
Qed.

Lemma run_single_lacking (c : ascii) (s : string) (caps : list string) :
  lacks c s = true -> run (Chr c) s caps k = None.
Proof.
  destruct s as [|c' s]; [reflexivity|]. cbn.
  destruct (Ascii.eqb c c'); [discriminate | reflexivity].
Qed.

Lemma greedy_none (s : string) (caps : list string) :
  (forall pre t, s = pre ++ t -> pre <> EmptyString -> k t caps = None) ->
  greedy s caps k = None.
Proof.
  induction s as [|c s IH]; intros Hk; [reflexivity|].
  cbn [greedy]. destruct (lineTerminator c); [reflexivity|].
  rewrite IH.
  - apply (Hk (String c EmptyString) s); [reflexivity | discriminate].
  - intros pre t -> Hpre. apply (Hk (String c pre) t); [reflexivity | discriminate].
Qed.

Lemma greedy_longest (a b : string) (caps : list string) (found : R) :
  oneLine a = true -> a <> EmptyString ->
  greedy b caps k = None ->
  k b caps = Some found ->
  greedy (a ++ b) caps k = Some found.
Proof.
  intros Hline Hne Hdeeper Hhere.
  induction a as [|c a IH]; [contradiction|].
  simpl in Hline. apply andb_true_iff in Hline. destruct Hline as [Hc Hline].
  apply negb_true_iff in Hc.
  cbn [append greedy]. rewrite Hc.
  destruct a as [|c' a].
  - cbn [append]. rewrite Hdeeper. exact Hhere.
  - rewrite IH; [reflexivity | exact Hline | discriminate].
Qed.

End Matching.

Lemma consumed_app (a b : string) : consumed (a ++ b) b = a.
Proof.
  unfold consumed. rewrite length_append.
  replace (String.length a + String.length b - String.length b)
    with (String.length a) by lia.
  induction a as [|c a IH]; simpl.
  - destruct b; reflexivity.
  - rewrite IH. reflexivity.
Qed.

Lemma consumed_all (s : string) : consumed s EmptyString = s.
Proof.
  rewrite <- (append_empty_r s) at 1. apply consumed_app.
Qed.

Lemma lacks_app (c : ascii) (a b : string) :
  lacks c (a ++ b) = lacks c a && lacks c b.
Proof.
  induction a as [|c' a IH]; simpl; [reflexivity|].
  rewrite IH, andb_assoc. reflexivity.
Qed.

Lemma lacks_suffix (c : ascii) (s pre t : string) :
  s = pre ++ t -> lacks c s = true -> lacks c t = true.
Proof.
  intros -> H. rewrite lacks_app in H. apply andb_true_iff in H. tauto.
Qed.

Lemma exec_skip (c : ascii) (r : regex) (pre s : string) :
  lacks c pre = true ->
  exec (Seq (Chr c) r) (pre ++ s) = exec (Seq (Chr c) r) s.
Proof.
  induction pre as [|c' pre IH]; intros Hpre; [reflexivity|].
  simpl in Hpre. apply andb_true_iff in Hpre. destruct Hpre as [Hc Hpre].
  apply negb_true_iff in Hc.
  cbn [append exec run]. rewrite Hc. apply IH. exact Hpre.
Qed.

Lemma exec_lacking (c : ascii) (r : regex) (s : string) :
  lacks c s = true -> exec (Seq (Chr c) r) s = None.
Proof.
  induction s as [|c' s IH]; intros Hs; [reflexivity|].
  simpl in Hs. apply andb_true_iff in Hs. destruct Hs as [Hc Hs].
  apply negb_true_iff in Hc.
  cbn [exec run]. rewrite Hc. apply IH. exact Hs.
Qed.

(** What line 187 reads: the type is what stands between the first
    brace and the closing brace that the rest of the line follows. *)
Lemma typeAndPath_reads (pre type rest : string) :
  lacks "{" pre = true ->
  oneLine type = true -> type <> EmptyString ->
  oneLine rest = true -> rest <> EmptyString -> lacks "}" rest = true ->
  exec typeAndPath (pre ++ "{" ++ type ++ "}" ++ rest) = Some [type; rest].
Proof.
  intros Hpre Htype Htype' Hrest Hrest' Hclose.
  unfold typeAndPath. rewrite (exec_skip _ _ _ _ Hpre).
  cbn [append]. cbn [exec].
  set (final := fun (_ : string) (caps : list string) => Some caps).
  set (s1 := type ++ String "}" rest).
  change (run (Seq (Chr "{") (Seq (Group (Plus Any))
                                  (Seq (Chr "}") (Group (Plus Any)))))
              (String "{" s1) [] final)
    with (run (Plus Any) s1 []
              (fun s' caps' =>
                 run (Seq (Chr "}") (Group (Plus Any))) s'
                     (caps' ++ [consumed s1 s'])%list final)).
  rewrite run_plus_any.
  unfold s1. rewrite (greedy_longest _ type (String "}" rest) [] [type; rest]);
    try assumption; [reflexivity| |].
  - cbn [greedy]. change (lineTerminator "}") with false. cbv iota.
    rewrite greedy_none.
    + apply run_chr_lacking. exact Hclose.
    + intros pre' t Heq _. apply run_chr_lacking.
      exact (lacks_suffix _ _ _ _ Heq Hclose).
  - rewrite (consumed_app type (String "}" rest)).
    change (run (Seq (Chr "}") (Group (Plus Any))) (String "}" rest)
                ([] ++ [type])%list final)
      with (run (Plus Any) rest [type]
                (fun s' caps' => final s' (caps' ++ [consumed rest s'])%list)).
    rewrite run_plus_any.
    rewrite <- (append_empty_r rest) at 1.
    apply greedy_longest; try assumption; [reflexivity|].
    unfold final. rewrite consumed_all. reflexivity.
Qed.

(** What line 190 reads: the group is what stands between the first
    parenthesis and the closing one that a brace follows at a distance. *)
Lemma groupBefore_reads (pre group mid rest : string) :
  lacks "(" pre = true ->
  oneLine group = true -> group <> EmptyString ->
  oneLine mid = true -> mid <> EmptyString ->
  lacks ")" mid = true -> lacks ")" rest = true -> lacks "{" rest = true ->
  exec groupBefore (pre ++ "(" ++ group ++ ")" ++ mid ++ "{" ++ rest) = Some [group].
Proof.
  intros Hpre Hgroup Hgroup' Hmid Hmid' Hmidc Hrestc Hrest.
  unfold groupBefore. rewrite (exec_skip _ _ _ _ Hpre).
  cbn [append]. cbn [exec].
  set (final := fun (_ : string) (caps : list string) => Some caps).
  set (b := String ")" (mid ++ String "{" rest)).
  set (s1 := group ++ b).
  change (run (Seq (Chr "(") (Seq (Group (Plus Any))
                                  (Seq (Chr ")") (Seq (Plus Any) (Chr "{")))))
              (String "(" s1) [] final)
    with (run (Plus Any) s1 []
              (fun s' caps' =>
                 run (Seq (Chr ")") (Seq (Plus Any) (Chr "{"))) s'
                     (caps' ++ [consumed s1 s'])%list final)).
  rewrite run_plus_any.
  assert (Htail : lacks ")" (mid ++ String "{" rest) = true).
  { rewrite lacks_app, Hmidc. simpl. exact Hrestc. }
  unfold s1. rewrite (greedy_longest _ group b [] [group]);
    try assumption; [reflexivity| |].
  - unfold b. cbn [greedy]. change (lineTerminator ")") with false. cbv iota.
    rewrite greedy_none.
    + apply run_chr_lacking. exact Htail.
    + intros pre' t Heq _. apply run_chr_lacking.
      exact (lacks_suffix _ _ _ _ Heq Htail).
  - rewrite consumed_app. unfold b.
    change (run (Seq (Chr ")") (Seq (Plus Any) (Chr "{")))
                (String ")" (mid ++ String "{" rest)) ([] ++ [group])%list final)
      with (run (Plus Any) (mid ++ String "{" rest) [group]
                (fun s' caps' => run (Chr "{") s' caps' final)).
    rewrite run_plus_any.
    apply greedy_longest; try assumption; [|reflexivity].
    cbn [greedy]. change (lineTerminator "{") with false. cbv iota.
    rewrite greedy_none.
    + apply run_single_lacking. exact Hrest.
    + intros pre' t Heq _. apply run_single_lacking.
      exact (lacks_suffix _ _ _ _ Heq Hrest).
Qed.

(** X16. A tag written [(group) {schema} path], or [{schema} path]
    without a group, is read back as written: the type is [schema], the
    path is what follows the closing brace (with its leading space,
    which the loader trims), and the prefix of the descriptors is the
    group in parentheses, or nothing.  The group is any non-empty text
    of one line without an opening brace; the path is any text of one
    line without braces and parentheses. *)
Theorem tag_read_as_written (group path : string) :
  group <> EmptyString -> oneLine group = true -> lacks "{" group = true ->
  oneLine path = true ->
  lacks "{" path = true -> lacks "}" path = true ->
  lacks "(" path = true -> lacks ")" path = true ->
  exec typeAndPath ("(" ++ group ++ ") {schema} " ++ path)
  = Some [TYPE_NAME; " " ++ path]
  /\ groupPrefix ("(" ++ group ++ ") {schema} " ++ path) = "(" ++ group ++ ") "
  /\ exec typeAndPath ("{schema} " ++ path) = Some [TYPE_NAME; " " ++ path]
  /\ groupPrefix ("{schema} " ++ path) = EmptyString.
Proof.
  intros Hgroup Hline Hopen Hpath Hpo Hpc Hpl Hpr.
  assert (Hrest : oneLine (" " ++ path) = true /\ lacks "}" (" " ++ path) = true).
  { simpl. auto. }
  destruct Hrest as [Hrest Hrestc].
  repeat split.
  - replace ("(" ++ group ++ ") {schema} " ++ path)
      with (("(" ++ group ++ ") ") ++ "{" ++ "schema" ++ "}" ++ (" " ++ path))
      by (rewrite !append_assoc; reflexivity).
    apply typeAndPath_reads; try assumption; try discriminate; try reflexivity.
    simpl. rewrite lacks_app, Hopen. reflexivity.
  - unfold groupPrefix.
    change ("(" ++ group ++ ") {schema} " ++ path)
      with (EmptyString ++ "(" ++ group ++ ")" ++ " " ++ "{" ++ ("schema} " ++ path)).
    rewrite groupBefore_reads; try assumption; try discriminate; try reflexivity.
    destruct (String.eqb_spec group EmptyString) as [Heq|_];
      [contradiction | reflexivity].
  - change ("{schema} " ++ path)
      with (EmptyString ++ "{" ++ "schema" ++ "}" ++ (" " ++ path)).
    apply typeAndPath_reads; try assumption; try discriminate; reflexivity.
  - unfold groupPrefix, groupBefore. rewrite exec_lacking; [reflexivity|].
    simpl. exact Hpl.
Qed.

Lemma tag_read_as_written_witness :
  exec typeAndPath "(User data) {schema} schemas/user.yml"
  = Some [TYPE_NAME; " schemas/user.yml"]
  /\ groupPrefix "(User data) {schema} schemas/user.yml" = "(User data) "
  /\ exec typeAndPath "{schema} schemas/user.yml" = Some [TYPE_NAME; " schemas/user.yml"]
  /\ groupPrefix "{schema} schemas/user.yml" = EmptyString.
Proof.
  apply (tag_read_as_written "User data" "schemas/user.yml");
    try reflexivity.
  discriminate.
Defined.

(** X17. A closing brace later on the line hides the tag: [.+] takes
    the type up to the last closing brace that something follows, so for
    a content [{schema} ... } ...] the type read is not [schema] and the
    hook leaves [elements] and the working directory as they are,
    loading nothing. *)
Theorem later_closing_brace_hides_tag (env : node) (elements : list jsval)
    (cwd : string) (element : jsval) (pre mid rest : string) :
  get element "content" = JStr (pre ++ "{schema}" ++ mid ++ "}" ++ rest) ->
  lacks "{" pre = true ->
  oneLine mid = true ->
  oneLine rest = true -> rest <> EmptyString -> lacks "}" rest = true ->
  exec typeAndPath (pre ++ "{schema}" ++ mid ++ "}" ++ rest)
  = Some ["schema}" ++ mid; rest]
  /\ parserSchemaElements env elements cwd element = (elements, cwd, Done).
Proof.
  intros Hcontent Hpre Hmid Hrest Hrest' Hclose.
  assert (Hexec : exec typeAndPath (pre ++ "{schema}" ++ mid ++ "}" ++ rest)
                  = Some ["schema}" ++ mid; rest]).
  { replace (pre ++ "{schema}" ++ mid ++ "}" ++ rest)
      with (pre ++ "{" ++ ("schema}" ++ mid) ++ "}" ++ rest)
      by (rewrite !append_assoc; reflexivity).
    apply typeAndPath_reads; try assumption; discriminate. }
  split; [exact Hexec|].
  unfold parserSchemaElements.
  destruct element as [| | b | n | s | l | fields]; try discriminate Hcontent.
  change (read (JObj fields) "sourceName") with (Ok (get (JObj fields) "sourceName")).
  cbv beta iota.
  destruct (existsb _ shouldDescribeElements); [|reflexivity].
  rewrite Hcontent. cbn [toText].
  rewrite Hexec. reflexivity.
Qed.

Lemma later_closing_brace_hides_tag_witness :
  exec typeAndPath "{schema} user.yml {optional} fields"
  = Some ["schema} user.yml {optional"; " fields"]
  /\ parserSchemaElements (oneFile (JObj [("type", JStr "object")]))
       [JObj [("sourceName", JStr "apiParam");
              ("content", JStr "{schema} user.yml {optional} fields")]]
       "/work"
       (JObj [("sourceName", JStr "apiParam");
              ("content", JStr "{schema} user.yml {optional} fields")])
     = ([JObj [("sourceName", JStr "apiParam");
               ("content", JStr "{schema} user.yml {optional} fields")]],
        "/work", Done).
Proof.
  apply (later_closing_brace_hides_tag
           (oneFile (JObj [("type", JStr "object")]))
           [JObj [("sourceName", JStr "apiParam");
                  ("content", JStr "{schema} user.yml {optional} fields")]]
           "/work"
           (JObj [("sourceName", JStr "apiParam");
                  ("content", JStr "{schema} user.yml {optional} fields")])
           EmptyString " user.yml {optional" " fields");
    try reflexivity.
  discriminate.
Defined.
(** * The walker on the store and the walker on trees *)

Section Sharing.

Local Open Scope list_scope.

Lemma all_ext {A B : Type} (f g : A -> option B) (l : list A) :
  (forall a, In a l -> f a = g a) -> Store.all f l = Store.all g l.
Proof.
  induction l as [|a t IH]; intros H; simpl.
  - reflexivity.
  - fold (Store.all f t). fold (Store.all g t).
    rewrite (H a) by (left; reflexivity).
    rewrite IH by (intros; apply H; right; assumption). reflexivity.
Qed.

Lemma all_some {A B : Type} (f g : A -> option B) (l : list A) (bs : list B) :
  (forall a b, In a l -> f a = Some b -> g a = Some b) ->
  Store.all f l = Some bs -> Store.all g l = Some bs.
Proof.
  revert bs. induction l as [|a t IH]; intros bs H; simpl.
  - auto.
  - fold (Store.all f t). fold (Store.all g t).
    destruct (f a) as [b|] eqn:Ha; [|discriminate].
    destruct (Store.all f t) as [bs'|] eqn:Ht; [|discriminate].
    intros Hbs. rewrite (H a b (or_introl eq_refl) Ha).
    rewrite (IH bs') by (intros; eauto using in_cons). exact Hbs.
Qed.

Lemma all_cons {A B : Type} (f : A -> option B) (a : A) (t : list A) (bs : list B) :
  Store.all f (a :: t) = Some bs ->
  exists b bt, bs = b :: bt /\ f a = Some b /\ Store.all f t = Some bt.
Proof.
  simpl. fold (Store.all f t).
  destruct (f a) as [b|]; [|discriminate].
  destruct (Store.all f t) as [bt|]; [|discriminate].
  intros H. inversion H. exists b, bt. auto.
Qed.

Lemma all_length {A B : Type} (f : A -> option B) (l : list A) (bs : list B) :
  Store.all f l = Some bs -> List.length bs = List.length l.
Proof.
  revert bs. induction l as [|a t IH]; intros bs H.
  - inversion H. reflexivity.
  - apply all_cons in H. destruct H as [b [bt [-> [_ Ht]]]].
    simpl. rewrite (IH bt Ht). reflexivity.
Qed.

Lemma tree_ref (n : nat) (h : Store.store) (a : Store.address) :
  Store.tree (S n) h (Store.VRef a) =
  match nth_error h a with
  | Some (Store.OArr members) =>
      option_map JArr (Store.all (Store.tree n h) members)
  | Some (Store.OObj properties) =>
      option_map JObj
        (Store.all (fun p => option_map (pair (fst p)) (Store.tree n h (snd p)))
                   properties)
  | None => None
  end.
Proof. reflexivity. Qed.

Lemma tree_undefined (n : nat) (h : Store.store) :
  Store.tree n h Store.VUndefined = Some JUndefined.
Proof. destruct n; reflexivity. Qed.

Section Closed.

Variable h0 : Store.store.
Hypothesis h0_closed : Store.closed h0.

Lemma closed_sound (a : Store.address) (o : Store.object) :
  nth_error h0 a = Some o -> Store.sound (List.length h0) o.
Proof.
  intros H. apply nth_error_In in H.
  exact (proj1 (Forall_forall _ _) h0_closed o H).
Qed.

Lemma nth_error_prefix (ext : Store.store) (a : Store.address) :
  a < List.length h0 -> nth_error (h0 ++ ext) a = nth_error h0 a.
Proof. intros H. apply nth_error_app1. exact H. Qed.

(** What is added after the objects of a closed store is out of the
    reach of their trees. *)
Lemma tree_prefix (ext : Store.store) (n : nat) :
  forall v, Store.within (List.length h0) v ->
            Store.tree n (h0 ++ ext) v = Store.tree n h0 v.
Proof.
  induction n as [|n IH]; intros v Hv; destruct v; try reflexivity.
  simpl in Hv. rewrite !tree_ref. rewrite (nth_error_prefix ext a Hv).
  destruct (nth_error h0 a) as [[members|properties]|] eqn:Ha; [| |reflexivity].
  - pose proof (closed_sound _ _ Ha) as Hsound. simpl in Hsound.
    f_equal. apply all_ext. intros m Hm. apply IH.
    exact (proj1 (Forall_forall _ _) Hsound m Hm).
  - pose proof (closed_sound _ _ Ha) as [Hsound _].
    f_equal. apply all_ext. intros p Hp. rewrite IH; [reflexivity|].
    exact (proj1 (Forall_forall _ _) Hsound p Hp).
Qed.

End Closed.

(** A tree found within a bound is found within any larger one. *)
Lemma tree_more (h : Store.store) (n : nat) :
  forall v t, Store.tree n h v = Some t -> Store.tree (S n) h v = Some t.
Proof.
  induction n as [|n IH]; intros v t; destruct v; try (simpl; auto; fail).
  - discriminate.
  - rewrite (tree_ref (S n)), (tree_ref n).
    destruct (nth_error h a) as [[members|properties]|]; [| |discriminate].
    + destruct (Store.all (Store.tree n h) members) as [ts|] eqn:Hall;
        [|discriminate].
      rewrite (all_some _ (Store.tree (S n) h) _ _ (fun a b _ => IH a b) Hall).
      auto.
    + destruct (Store.all (fun p => option_map (pair (fst p))
                                      (Store.tree n h (snd p))) properties)
        as [ts|] eqn:Hall; [|discriminate].
      assert (Hmore :
        Store.all (fun p => option_map (pair (fst p)) (Store.tree (S n) h (snd p)))
                  properties = Some ts).
      { eapply all_some; [|exact Hall]. intros p b _ Hp. cbv beta in Hp |- *.
        destruct (Store.tree n h (snd p)) as [tp|] eqn:Htp; [|discriminate Hp].
        rewrite (IH _ _ Htp). exact Hp. }
      rewrite Hmore. auto.
Qed.

Lemma tree_within (h : Store.store) (n m : nat) (v : Store.value) (t : jsval) :
  n <= m -> Store.tree n h v = Some t -> Store.tree m h v = Some t.
Proof.
  induction 1 as [|m _ IH]; intros H; [exact H|].
  apply tree_more. exact (IH H).
Qed.

Lemma tree_truthy (h : Store.store) (n : nat) (v : Store.value) (t : jsval) :
  Store.tree n h v = Some t -> Store.truthy v = truthy t.
Proof.
  destruct n, v; try discriminate;
    try (simpl; intros H; inversion H; reflexivity).
  rewrite tree_ref. simpl.
  destruct (nth_error h a) as [[members|properties]|] eqn:Ha; [| |discriminate].
  - destruct (Store.all _ members); [|discriminate].
    intros H; inversion H; reflexivity.
  - destruct (Store.all _ properties); [|discriminate].
    intros H; inversion H; reflexivity.
Qed.

Lemma tree_isType (h : Store.store) (n : nat) (v : Store.value) (t : jsval)
    (type : string) :
  Store.tree n h v = Some t ->
  Store.isType type v = match t with
                        | JStr s => s =? type
                        | _ => false
                        end.
Proof.
  destruct n, v; try discriminate;
    try (simpl; intros H; inversion H; reflexivity).
  rewrite tree_ref. simpl.
  destruct (nth_error h a) as [[members|properties]|] eqn:Ha; [| |discriminate].
  - destruct (Store.all _ members); [|discriminate].
    intros H; inversion H; reflexivity.
  - destruct (Store.all _ properties); [|discriminate].
    intros H; inversion H; reflexivity.
Qed.

Lemma tree_lookup (h : Store.store) (n : nat) (k : string)
    (properties : list (string * Store.value)) (ts : list (string * jsval)) :
  Store.all (fun p => option_map (pair (fst p)) (Store.tree n h (snd p))) properties
  = Some ts ->
  Store.tree n h (Store.lookup k properties) = Some (lookup k ts).
Proof.
  revert ts. induction properties as [|[k' v] rest IH]; intros ts H.
  - inversion H. apply tree_undefined.
  - apply all_cons in H. destruct H as [b [bt [-> [Hv Hrest]]]].
    simpl in Hv. destruct (Store.tree n h v) as [tv|] eqn:Htv; [|discriminate].
    inversion Hv; subst b. simpl.
    destruct (k' =? k); [exact Htv | apply IH; exact Hrest].
Qed.

(** A property of a value is found one level below it. *)
Lemma tree_get (h : Store.store) (n : nat) (v : Store.value) (t : jsval) (k : string) :
  Store.tree n h v = Some t ->
  Store.tree (Nat.pred n) h (Store.get h v k) = Some (get t k).
Proof.
  destruct n, v; try discriminate;
    try (simpl; intros H; inversion H;
         first [reflexivity | apply tree_undefined]).
  rewrite tree_ref. simpl.
  destruct (nth_error h a) as [[members|properties]|] eqn:Ha; [| |discriminate].
  - destruct (Store.all _ members); [|discriminate].
    intros H; inversion H. apply tree_undefined.
  - destruct (Store.all _ properties) as [ts|] eqn:Hall; [|discriminate].
    intros H; inversion H. simpl. apply tree_lookup. exact Hall.
Qed.

Lemma tree_read (h : Store.store) (n : nat) (v : Store.value) (t : jsval) (k : string) :
  Store.tree n h v = Some t ->
  match Store.read h v k, read t k with
  | Raise e, Raise e' => e = e'
  | Ok value, Ok found => value = Store.get h v k /\ found = get t k
  | _, _ => False
  end.
Proof.
  destruct n, v; try discriminate;
    try (simpl; intros H; inversion H; simpl; auto; fail).
  rewrite tree_ref. simpl.
  destruct (nth_error h a) as [[members|properties]|] eqn:Ha; [| |discriminate].
  - destruct (Store.all _ members); [|discriminate].
    intros H; inversion H; simpl; auto.
  - destruct (Store.all _ properties) as [ts|] eqn:Hall; [|discriminate].
    intros H; inversion H. simpl. auto.
Qed.

Lemma within_lookup (n : nat) (k : string) (properties : list (string * Store.value)) :
  Forall (fun p => Store.within n (snd p)) properties ->
  Store.within n (Store.lookup k properties).
Proof.
  induction 1 as [|[k' v] rest Hv _ IH]; simpl.
  - exact I.
  - destruct (k' =? k); [exact Hv | exact IH].
Qed.

Lemma lookup_own (k : string) (v : Store.value)
    (properties : list (string * Store.value)) :
  NoDup (map fst properties) -> In (k, v) properties ->
  Store.lookup k properties = v.
Proof.
  induction properties as [|[k' v'] rest IH]; simpl; intros Hnodup Hin.
  - contradiction.
  - inversion Hnodup as [|x xs Hnotin Hrest]; subst.
    destruct Hin as [Heq|Hin].
    + inversion Heq; subst. rewrite String.eqb_refl. reflexivity.
    + destruct (String.eqb_spec k' k) as [->|_]; [|exact (IH Hrest Hin)].
      exfalso. apply Hnotin. apply in_map_iff. exists (k, v). auto.
Qed.

Lemma put_last (h : Store.store) (x o : Store.object) :
  Store.put (List.length h) o (h ++ [x]) = h ++ [o].
Proof.
  unfold Store.put. induction h as [|y h IH]; simpl.
  - reflexivity.
  - f_equal. exact IH.
Qed.

Section Simulation.

Variable h0 : Store.store.
Hypothesis h0_closed : Store.closed h0.

Lemma extended_prefix (lines : list Store.value) (a : Store.address) :
  a < List.length h0 -> nth_error (extended h0 lines) a = nth_error h0 a.
Proof. apply nth_error_prefix. Qed.

Lemma extended_last (lines : list Store.value) :
  nth_error (extended h0 lines) (List.length h0) = Some (Store.OArr lines).
Proof.
  unfold extended. rewrite nth_error_app2 by lia.
  rewrite Nat.sub_diag. reflexivity.
Qed.

Lemma get_extended (lines : list Store.value) (v : Store.value) (k : string) :
  Store.within (List.length h0) v ->
  Store.get (extended h0 lines) v k = Store.get h0 v k.
Proof.
  destruct v; try reflexivity. simpl. intros Ha.
  rewrite (extended_prefix lines a Ha). reflexivity.
Qed.

Lemma read_extended (lines : list Store.value) (v : Store.value) (k : string) :
  Store.within (List.length h0) v ->
  Store.read (extended h0 lines) v k = Store.read h0 v k.
Proof.
  intros Hv. unfold Store.read. rewrite (get_extended lines v k Hv). reflexivity.
Qed.

Lemma sequence_extended (lines : list Store.value) (v : Store.value) :
  Store.within (List.length h0) v ->
  Store.sequence (extended h0 lines) v = Store.sequence h0 v.
Proof.
  destruct v; try reflexivity. simpl. intros Ha.
  rewrite (extended_prefix lines a Ha). reflexivity.
Qed.

Lemma names_extended (lines : list Store.value) (v : Store.value) :
  Store.within (List.length h0) v ->
  Store.names (extended h0 lines) v = Store.names h0 v.
Proof.
  destruct v; try reflexivity. simpl. intros Ha.
  rewrite (extended_prefix lines a Ha). reflexivity.
Qed.

Lemma element_extended (lines : list Store.value) (v : Store.value) (i : nat)
    (name : string) :
  Store.within (List.length h0) v ->
  Store.element (extended h0 lines) v i name = Store.element h0 v i name.
Proof.
  intros Hv. unfold Store.element.
  rewrite (sequence_extended lines v Hv), (get_extended lines v name Hv).
  reflexivity.
Qed.

Lemma hasOwnProperty_extended (lines : list Store.value) (v : Store.value)
    (name : string) :
  Store.within (List.length h0) v ->
  Store.hasOwnProperty (extended h0 lines) v name = Store.hasOwnProperty h0 v name.
Proof.
  intros Hv. unfold Store.hasOwnProperty.
  rewrite (names_extended lines v Hv).
  destruct v; try reflexivity. simpl in Hv.
  rewrite (extended_prefix lines a Hv). reflexivity.
Qed.

Lemma tree_extended (lines : list Store.value) (n : nat) (v : Store.value) :
  Store.within (List.length h0) v ->
  Store.tree n (extended h0 lines) v = Store.tree n h0 v.
Proof. apply tree_prefix. exact h0_closed. Qed.

Lemma within_get (v : Store.value) (k : string) :
  Store.within (List.length h0) (Store.get h0 v k).
Proof.
  destruct v; try exact I. simpl.
  destruct (nth_error h0 a) as [[members|properties]|] eqn:Ha; try exact I.
  apply within_lookup. exact (proj1 (closed_sound h0 h0_closed _ _ Ha)).
Qed.

(** The [push] writes the array of the descriptors and nothing else. *)
Lemma push_extended (lines : list Store.value) (line : string) :
  Store.push (extended h0 lines) (Store.VRef (List.length h0)) line
  = Ok (extended h0 (lines ++ [Store.VStr line])).
Proof.
  unfold Store.push. rewrite extended_last. unfold extended.
  rewrite put_last. reflexivity.
Qed.

Lemma pushAll_extended (added : list string) (lines : list Store.value) :
  Store.pushAll (extended h0 lines) (Store.VRef (List.length h0)) added
  = Ok (extended h0 (lines ++ map Store.VStr added)).
Proof.
  revert lines. induction added as [|line rest IH]; intros lines;
    cbn [Store.pushAll map].
  - rewrite app_nil_r. reflexivity.
  - rewrite push_extended. cbn [bind]. rewrite IH, <- app_assoc. reflexivity.
Qed.

End Simulation.

(** The turns that do not call the walker again do not depend on it. *)
Lemma body_idle (w : walker) (acc : list string) (name : string) (item : jsval)
    (depth : nat) (req : jsval) :
  match get item "type" with
  | JStr s => s =? "object"
  | _ => false
  end = false ->
  match get item "type" with
  | JStr s => s =? "array"
  | _ => false
  end && truthy (get item "items") = false ->
  body w acc name item depth req = body Store.idle acc name item depth req.
Proof.
  intros Hobject Harray. unfold body.
  destruct (read item "type") as [[| | b | n | type | l | l]|e] eqn:Hread;
    try reflexivity.
  rewrite (typed_read _ _ Hread) in Hobject, Harray.
  rewrite Hobject.
  destruct (type =? "string"); [reflexivity|].
  destruct ((type =? "number") || (type =? "integer")); [reflexivity|].
  destruct (type =? "boolean"); [reflexivity|].
  destruct (type =? "array"); [|reflexivity].
  simpl in Harray. rewrite Harray. reflexivity.
Qed.

Lemma idle_appends : appends Store.idle.
Proof. intros acc v d r. simpl. rewrite app_nil_r. reflexivity. Qed.

Section Turns.

Variable h0 : Store.store.
Hypothesis h0_closed : Store.closed h0.

(** The bound of the walker these turns call, which simulates the
    walker on trees. *)
Variable g : nat.
Hypothesis g_simulates : simulates h0 g.

Lemma typed_below (item : Store.value) (itemTree : jsval) (n : nat) (type : string)
    (k : string) :
  Store.tree n h0 item = Some itemTree ->
  Store.isType type (Store.get h0 item k) = true ->
  0 < n.
Proof.
  destruct n; [|lia].
  destruct item; simpl; try discriminate.
Qed.

Lemma forEach_simulated (a : Store.address) (members : list Store.value) (n : nat)
    (depth : nat) :
  a < List.length h0 ->
  nth_error h0 a = Some (Store.OArr members) ->
  n < g ->
  forall todo done trees lines,
    members = done ++ todo ->
    Store.all (Store.tree n h0) todo = Some trees ->
    Store.forEach (Store.iterateObjectReqursive g) (extended h0 lines)
      (Store.VRef (List.length h0)) a
      (seq (List.length done) (List.length todo)) depth
    = Some (extended h0
              (lines ++ map Store.VStr
                          (fst (forEach iterateObjectReqursive [] trees depth))),
            snd (forEach iterateObjectReqursive [] trees depth)).
Proof.
  intros Ha Hcell Hn.
  pose proof (closed_sound h0 h0_closed _ _ Hcell) as Hsound. simpl in Hsound.
  induction todo as [|value todo IH]; intros done trees lines Hmembers Hall.
  - inversion Hall. simpl. rewrite app_nil_r. reflexivity.
  - apply all_cons in Hall. destruct Hall as [t [rest [-> [Hvalue Hrest]]]].
    cbn [List.length seq Store.forEach forEach].
    assert (Helement :
      Store.element (extended h0 lines) (Store.VRef a) (List.length done)
                    EmptyString = value).
    { unfold Store.element. rewrite sequence_extended by exact Ha.
      simpl. rewrite Hcell, Hmembers. apply nth_middle. }
    rewrite Helement.
    assert (Hwithin : Store.within (List.length h0) value).
    { apply (proj1 (Forall_forall _ _) Hsound). rewrite Hmembers.
      apply in_or_app. right. left. reflexivity. }
    rewrite (g_simulates lines value Store.VUndefined (depth + 1) t JUndefined n
               Hn Hwithin I Hvalue (tree_undefined n h0)).
    destruct (iterateObjectReqursive [] t (depth + 1) JUndefined) as [out [|e]];
      simpl fst; simpl snd.
    + rewrite (forEach_appends _ iterateObjectReqursive_appends rest depth out).
      replace (S (List.length done)) with (List.length (done ++ [value]))
        by (rewrite length_app; simpl; lia).
      rewrite (IH (done ++ [value]) rest (lines ++ map Store.VStr out)).
      * simpl. rewrite map_app, app_assoc. reflexivity.
      * rewrite <- app_assoc. exact Hmembers.
      * exact Hrest.
    + reflexivity.
Qed.

Lemma body_simulated (lines : list Store.value) (name : string) (item : Store.value)
    (itemTree : jsval) (depth : nat) (req : Store.value) (r : jsval) :
  Store.within (List.length h0) item ->
  Store.within (List.length h0) req ->
  Store.tree g h0 item = Some itemTree ->
  Store.tree g h0 req = Some r ->
  Store.body (Store.iterateObjectReqursive g) g (extended h0 lines)
    (Store.VRef (List.length h0)) name item depth req
  = Some (extended h0
            (lines ++ map Store.VStr
                        (fst (body iterateObjectReqursive [] name itemTree depth
                                   (defaultTo (JArr []) r)))),
          snd (body iterateObjectReqursive [] name itemTree depth
                    (defaultTo (JArr []) r))).
Proof.
  intros Hitem Hreq Htree Hr.
  unfold Store.body. rewrite (read_extended h0 lines item "type" Hitem).
  pose proof (tree_read h0 g item itemTree "type" Htree) as Hread.
  destruct (Store.read h0 item "type") as [type|e] eqn:Hstore.
  2:{ unfold body. destruct (read itemTree "type") as [found|e']; [contradiction|].
      subst e'. simpl. rewrite app_nil_r. reflexivity. }
  destruct (read itemTree "type") as [found|e'] eqn:Hpure; [|contradiction].
  destruct Hread as [-> ->].
  pose proof (tree_get h0 g item itemTree "type" Htree) as Htype.
  assert (Hobject : Store.isType "object" (Store.get h0 item "type")
                    = match get itemTree "type" with
                      | JStr s => s =? "object"
                      | _ => false
                      end)
    by (eapply tree_isType; exact Htype).
  assert (Harray : Store.isType "array" (Store.get h0 item "type")
                   = match get itemTree "type" with
                     | JStr s => s =? "array"
                     | _ => false
                     end)
    by (eapply tree_isType; exact Htype).
  destruct (Store.isType "object" (Store.get h0 item "type")) eqn:Hisobject.
  { pose proof (typed_below _ _ _ _ _ Htree Hisobject) as Hpos.
    destruct (get itemTree "type") as [| | b | x | s | l | l] eqn:Hfound;
      try discriminate Hobject.
    symmetry in Hobject. apply String.eqb_eq in Hobject. subst s.
    unfold body. rewrite Hpure. cbn [String.eqb Ascii.eqb Bool.eqb].
    rewrite !(get_extended h0 lines item _ Hitem).
    rewrite (g_simulates lines _ _ (depth + 1) _ _ (Nat.pred g)
               ltac:(lia) (within_get h0 h0_closed _ _) (within_get h0 h0_closed _ _)
               (tree_get h0 g item itemTree "properties" Htree)
               (tree_get h0 g item itemTree "required" Htree)).
    destruct (iterateObjectReqursive [] (get itemTree "properties") (depth + 1)
                (get itemTree "required")) as [out [|e]]; reflexivity. }
  rewrite (get_extended h0 lines item "items" Hitem).
  pose proof (tree_get h0 g item itemTree "items" Htree) as Hitems.
  rewrite (tree_truthy _ _ _ _ Hitems).
  destruct (Store.isType "array" (Store.get h0 item "type")
            && truthy (get itemTree "items")) eqn:Hwalks.
  { apply andb_true_iff in Hwalks. destruct Hwalks as [Hisarray Htruthy].
    pose proof (typed_below _ _ _ _ _ Htree Hisarray) as Hpos.
    rewrite Hisarray in Harray.
    destruct (get itemTree "type") as [| | b | x | s | l | l] eqn:Hfound;
      try discriminate Harray.
    symmetry in Harray. apply String.eqb_eq in Harray. subst s.
    unfold body. rewrite Hpure. cbn [String.eqb Ascii.eqb Bool.eqb orb].
    rewrite Htruthy. cbn [negb].
    remember (Nat.pred g) as m eqn:Hm.
    destruct (Store.get h0 item "items") as [| | b | x | s | a] eqn:Hvalue;
      try (destruct m; simpl in Hitems; inversion Hitems as [Heq];
           simpl; rewrite app_nil_r; reflexivity).
    pose proof (within_get h0 h0_closed item "items") as Ha.
    rewrite Hvalue in Ha. simpl in Ha.
    rewrite (extended_prefix h0 lines a Ha).
    destruct m as [|n]; [discriminate Hitems|].
    rewrite tree_ref in Hitems.
    destruct (nth_error h0 a) as [[members|properties]|] eqn:Hcell;
      [| |discriminate Hitems].
    - destruct (Store.all (Store.tree n h0) members) as [trees|] eqn:Hall;
        [|discriminate Hitems].
      inversion Hitems as [Heq]. simpl.
      apply (forEach_simulated a members n depth Ha Hcell ltac:(lia)
               members [] trees lines eq_refl Hall).
    - destruct (Store.all _ properties) as [trees|]; [|discriminate Hitems].
      inversion Hitems. simpl. rewrite app_nil_r. reflexivity. }
  rewrite (tree_extended h0 h0_closed lines g item Hitem), Htree.
  rewrite (tree_extended h0 h0_closed lines g req Hreq), Hr.
  symmetry in Hobject. rewrite Harray in Hwalks.
  rewrite (body_idle iterateObjectReqursive [] name itemTree depth
             (defaultTo (JArr []) r) Hobject Hwalks).
  destruct (body Store.idle [] name itemTree depth (defaultTo (JArr []) r))
    as [added after].
  rewrite pushAll_extended. reflexivity.
Qed.

Lemma loop_simulated (obj : Store.value) (t : jsval) (depth : nat)
    (req : Store.value) (r : jsval) :
  Store.within (List.length h0) req ->
  Store.tree g h0 req = Some r ->
  forall todo properties,
    Forall2 (paired h0 g obj t) todo properties ->
    forall lines,
      Store.loop (Store.iterateObjectReqursive g) g (extended h0 lines)
        (Store.VRef (List.length h0)) obj todo depth req
      = Some (extended h0
                (lines ++ map Store.VStr
                            (fst (loop iterateObjectReqursive t [] properties depth
                                       (defaultTo (JArr []) r)))),
              snd (loop iterateObjectReqursive t [] properties depth
                        (defaultTo (JArr []) r))).
Proof.
  intros Hreq Hr.
  induction 1 as [|[i name] [name' item] todo properties [Hname Hpair] _ IH];
    intros lines.
  - simpl. rewrite app_nil_r. reflexivity.
  - simpl in Hname. subst name'.
    destruct (Hpair lines) as [Hguard [Hwithin Htree]]. simpl in Hguard, Hwithin, Htree.
    cbn [Store.loop loop]. rewrite Hguard.
    destruct (hasOwnProperty t name) as [[|]|e];
      try (simpl; rewrite app_nil_r; reflexivity).
    rewrite (body_simulated lines name _ item depth req r Hwithin Hreq Htree Hr).
    destruct (body iterateObjectReqursive [] name item depth (defaultTo (JArr []) r))
      as [out [| |e]]; simpl fst; simpl snd; try reflexivity.
    rewrite IH.
    rewrite (loop_appends _ iterateObjectReqursive_appends t properties depth
               (defaultTo (JArr []) r) out).
    simpl. rewrite map_app, app_assoc. reflexivity.
Qed.

End Turns.

Lemma indexed_app (i : nat) (a b : list jsval) :
  indexed i (a ++ b) = indexed i a ++ indexed (i + List.length a) b.
Proof.
  revert i. induction a as [|x a IH]; intros i; simpl.
  - rewrite Nat.add_0_r. reflexivity.
  - rewrite IH. do 3 f_equal. lia.
Qed.

Lemma all_app {A B : Type} (f : A -> option B) (a b : list A) (bs : list B) :
  Store.all f (a ++ b) = Some bs ->
  exists as' bs', bs = as' ++ bs'
                  /\ Store.all f a = Some as' /\ Store.all f b = Some bs'.
Proof.
  revert bs. induction a as [|x a IH]; intros bs H.
  - exists [], bs. auto.
  - simpl app in H. apply all_cons in H. destruct H as [y [rest [-> [Hx Hrest]]]].
    destruct (IH _ Hrest) as [as' [bs' [-> [Ha Hb]]]].
    exists (y :: as'), bs'. repeat split; [|exact Hb].
    simpl. fold (Store.all f a). rewrite Hx, Ha. reflexivity.
Qed.

Lemma all_properties (h : Store.store) (n : nat)
    (properties : list (string * Store.value)) (trees : list (string * jsval)) :
  Store.all (fun p => option_map (pair (fst p)) (Store.tree n h (snd p))) properties
  = Some trees ->
  Forall2 (fun p q => fst q = fst p /\ Store.tree n h (snd p) = Some (snd q))
          properties trees.
Proof.
  revert trees. induction properties as [|p rest IH]; intros trees H.
  - inversion H. constructor.
  - apply all_cons in H. destruct H as [q [qs [-> [Hp Hrest]]]].
    constructor; [|apply IH; exact Hrest].
    destruct (Store.tree n h (snd p)) as [t|]; [|discriminate Hp].
    inversion Hp. auto.
Qed.

Lemma owns_keys (k : string) (properties : list (string * Store.value))
    (trees : list (string * jsval)) :
  Forall2 (fun p q => fst q = fst p) properties trees ->
  existsb (fun p => fst p =? k) properties = owns k trees.
Proof.
  induction 1 as [|p q ps qs Hkey _ IH]; simpl.
  - reflexivity.
  - rewrite Hkey, IH. reflexivity.
Qed.

Section Names.

Variable h0 : Store.store.
Hypothesis h0_closed : Store.closed h0.
Variable g : nat.

(** What is indexed by position: the names are the positions. *)
Lemma sequence_paired (obj : Store.value) (t : jsval) (whole : list Store.value)
    (trees : list jsval) (n : nat) :
  Store.within (List.length h0) obj ->
  Store.sequence h0 obj = Some whole ->
  Store.names h0 obj
  = map (fun i => (i, decimal (Z.of_nat i))) (seq 0 (List.length whole)) ->
  (forall name,
      Store.hasOwnProperty h0 obj name
      = Ok (existsb (fun p => snd p =? name) (Store.names h0 obj))) ->
  (forall name, hasOwnProperty t name = Ok (owns name (indexed 0 trees))) ->
  Forall (Store.within (List.length h0)) whole ->
  Store.all (Store.tree n h0) whole = Some trees ->
  n <= g ->
  Forall2 (paired h0 g obj t) (Store.names h0 obj) (indexed 0 trees).
Proof.
  intros Hobj Hsequence Hnames Hstore Hpure Hwithin Hall Hn.
  rewrite Hnames.
  assert (Hgeneral :
    forall todo done doneTrees todoTrees,
      whole = done ++ todo ->
      trees = doneTrees ++ todoTrees ->
      List.length doneTrees = List.length done ->
      Store.all (Store.tree n h0) todo = Some todoTrees ->
      Forall2 (paired h0 g obj t)
        (map (fun i => (i, decimal (Z.of_nat i)))
             (seq (List.length done) (List.length todo)))
        (indexed (List.length done) todoTrees)).
  { induction todo as [|value todo IH];
      intros done doneTrees todoTrees Hwhole Htrees Hlength Htodo.
    - inversion Htodo. constructor.
    - apply all_cons in Htodo. destruct Htodo as [tv [rest [-> [Hvalue Hrest]]]].
      cbn [List.length seq map indexed]. constructor.
      + split; [reflexivity|]. intros lines. cbn [fst snd].
        split; [|split].
        * rewrite (hasOwnProperty_extended h0 lines obj _ Hobj), Hstore, Hpure.
          f_equal.
          transitivity true; [|symmetry].
          -- apply existsb_exists.
             exists (List.length done, decimal (Z.of_nat (List.length done))).
             split; [|apply String.eqb_refl].
             rewrite Hnames. apply in_map_iff. exists (List.length done).
             split; [reflexivity|]. apply in_seq. rewrite Hwhole, length_app.
             simpl. lia.
          -- apply (owns_property _ tv). rewrite Htrees, indexed_app.
             apply in_or_app. right. simpl. left. rewrite Hlength. reflexivity.
        * rewrite (element_extended h0 lines obj _ _ Hobj). unfold Store.element.
          rewrite Hsequence, Hwhole, nth_middle.
          apply (proj1 (Forall_forall _ _) Hwithin). rewrite Hwhole.
          apply in_or_app. right. left. reflexivity.
        * rewrite (element_extended h0 lines obj _ _ Hobj). unfold Store.element.
          rewrite Hsequence, Hwhole, nth_middle.
          exact (tree_within h0 n g value tv Hn Hvalue).
      + replace (S (List.length done)) with (List.length (done ++ [value]))
          by (rewrite length_app; simpl; lia).
        apply (IH (done ++ [value]) (doneTrees ++ [tv]) rest).
        * rewrite <- app_assoc. exact Hwhole.
        * rewrite <- app_assoc. exact Htrees.
        * rewrite !length_app. simpl. lia.
        * exact Hrest. }
  exact (Hgeneral whole [] [] trees eq_refl eq_refl eq_refl Hall).
Qed.

Lemma characters_trees (n : nat) (l : list ascii) :
  Store.all (Store.tree n h0) (map (fun c => Store.VStr (String c EmptyString)) l)
  = Some (map (fun c => JStr (String c EmptyString)) l).
Proof.
  induction l as [|c l IH]; simpl.
  - reflexivity.
  - fold (Store.all (Store.tree n h0)
            (map (fun c => Store.VStr (String c EmptyString)) l)).
    rewrite IH. destruct n; reflexivity.
Qed.

(** The names of the loop on the store are the properties of the loop
    on the tree. *)
Lemma names_paired (obj : Store.value) (t : jsval) (n : nat) :
  Store.within (List.length h0) obj ->
  Store.tree n h0 obj = Some t ->
  n <= S g ->
  Forall2 (paired h0 g obj (defaultTo (JObj []) t))
          (Store.names h0 obj) (forIn (defaultTo (JObj []) t)).
Proof.
  intros Hobj Htree Hn.
  destruct obj as [| | b | x | s | a].
  - destruct n; inversion Htree; constructor.
  - destruct n; inversion Htree; constructor.
  - destruct n; inversion Htree; constructor.
  - destruct n; inversion Htree; constructor.
  - assert (Ht : t = JStr s) by (destruct n; inversion Htree; reflexivity).
    subst t. cbn [defaultTo forIn].
    apply (sequence_paired (Store.VStr s) (JStr s)
             (map (fun c => Store.VStr (String c EmptyString))
                  (list_ascii_of_string s))
             (map (fun c => JStr (String c EmptyString)) (list_ascii_of_string s))
             0); try reflexivity; try assumption.
    + apply Forall_forall. intros v Hv. apply in_map_iff in Hv.
      destruct Hv as [c [<- _]]. exact I.
    + apply characters_trees.
    + lia.
  - destruct n as [|n]; [discriminate Htree|].
    rewrite tree_ref in Htree. simpl in Hobj.
    destruct (nth_error h0 a) as [[members|properties]|] eqn:Hcell;
      [| |discriminate Htree].
    + destruct (Store.all (Store.tree n h0) members) as [trees|] eqn:Hall;
        [|discriminate Htree].
      inversion Htree; subst t. cbn [defaultTo forIn].
      apply (sequence_paired (Store.VRef a) (JArr trees) members trees n);
        try assumption; try lia.
      * simpl. rewrite Hcell. reflexivity.
      * simpl. rewrite Hcell. reflexivity.
      * intros name. simpl. rewrite Hcell. reflexivity.
      * intros name. reflexivity.
      * exact (closed_sound h0 h0_closed _ _ Hcell).
    + destruct (Store.all _ properties) as [trees|] eqn:Hall; [|discriminate Htree].
      inversion Htree; subst t. cbn [defaultTo forIn].
      pose proof (closed_sound h0 h0_closed _ _ Hcell) as [Hwithin Hnodup].
      pose proof (all_properties _ _ _ _ Hall) as Hkeys.
      assert (Hsame : Forall2 (fun p q => fst q = fst p) properties trees).
      { eapply Forall2_impl; [|exact Hkeys]. intros p q [H _]. exact H. }
      simpl. rewrite Hcell.
      assert (Hgeneral :
        forall todo todoTrees k,
          incl todo properties ->
          Forall2 (fun p q => fst q = fst p
                              /\ Store.tree n h0 (snd p) = Some (snd q))
                  todo todoTrees ->
          Forall2 (paired h0 g (Store.VRef a) (JObj trees))
                  (combine (seq k (List.length todo)) (map fst todo)) todoTrees).
      { induction todo as [|[name v] todo IH]; intros todoTrees k Hincl Htodo.
        - inversion Htodo. constructor.
        - inversion Htodo as [|p q ps qs [Hkey Hv] Hrest]; subst.
          cbn [List.length seq map combine fst]. constructor.
          + simpl in Hkey. split; [symmetry; exact Hkey|].
            intros lines. cbn [fst snd]. split; [|split].
            * rewrite (hasOwnProperty_extended h0 lines (Store.VRef a) _ Hobj).
              simpl. rewrite Hcell.
              rewrite !(owns_keys _ properties trees Hsame), Hkey. reflexivity.
            * rewrite (element_extended h0 lines (Store.VRef a) _ _ Hobj).
              unfold Store.element. simpl. rewrite Hcell.
              apply within_lookup. exact Hwithin.
            * rewrite (element_extended h0 lines (Store.VRef a) _ _ Hobj).
              unfold Store.element. simpl. rewrite Hcell.
              rewrite (lookup_own name v properties Hnodup)
                by (apply Hincl; left; reflexivity).
              simpl in Hv. apply (tree_within h0 n g); [lia | exact Hv].
          + apply IH; [|exact Hrest]. intros p Hp. apply Hincl. right. exact Hp. }
      exact (Hgeneral properties trees 0 (incl_refl _) Hkeys).
Qed.

End Names.

(** With any bound, the walker on the store simulates the walker on
    trees. *)
Lemma iterateObjectReqursive_simulated (h0 : Store.store) (g : nat) :
  Store.closed h0 -> simulates h0 g.
Proof.
  intros Hclosed. induction g as [|g IH];
    intros lines obj req depth t r n Hn Hobj Hreq Htree Hr.
  - lia.
  - cbn [Store.iterateObjectReqursive].
    rewrite (names_extended h0 lines obj Hobj).
    rewrite iterateObjectReqursive_eq.
    apply (loop_simulated h0 Hclosed g IH obj (defaultTo (JObj []) t) depth req r
             Hreq).
    + apply (tree_within h0 n g); [lia | exact Hr].
    + apply (names_paired h0 Hclosed g obj t n Hobj Htree). lia.
Qed.

Lemma within_more (n m : nat) (v : Store.value) :
  n <= m -> Store.within n v -> Store.within m v.
Proof. destruct v; simpl; auto. lia. Qed.

Lemma sound_more (n m : nat) (o : Store.object) :
  n <= m -> Store.sound n o -> Store.sound m o.
Proof.
  intros Hn. destruct o as [members|properties]; simpl.
  - apply Forall_impl. intros v. apply within_more. exact Hn.
  - intros [Hwithin Hnodup]. split; [|exact Hnodup].
    revert Hwithin. apply Forall_impl. intros p. apply within_more. exact Hn.
Qed.

(** The store stays closed when the array of the descriptors is
    added. *)
Lemma closed_extended (h : Store.store) (lines : list string) :
  Store.closed h -> Store.closed (extended h (map Store.VStr lines)).
Proof.
  intros Hclosed. unfold Store.closed, extended. rewrite length_app.
  apply Forall_app. split.
  - revert Hclosed. apply Forall_impl. intros o. apply sound_more. lia.
  - constructor; [|constructor]. simpl. apply Forall_forall.
    intros v Hv. apply in_map_iff in Hv. destruct Hv as [s [<- _]]. exact I.
Qed.

Lemma lines_tree (h : Store.store) (n : nat) (lines : list string) :
  Store.all (Store.tree n h) (map Store.VStr lines) = Some (map JStr lines).
Proof.
  induction lines as [|line lines IH]; simpl.
  - reflexivity.
  - fold (Store.all (Store.tree n h) (map Store.VStr lines)).
    rewrite IH. destruct n; reflexivity.
Qed.

(** A run of [extractArgumentsFromSchema] on the store adds the array
    of the descriptors which the run on the tree of the schema yields,
    and ends as that run does. *)
Lemma extractArguments_simulated (h : Store.store) (schema : Store.value)
    (fuel : nat) (t : jsval) :
  Store.closed h ->
  Store.within (List.length h) schema ->
  Store.tree fuel h schema = Some t ->
  Store.extractArgumentsFromSchema (S fuel) h schema
  = Some (extended h (map Store.VStr (fst (extractArgumentsRun t))),
          Store.answer (List.length h) (snd (extractArgumentsRun t))).
Proof.
  intros Hclosed Hschema Htree.
  unfold Store.extractArgumentsFromSchema, extractArgumentsRun.
  fold (extended h []).
  rewrite (read_extended h [] schema "allOf" Hschema).
  pose proof (tree_read h fuel schema t "allOf" Htree) as Hread.
  destruct (Store.read h schema "allOf") as [value|e],
           (read t "allOf") as [found|e']; try contradiction.
  - destruct Hread as [-> ->].
    rewrite (tree_truthy h _ _ _ (tree_get h fuel schema t "allOf" Htree)).
    destruct (truthy (get t "allOf")); [reflexivity|].
    rewrite (get_extended h [] schema "properties" Hschema).
    rewrite (iterateObjectReqursive_simulated h (S fuel) Hclosed []
               (Store.get h schema "properties") Store.VUndefined 0
               (get t "properties") JUndefined (Nat.pred fuel)).
    + destruct (iterateObjectReqursive [] (get t "properties") 0 JUndefined)
        as [lines [|e]]; reflexivity.
    + lia.
    + apply within_get. exact Hclosed.
    + exact I.
    + apply tree_get. exact Htree.
    + apply tree_undefined.
  - subst e'. reflexivity.
Qed.

(** C9: running [extractArgumentsFromSchema] on a schema of a store
    gives the descriptors of the schema's tree in a new array and leaves
    every object of the store as it was, so that the schema has the same
    tree after the run as before; a second run on the same schema, in
    the store the first run left, gives an array with the same
    descriptors and ends in the same way.  The store is taken closed and
    the schema a tree of a depth within the bound. *)
Theorem traversal_repeatable (h : Store.store) (schema : Store.value) (fuel : nat)
    (t : jsval) :
  Store.closed h ->
  Store.within (List.length h) schema ->
  Store.tree fuel h schema = Some t ->
  let lines := fst (extractArgumentsRun t) in
  let outcome := snd (extractArgumentsRun t) in
  let after := extended h (map Store.VStr lines) in
  let again := extended after (map Store.VStr lines) in
  Store.extractArgumentsFromSchema (S fuel) h schema
  = Some (after, Store.answer (List.length h) outcome)
  /\ (forall a o, nth_error h a = Some o -> nth_error after a = Some o)
  /\ Store.tree fuel after schema = Some t
  /\ Store.extractArgumentsFromSchema (S fuel) after schema
     = Some (again, Store.answer (List.length after) outcome)
  /\ Store.tree 1 after (Store.VRef (List.length h)) = Some (JArr (map JStr lines))
  /\ Store.tree 1 again (Store.VRef (List.length after))
     = Some (JArr (map JStr lines)).
Proof.
  intros Hclosed Hschema Htree lines outcome after again.
  assert (Hafter : Store.closed after) by (apply closed_extended; exact Hclosed).
  assert (Hwithin : Store.within (List.length after) schema).
  { apply (within_more (List.length h)); [|exact Hschema].
    unfold after, extended. rewrite length_app. lia. }
  assert (Hsame : Store.tree fuel after schema = Some t).
  { unfold after. rewrite (tree_extended h Hclosed _ fuel schema Hschema).
    exact Htree. }
  split; [|split; [|split; [|split; [|split]]]].
  - apply extractArguments_simulated; assumption.
  - intros a o Ha. unfold after.
    rewrite (extended_prefix h _ a); [exact Ha|].
    apply nth_error_Some. rewrite Ha. discriminate.
  - exact Hsame.
  - apply extractArguments_simulated; assumption.
  - rewrite tree_ref. unfold after. rewrite extended_last.
    rewrite lines_tree. reflexivity.
  - rewrite tree_ref. unfold again. rewrite extended_last.
    rewrite lines_tree. reflexivity.
Qed.

Lemma traversal_repeatable_witness :
  Store.closed sampleStore
  /\ Store.tree 5 sampleStore (Store.VRef 0) = Some sampleSchema
  /\ Store.extractArgumentsFromSchema 6 sampleStore (Store.VRef 0)
     = Some (extended sampleStore sampleLines, Ok (Store.VRef 7))
  /\ Store.tree 5 (extended sampleStore sampleLines) (Store.VRef 0)
     = Some sampleSchema
  /\ Store.extractArgumentsFromSchema 6 (extended sampleStore sampleLines)
                                      (Store.VRef 0)
     = Some (extended (extended sampleStore sampleLines) sampleLines,
             Ok (Store.VRef 8)).
Proof.
  assert (Hclosed : Store.closed sampleStore).
  { unfold Store.closed, sampleStore.
    repeat (apply Forall_cons || apply Forall_nil); simpl;
      repeat split;
      repeat (apply Forall_cons || apply Forall_nil); simpl; try lia; try exact I;
      repeat (apply NoDup_cons || apply NoDup_nil); simpl; intuition discriminate. }
  assert (Hwithin : Store.within (List.length sampleStore) (Store.VRef 0))
    by (simpl; lia).
  assert (Htree : Store.tree 5 sampleStore (Store.VRef 0) = Some sampleSchema)
    by reflexivity.
  pose proof (traversal_repeatable sampleStore (Store.VRef 0) 5 sampleSchema
                Hclosed Hwithin Htree) as [Hfirst [_ [Hsame [Hsecond _]]]].
  split; [exact Hclosed|]. split; [exact Htree|].
  split; [exact Hfirst|]. split; [exact Hsame|]. exact Hsecond.
Defined.

(** The walker writes to the array it is given: when that array is one
    the mapping holds, the mapping's tree is another after the walk. *)
Example walker_writes_to_its_accumulator :
  Store.iterateObjectReqursive 3 sharedStore (Store.VRef 2) (Store.VRef 0) 0
                               Store.VUndefined
  = Some ([Store.OObj [("a", Store.VRef 1); ("list", Store.VRef 2)];
           Store.OObj [("type", Store.VStr "string")];
           Store.OArr [Store.VStr "{string} [a] "]], Normal)
  /\ Store.tree 2 sharedStore (Store.VRef 0)
     = Some (JObj [("a", JObj [("type", JStr "string")]); ("list", JArr [])])
  /\ Store.tree 2 [Store.OObj [("a", Store.VRef 1); ("list", Store.VRef 2)];
                   Store.OObj [("type", Store.VStr "string")];
                   Store.OArr [Store.VStr "{string} [a] "]] (Store.VRef 0)
     = Some (JObj [("a", JObj [("type", JStr "string")]);
                   ("list", JArr [JStr "{string} [a] "])]).
Proof. repeat split; vm_compute; reflexivity. Qed.

End Sharing.
